(** * Verification of the competition-announcement bot

    A shallow embedding of [discord_bot/bot.py] and
    [discord_bot/competition_config.py]: the schedule resolver
    ([get_latest_executed_competition]), the announcement ledger
    ([last_competitions_announcements]), the result aggregator and the
    composer ([get_competition_data], [create_discord_message]), delivery
    ([send_message_to_channel]) and the refresh loop
    ([update_config_and_announce_results]).

    Python objects that the code mutates live in an explicit bot state;
    exceptions are an explicit [Raise] outcome that keeps the state reached
    so far; the external collaborators (clock, tracking backend, chat
    platform, configuration source) are oracles of an environment record. *)

From Stdlib Require Import ZArith Ascii String List Lia.
From stdpp Require Import base tactics option list strings pretty gmap.

Local Open Scope string_scope.
Local Open Scope Z_scope.

(** ** Exceptions and outcomes *)

Module Py.

(** The exception classes that the modelled code can raise;
    [ExternalError] stands for whatever an external collaborator raises. *)
Inductive exn : Type :=
  | ValueError (msg : string)
  | UnboundLocalError (var : string)
  | AttributeError (attr : string)
  | IndexError (msg : string)
  | OverflowError (msg : string)
  | ValidationError (field : string)
  | TypeError (msg : string)
  | ExternalError (what : string).

(** Outcome of a Python call: a value, or a raised exception. *)
Inductive result (A : Type) : Type :=
  | Return (a : A)
  | Raise (e : exn).
Arguments Return {A} a.
Arguments Raise {A} e.

Definition rbind {A B} (r : result A) (k : A -> result B) : result B :=
  match r with
  | Return a => k a
  | Raise e => Raise e
  end.

(** A local variable of a function body: declared by an annotation alone
    it has no value until it is assigned. *)
Inductive local (A : Type) : Type :=
  | Unbound
  | Bound (a : A).
Arguments Unbound {A}.
Arguments Bound {A} a.

(** A list comprehension [[f x for x in l]]: elements are evaluated left to
    right and the first exception aborts the comprehension. *)
Fixpoint comprehension {A B} (f : A -> result B) (l : list A) : result (list B) :=
  match l with
  | [] => Return []
  | x :: l' =>
      rbind (f x) (fun y => rbind (comprehension f l') (fun ys => Return (y :: ys)))
  end.

End Py.
Export Py.

(** ** Calendar and [datetime] *)

Module Datetime.

(** An aware UTC [datetime]; every instant of the program carries
    [tzinfo=timezone.utc], so the zone is not a field. *)
Record datetime : Type := mk_datetime {
  dt_year : Z;
  dt_month : Z;
  dt_day : Z;
  dt_hour : Z;
  dt_minute : Z;
  dt_second : Z;
  dt_microsecond : Z
}.

#[global] Instance datetime_eq_dec : EqDecision datetime.
Proof. solve_decision. Defined.

Definition is_leap (y : Z) : bool :=
  (y mod 4 =? 0) && (negb (y mod 100 =? 0) || (y mod 400 =? 0)).

Definition days_in_month (y m : Z) : Z :=
  if m =? 2 then (if is_leap y then 29 else 28)
  else if (m =? 4) || (m =? 6) || (m =? 9) || (m =? 11) then 30
  else 31.

(** The field checks of the [datetime] constructor, in its order. *)
Definition check_date_fields (y m d : Z) : result unit :=
  if negb ((1 <=? y) && (y <=? 9999)) then Raise (ValueError "year is out of range")
  else if negb ((1 <=? m) && (m <=? 12)) then Raise (ValueError "month must be in 1..12")
  else if negb ((1 <=? d) && (d <=? days_in_month y m))
       then Raise (ValueError "day is out of range for month")
  else Return tt.

(** [t.replace(year=y, month=m, day=d, tzinfo=timezone.utc)]: builds a new
    object, so the date fields are checked again. *)
Definition replace_date (t : datetime) (y m d : Z) : result datetime :=
  rbind (check_date_fields y m d) (fun _ =>
    Return {| dt_year := y; dt_month := m; dt_day := d;
              dt_hour := dt_hour t; dt_minute := dt_minute t;
              dt_second := dt_second t; dt_microsecond := dt_microsecond t |}).

(** Comparison of two aware datetimes of the same zone is the lexicographic
    comparison of their fields. *)
Fixpoint lex_compare (a b : list Z) : comparison :=
  match a, b with
  | [], [] => Eq
  | [], _ :: _ => Lt
  | _ :: _, [] => Gt
  | x :: a', y :: b' =>
      match x ?= y with
      | Eq => lex_compare a' b'
      | c => c
      end
  end.

Definition fields (t : datetime) : list Z :=
  [dt_year t; dt_month t; dt_day t; dt_hour t; dt_minute t; dt_second t;
   dt_microsecond t].

Definition compare (a b : datetime) : comparison :=
  lex_compare (fields a) (fields b).

(** [a <= b] and [a > b] on datetimes. *)
Definition leb (a b : datetime) : bool :=
  match compare a b with Gt => false | _ => true end.
Definition gtb (a b : datetime) : bool := negb (leb a b).

Definition le (a b : datetime) : Prop := leb a b = true.

(** [max(l)]: keeps the first maximal item; [ValueError] on an empty list. *)
Definition max_from (first : datetime) (rest : list datetime) : datetime :=
  fold_left (fun cur x => if gtb x cur then x else cur) rest first.

Definition py_max (l : list datetime) : result datetime :=
  match l with
  | [] => Raise (ValueError "max() arg is an empty sequence")
  | x :: l' => Return (max_from x l')
  end.

(** The calendar date before [(y, m, d)], as date arithmetic computes it. *)
Definition previous_date (y m d : Z) : Z * Z * Z :=
  if 1 <? d then (y, m, d - 1)
  else if 1 <? m then (y, m - 1, days_in_month y (m - 1))
  else (y - 1, 12, 31).

(** [t - timedelta(minutes=15)]. *)
Definition minus_15_minutes (t : datetime) : result datetime :=
  let total := 60 * dt_hour t + dt_minute t - 15 in
  if 0 <=? total then
    Return {| dt_year := dt_year t; dt_month := dt_month t; dt_day := dt_day t;
              dt_hour := total / 60; dt_minute := total mod 60;
              dt_second := dt_second t; dt_microsecond := dt_microsecond t |}
  else
    let '(y, m, d) := previous_date (dt_year t) (dt_month t) (dt_day t) in
    if y <? 1 then Raise (OverflowError "date value out of range")
    else
      Return {| dt_year := y; dt_month := m; dt_day := d;
                dt_hour := (total + 1440) / 60; dt_minute := (total + 1440) mod 60;
                dt_second := dt_second t; dt_microsecond := dt_microsecond t |}.

(** *** [datetime.strptime(s, "%H:%M")]

    The directive [%H] takes one digit or two digits from 00 to 23, [%M]
    one digit or two digits from 00 to 59, and nothing may follow the
    minutes. The digits read here are the ASCII digits, which are all the
    decimal digits that a string of ASCII characters holds; [strptime] also
    takes the other decimal digits of Unicode, so what is stated of a slot
    that is rejected is stated of slots of ASCII characters ([ascii_only]).
    The two messages of the [ValueError] (no match, unconverted data) are
    not told apart. *)

(** The string holds ASCII characters only. *)
Definition ascii_only (s : string) : bool :=
  forallb (fun c => (N_of_ascii c <? 128)%N) (list_ascii_of_string s).

Definition digit_value (c : ascii) : option Z :=
  let n := N_of_ascii c in
  if ((48 <=? n) && (n <=? 57))%N then Some (Z.of_N n - 48) else None.

(** One or two decimal digits whose value is at most [bound]: the directive
    [%H] with [bound = 23] and [%M] with [bound = 59]. *)
Definition two_digits (bound : Z) (s : string) : option Z :=
  match s with
  | String a EmptyString => digit_value a
  | String a (String b EmptyString) =>
      match digit_value a, digit_value b with
      | Some x, Some y => if 10 * x + y <=? bound then Some (10 * x + y) else None
      | _, _ => None
      end
  | _ => None
  end.

(** Splits at the first occurrence of a separator. *)
Fixpoint split_at (sep : ascii) (s : string) : option (string * string) :=
  match s with
  | EmptyString => None
  | String c s' =>
      if Ascii.eqb c sep then Some (EmptyString, s')
      else match split_at sep s' with
           | Some (h, m) => Some (String c h, m)
           | None => None
           end
  end.

Definition parse_HM (s : string) : option (Z * Z) :=
  match split_at ":" s with
  | Some (h, m) =>
      match two_digits 23 h, two_digits 59 m with
      | Some hh, Some mm => Some (hh, mm)
      | _, _ => None
      end
  | None => None
  end.

(** The parsed time on the default date 1900-01-01. *)
Definition strptime_HM (s : string) : result datetime :=
  match parse_HM s with
  | Some (hh, mm) =>
      Return {| dt_year := 1900; dt_month := 1; dt_day := 1;
                dt_hour := hh; dt_minute := mm; dt_second := 0; dt_microsecond := 0 |}
  | None => Raise (ValueError "time data does not match format '%H:%M'")
  end.

End Datetime.
Export Datetime.

(** ** Schedule resolver *)

(** The body of [get_latest_executed_competition] once [current_time] has
    been read from the clock. *)
Definition latest_executed_competition
    (current_time : datetime) (competition_schedule : list string) : result datetime :=
  rbind (comprehension
           (fun time_str =>
              rbind (strptime_HM time_str) (fun t =>
                replace_date t (dt_year current_time) (dt_month current_time)
                             (dt_day current_time)))
           competition_schedule) (fun time_objects =>
  let past_times := List.filter (fun time => Datetime.leb time current_time) time_objects in
  match past_times with
  | _ :: _ => py_max past_times
  | [] =>
      rbind (comprehension
               (fun time_str =>
                  rbind (strptime_HM time_str) (fun t =>
                    replace_date t (dt_year current_time) (dt_month current_time)
                                 (dt_day current_time - 1)))
               competition_schedule) (fun time_objects_yesterday =>
      py_max time_objects_yesterday)
  end).

(** ** Floating-point scores and their rendering *)

Module Float.

(** A Python [float]: [Finite neg m e] is [(-1)^neg * m * 2^e] (every IEEE
    double has this form, with the sign kept apart so that [-0.0] exists),
    or an infinity, or not-a-number. *)
Inductive pyfloat : Type :=
  | Finite (neg : bool) (m : N) (e : Z)
  | Inf (neg : bool)
  | NaN.

(** [m * 2^e * 100] rounded to the nearest integer, ties to even: the
    correctly rounded number of hundredths that a format with precision 2
    prints. *)
Definition hundredths (m : N) (e : Z) : N :=
  if 0 <=? e then (m * 100 * 2 ^ Z.to_N e)%N
  else
    let d := (2 ^ Z.to_N (- e))%N in
    let q := (m * 100 / d)%N in
    let r := (m * 100 mod d)%N in
    if (2 * r <? d)%N then q
    else if (d <? 2 * r)%N then (q + 1)%N
    else if N.even q then q else (q + 1)%N.

Definition digit_char (n : N) : ascii := pretty_N_char n.

(** [format(f, ".2f")]. *)
Definition format_2f (f : pyfloat) : string :=
  match f with
  | NaN => "nan"
  | Inf false => "inf"
  | Inf true => "-inf"
  | Finite neg m e =>
      let h := hundredths m e in
      (if neg then "-" else "") +:+ pretty (h / 100)%N +:+ "." +:+
      String (digit_char (h mod 100 / 10)%N)
        (String (digit_char (h mod 10)%N) EmptyString)
  end.

End Float.
Export Float.

(** ** [strftime] and [str(int)] *)

(** A two-digit, zero-padded field ([%m], [%d], [%H], [%M]). *)
Definition pad2 (z : Z) : string :=
  String (digit_char (Z.to_N z / 10 mod 10)%N)
    (String (digit_char (Z.to_N z mod 10)%N) EmptyString).

(** The year of [%Y], in four digits (as every platform prints the years
    from 1000 on). *)
Definition pad4 (z : Z) : string :=
  String (digit_char (Z.to_N z / 1000 mod 10)%N)
    (String (digit_char (Z.to_N z / 100 mod 10)%N) (pad2 (z mod 100))).

(** [t.strftime('%Y.%m.%d %H:%M UTC')]. *)
Definition strftime (t : datetime) : string :=
  pad4 (dt_year t) +:+ "." +:+ pad2 (dt_month t) +:+ "." +:+ pad2 (dt_day t) +:+
  " " +:+ pad2 (dt_hour t) +:+ ":" +:+ pad2 (dt_minute t) +:+ " UTC".

(** ** Result records and pydantic models *)

(** The values found in a run's summary. Python compares them with [==]
    and counts them by hash and [==]; the model takes a type of (hashable)
    values with decidable equality, together with the outcome of validating
    a value as a field of type [int], [float] or [str] of a pydantic model
    ([None]: the value is rejected). *)
Class PyValue (val : Type) : Type := {
  value_eq_dec :: EqDecision val;
  validate_int : val -> option Z;
  validate_float : val -> option pyfloat;
  validate_str : val -> option string
}.

(** A run of the tracking backend; the code only reads [run.summary], a
    mapping whose items are listed in iteration order. *)
Record Run (val : Type) : Type := mk_run {
  summary : list (string * val)
}.
Arguments mk_run {val} summary.
Arguments summary {val} r.

Record CompetitionConfig : Type := mk_competition {
  competition_id : string;
  category : string;
  evaluation_times : list string;
  dataset_hf_repo : string;
  dataset_hf_filename : string;
  dataset_hf_repo_type : string
}.

Record DiscordAnnouncementData : Type := mk_announcement {
  ad_competition_id : string;
  ad_competition_date : datetime;
  ad_dataset_size : Z;
  ad_tested_models_amount : Z;
  ad_winning_hotkey : string;
  ad_score : pyfloat
}.

(** ** Announcement composer *)

Definition newline : string := String (ascii_of_nat 10) EmptyString.

(** [create_discord_message]. *)
Definition create_discord_message (announcement_data : DiscordAnnouncementData) : string :=
  "# Competition results" +:+ newline +:+ newline +:+
  "**" +:+ ad_competition_id announcement_data +:+ "**  - `" +:+
    strftime (ad_competition_date announcement_data) +:+ "`" +:+ newline +:+
  "Dataset size: " +:+ pretty (ad_dataset_size announcement_data) +:+ newline +:+ newline +:+
  "Tested models - " +:+ pretty (ad_tested_models_amount announcement_data) +:+
    newline +:+ newline +:+
  "Winning hotkey - " +:+ ad_winning_hotkey announcement_data +:+ newline +:+ newline +:+
  "Score: **" +:+ format_2f (ad_score announcement_data) +:+ "**".

(** ** Result aggregator: the pure loops of [get_competition_data] *)

Section Aggregator.
Context `{PyValue val}.

(** The first scan: [tested_models_amount] counts the [score] keys and
    [validators_choices] collects the [winning_hotkey] values. *)
Definition scan_item (acc : Z * list val) (item : string * val) : Z * list val :=
  let '(tested_models_amount, validators_choices) := acc in
  let '(key, value) := item in
  if String.eqb key "score" then (tested_models_amount + 1, validators_choices)
  else if String.eqb key "winning_hotkey"
       then (tested_models_amount, (validators_choices ++ [value])%list)
  else (tested_models_amount, validators_choices).

Definition scan_runs (runs : list (Run val)) : Z * list val :=
  fold_left (fun acc run => fold_left scan_item (summary run) acc) runs (0, []).

(** [Counter(votes)]: a dict from vote to count, in insertion order. *)
Fixpoint counter_add (c : list (val * Z)) (v : val) : list (val * Z) :=
  match c with
  | [] => [(v, 1)]
  | (k, n) :: c' =>
      if decide (k = v) then (k, n + 1) :: c' else (k, n) :: counter_add c' v
  end.

Definition Counter (votes : list val) : list (val * Z) :=
  fold_left counter_add votes [].

(** [c.most_common(1)]: [heapq.nlargest(1, c.items(), key=count)], which is
    [max] by count over the items, so the first item of maximal count. *)
Definition most_common_1 (c : list (val * Z)) : list (val * Z) :=
  match c with
  | [] => []
  | x :: c' => [fold_left (fun best y => if snd best <? snd y then y else best) c' x]
  end.

(** The inner loop of the second scan: true when it leaves by [break]. *)
Fixpoint has_miner_hotkey (items : list (string * val)) (winning_hotkey : val) : bool :=
  match items with
  | [] => false
  | (key, value) :: items' =>
      if String.eqb key "miner_hotkey" && bool_decide (value = winning_hotkey) then true
      else has_miner_hotkey items' winning_hotkey
  end.

(** The second scan. The local [winner_run] is declared without a value,
    so it starts [Unbound]; a bound local holds a Python value, [Some run]
    for a run and [None] for the Python [None]. The [break] leaves the inner
    loop only, so the outer loop goes on over the later runs. *)
Definition find_winner_run (runs : list (Run val)) (winning_hotkey : val)
    : local (option (Run val)) :=
  fold_left (fun winner_run run =>
               if has_miner_hotkey (summary run) winning_hotkey then Bound (Some run)
               else winner_run) runs Unbound.

(** The third scan, over the winner's summary; [dataset_size] and [score]
    are declared without a value and stay unbound until their key is met. *)
Definition extract_item (acc : local val * local val) (item : string * val)
    : local val * local val :=
  let '(dataset_size, score) := acc in
  let '(key, value) := item in
  let dataset_size := if String.eqb key "tested_entries" then Bound value else dataset_size in
  let score := if String.eqb key "score" then Bound value else score in
  (dataset_size, score).

Definition extract_fields (winner_run : Run val) : local val * local val :=
  fold_left extract_item (summary winner_run) (Unbound, Unbound).

(** [l[0]]. *)
Definition subscript_0 {A} (l : list A) : result A :=
  match l with
  | x :: _ => Return x
  | [] => Raise (IndexError "list index out of range")
  end.

(** Reading a local variable. *)
Definition read_local {A} (name : string) (v : local A) : result A :=
  match v with
  | Bound a => Return a
  | Unbound => Raise (UnboundLocalError name)
  end.

(** [DiscordAnnouncementData(...)]: the fields are validated by pydantic. *)
Definition validate_field {A} (name : string) (v : option A) : result A :=
  match v with
  | Some a => Return a
  | None => Raise (ValidationError name)
  end.

Definition build_announcement (id : string) (date : datetime) (dataset_size : val)
    (tested_models_amount : Z) (winning_hotkey : val) (score : val)
    : result DiscordAnnouncementData :=
  rbind (validate_field "dataset_size" (validate_int dataset_size)) (fun ds =>
  rbind (validate_field "winning_hotkey" (validate_str winning_hotkey)) (fun wh =>
  rbind (validate_field "score" (validate_float score)) (fun sc =>
  Return (mk_announcement id date ds tested_models_amount wh sc)))).

End Aggregator.

(** ** Configuration documents and the [CompetitionConfig] model *)

(** A value that [json.loads] returns; an object is listed by the items of
    its dict, whose keys are distinct. *)
#[local] Unset Elimination Schemes.
Inductive json : Type :=
  | JNull
  | JBool (b : bool)
  | JInt (z : Z)
  | JFloat (f : pyfloat)
  | JString (s : string)
  | JArray (l : list json)
  | JObject (items : list (string * json)).
#[local] Set Elimination Schemes.

(** [d.get(key)] on the items of a dict. *)
Fixpoint dict_get (key : string) (items : list (string * json)) : option json :=
  match items with
  | [] => None
  | (k, v) :: items' => if String.eqb k key then Some v else dict_get key items'
  end.

(** A field [str = Field(..., min_length=1)]: the key is required, its value
    is a string, and the string is not empty. *)
Definition str_field (name : string) (items : list (string * json)) : result string :=
  match dict_get name items with
  | Some (JString s) =>
      if String.eqb s "" then Raise (ValidationError name) else Return s
  | _ => Raise (ValidationError name)
  end.

(** An item of a field of type [list[str]]: a string, which may be empty. *)
Definition str_item (name : string) (j : json) : result string :=
  match j with
  | JString s => Return s
  | _ => Raise (ValidationError name)
  end.

(** A field [list[str] = Field(..., min_length=1)]: the key is required, its
    value is a list of strings, and the list is not empty. *)
Definition str_list_field (name : string) (items : list (string * json))
    : result (list string) :=
  match dict_get name items with
  | Some (JArray l) =>
      rbind (comprehension (str_item name) l) (fun l' =>
        match l' with
        | [] => Raise (ValidationError name)
        | _ :: _ => Return l'
        end)
  | _ => Raise (ValidationError name)
  end.

(** The constructor [CompetitionConfig] applied to the keywords of a dict.
    Keys that the model does not declare are ignored; the [ValidationError]
    is reported here by its first field in declaration order. *)
Definition new_CompetitionConfig (competition : list (string * json))
    : result CompetitionConfig :=
  rbind (str_field "competition_id" competition) (fun id =>
  rbind (str_field "category" competition) (fun cat =>
  rbind (str_list_field "evaluation_times" competition) (fun times =>
  rbind (str_field "dataset_hf_repo" competition) (fun repo =>
  rbind (str_field "dataset_hf_filename" competition) (fun filename =>
  rbind (str_field "dataset_hf_repo_type" competition) (fun repo_type =>
  Return (mk_competition id cat times repo filename repo_type))))))).

(** [for competition in config_data]: the items that iterating the parsed
    document yields. A list yields its items, a dict its keys, a string its
    characters; the other values are not iterable. *)
Definition iterate (config_data : json) : result (list json) :=
  match config_data with
  | JArray l => Return l
  | JObject items => Return (List.map (fun item => JString (fst item)) items)
  | JString s =>
      Return (List.map (fun c => JString (String c EmptyString)) (list_ascii_of_string s))
  | JNull | JBool _ | JInt _ | JFloat _ => Raise (TypeError "object is not iterable")
  end.

Definition is_dict (j : json) : bool :=
  match j with
  | JObject _ => true
  | _ => false
  end.

(** The call of [CompetitionConfig] on the unpacked [competition]: the
    double star asks for a mapping. *)
Definition unpack_CompetitionConfig (competition : json) : result CompetitionConfig :=
  match competition with
  | JObject items => new_CompetitionConfig items
  | _ => Raise (TypeError "argument after ** must be a mapping")
  end.

(** ** The bot, its environment and its effects *)

Record filters : Type := mk_filters {
  created_at_gte : datetime;
  created_at_lt : datetime
}.

Inductive level : Type := INFO | ERROR.

(** What the bot does to the outside, in order. *)
Inductive event : Type :=
  | Log (lvl : level) (msg : string)
  | LogException (msg : string) (e : exn)
  | HttpGet
  | WandbRuns (path : string) (f : filters)
  | ChannelSend (guild_id : Z) (channel_name : string) (message : string).

(** A response of the configuration source: the status and, for the body,
    the outcome of [json.loads] on its text. *)
Record response : Type := mk_response {
  status : Z;
  body : result json
}.

(** A guild of the chat platform, seen through its name and the names of
    its text channels. *)
Record Guild : Type := mk_guild {
  guild_name : string;
  text_channels : list string
}.

(** The external collaborators. Every oracle takes the number of external
    interactions made so far, so that answers may change over time.
    [GUILD_ID] is [int(config["GUILD_ID"])]; [wandb_runs] answers
    [wandb_api.runs], with [None] for the Python [None]; [channel_send] is
    the outcome of [channel.send]. *)
Record env (val : Type) : Type := mk_env {
  clock : nat -> datetime;
  wandb_runs : nat -> string -> filters -> result (option (list (Run val)));
  http_get : nat -> result response;
  GUILD_ID : Z;
  get_guild : nat -> Z -> option Guild;
  channel_send : nat -> Z -> string -> string -> result unit
}.
Arguments clock {val} e n.
Arguments wandb_runs {val} e n path f.
Arguments http_get {val} e n.
Arguments GUILD_ID {val} e.
Arguments get_guild {val} e n guild_id.
Arguments channel_send {val} e n guild_id channel_name message.

(** The mutable state: the ledger of [DiscordBot], the registry attribute
    of [CompetitionConfigManager] ([None] while the attribute has never
    been assigned), the interaction counter and the events so far. *)
Record bot : Type := mk_bot {
  last_competitions_announcements : gmap string datetime;
  competition_configs : option (list CompetitionConfig);
  tick : nat;
  trace : list event
}.

(** The state of a freshly constructed [DiscordBot]. *)
Definition init : bot :=
  {| last_competitions_announcements := ∅; competition_configs := None;
     tick := 0; trace := [] |}.

(** A coroutine of the bot: it runs from a state to an outcome and the state
    reached, which an exception keeps. *)
Definition M (A : Type) : Type := bot -> result A * bot.

Definition ret {A} (a : A) : M A := fun s => (Return a, s).
Definition raise {A} (e : exn) : M A := fun s => (Raise e, s).
Definition bind {A B} (m : M A) (k : A -> M B) : M B :=
  fun s => match m s with
           | (Return a, s') => k a s'
           | (Raise e, s') => (Raise e, s')
           end.
Definition lift {A} (r : result A) : M A := fun s => (r, s).

(** [try: m except Exception as e: h e]. *)
Definition try_except {A} (m : M A) (h : exn -> M A) : M A :=
  fun s => match m s with
           | (Return a, s') => (Return a, s')
           | (Raise e, s') => h e s'
           end.

Notation "'do' x <- m ; k" := (bind m (fun x => k))
  (at level 10, x name, m at level 100, k at level 200).
Notation "m ;; k" := (bind m (fun _ => k))
  (at level 100, k at level 200, right associativity).

Definition emit (ev : event) : M unit :=
  fun s => (Return tt, {| last_competitions_announcements := last_competitions_announcements s;
                          competition_configs := competition_configs s;
                          tick := tick s; trace := (trace s ++ [ev])%list |}).

(** One external interaction: reads the counter and advances it. *)
Definition interact : M nat :=
  fun s => (Return (tick s),
            {| last_competitions_announcements := last_competitions_announcements s;
               competition_configs := competition_configs s;
               tick := S (tick s); trace := trace s |}).

Definition get_ledger : M (gmap string datetime) :=
  fun s => (Return (last_competitions_announcements s), s).

Definition set_ledger (id : string) (t : datetime) : M unit :=
  fun s => (Return tt,
            {| last_competitions_announcements := <[id := t]> (last_competitions_announcements s);
               competition_configs := competition_configs s;
               tick := tick s; trace := trace s |}).

(** Reading [config_manager.competition_configs]. *)
Definition get_configs : M (list CompetitionConfig) :=
  fun s => match competition_configs s with
           | Some l => (Return l, s)
           | None => (Raise (AttributeError "competition_configs"), s)
           end.

Definition set_configs (l : list CompetitionConfig) : M unit :=
  fun s => (Return tt,
            {| last_competitions_announcements := last_competitions_announcements s;
               competition_configs := Some l;
               tick := tick s; trace := trace s |}).

(** [for x in l: body x]. *)
Fixpoint for_each {A} (l : list A) (body : A -> M unit) : M unit :=
  match l with
  | [] => ret tt
  | x :: l' => body x ;; for_each l' body
  end.

(** ** The coroutines of [DiscordBot] and [CompetitionConfigManager] *)

Section Bot.
Context `{PyValue val}.
Variable E : env val.

(** [datetime.now(timezone.utc)]. *)
Definition datetime_now : M datetime :=
  do n <- interact; ret (clock E n).

Definition get_latest_executed_competition (competition_schedule : list string)
    : M datetime :=
  do current_time <- datetime_now;
  lift (latest_executed_competition current_time competition_schedule).

Definition _get_guild_or_raise (guild_id : Z) : M Guild :=
  do n <- interact;
  match get_guild E n guild_id with
  | None =>
      emit (Log ERROR ("Guild with ID " +:+ pretty guild_id +:+ " not found."));;
      raise (ValueError ("Guild with ID " +:+ pretty guild_id +:+ " not found."))
  | Some guild => ret guild
  end.

(** [send_message_to_channel], once the bot is ready.
    [discord.utils.get(guild.text_channels, name=channel_name)] finds the
    first channel of that name, if there is one. *)
Definition send_message_to_channel (channel_name message : string) : M unit :=
  do guild <- _get_guild_or_raise (GUILD_ID E);
  if bool_decide (channel_name ∈ text_channels guild) then
    do n <- interact;
    emit (ChannelSend (GUILD_ID E) channel_name message);;
    lift (channel_send E n (GUILD_ID E) channel_name message)
  else
    emit (Log ERROR ("Channel named '" +:+ channel_name +:+ "' not found in guild '" +:+
                     guild_name guild +:+ "'"));;
    raise (ValueError ("Channel named '" +:+ channel_name +:+ "' not found in guild '" +:+
                       guild_name guild +:+ "'")).

(** The part of [get_competition_data] that follows the query, from
    [tested_models_amount = 0] on, with [runs] bound to a sequence. *)
Definition competition_data_from_runs (competition : CompetitionConfig)
    (latest_executed_competition : datetime) (runs : list (Run val))
    : M (option DiscordAnnouncementData) :=
  let '(tested_models_amount, validators_choices) := scan_runs runs in
  let validators_choices_counter := Counter validators_choices in
  match validators_choices_counter with
  | [] =>
      emit (Log ERROR ("No validators choices found for competition " +:+
                       competition_id competition));;
      ret None
  | _ :: _ =>
      do winning_hotkey <-
        lift (rbind (subscript_0 (most_common_1 validators_choices_counter))
                    (fun item => Return (fst item)));
      let winner_run := find_winner_run runs winning_hotkey in
      (* [if winner_run is None] reads the local first *)
      do winner_run <- lift (read_local "winner_run" winner_run);
      match winner_run with
      | None =>
          emit (Log ERROR ("No winner run found for competition " +:+
                           competition_id competition));;
          ret None
      | Some winner_run =>
          let '(dataset_size, score) := extract_fields winner_run in
          set_ledger (competition_id competition) latest_executed_competition;;
          do dataset_size <- lift (read_local "dataset_size" dataset_size);
          do score <- lift (read_local "score" score);
          do announcement_data <-
            lift (build_announcement (competition_id competition)
                    latest_executed_competition dataset_size tested_models_amount
                    winning_hotkey score);
          ret (Some announcement_data)
      end
  end.

(** [get_competition_data]; [Return None] is the Python [return None]. *)
Definition get_competition_data (competition : CompetitionConfig)
    : M (option DiscordAnnouncementData) :=
  let entity := "safe-scan-ai" in
  let project := competition_id competition in
  let competition_schedule := evaluation_times competition in
  do latest_executed_competition <- get_latest_executed_competition competition_schedule;
  do now <- datetime_now;
  do announcement_threshold <- lift (minus_15_minutes now);
  do ledger <- get_ledger;
  let latest_executed_announcement := ledger !! competition_id competition in
  if bool_decide (Some latest_executed_competition = latest_executed_announcement) then
    emit (Log INFO ("Competition " +:+ competition_id competition +:+ " already announced"));;
    ret None
  else
    let filters := {| created_at_gte := latest_executed_competition;
                      created_at_lt := announcement_threshold |} in
    do n <- interact;
    emit (WandbRuns (entity +:+ "/" +:+ project) filters);;
    do runs <- lift (wandb_runs E n (entity +:+ "/" +:+ project) filters);
    match runs with
    | None =>
        emit (Log INFO ("No runs found for competition " +:+ competition_id competition));;
        ret None
    | Some runs => competition_data_from_runs competition latest_executed_competition runs
    end.

Definition announce_competition_results (competition : CompetitionConfig) : M unit :=
  do announcement_data <- get_competition_data competition;
  match announcement_data with
  | None => ret tt
  | Some announcement_data =>
      let message := create_discord_message announcement_data in
      send_message_to_channel "discord-bot-test" message
  end.

(** The loop of [get_competition_configs] over the items still to come,
    with the list [competitions] built so far. The handler reads
    [competition.get] before it logs: an item that is a dict has the method,
    so the exception is logged and raised again; any other item has not, so
    the handler itself ends by an [AttributeError] and nothing is logged. *)
Fixpoint collect_competition_configs (config_data : list json)
    (competitions : list CompetitionConfig) : M (list CompetitionConfig) :=
  match config_data with
  | [] => ret competitions
  | competition :: config_data' =>
      do competition_config <-
        try_except (lift (unpack_CompetitionConfig competition))
          (fun e =>
             if is_dict competition then
               emit (LogException "Error for competition" e);; raise e
             else raise (AttributeError "get"));
      collect_competition_configs config_data' (competitions ++ [competition_config])%list
  end.

(** [CompetitionConfigManager.get_competition_configs]. *)
Definition get_competition_configs (config_data : json) : M (list CompetitionConfig) :=
  do items <- lift (iterate config_data);
  collect_competition_configs items [].

Definition load_config_from_remote_repo : M unit :=
  do n <- interact;
  emit HttpGet;;
  do response <- lift (http_get E n);
  if status response =? 200 then
    try_except
      (do json_config <- lift (body response);
       do configs <- get_competition_configs json_config;
       set_configs configs;;
       emit (Log INFO "Configuration fetched and processed successfully."))
      (fun e => emit (LogException "Configuration processing failed" e);; raise e)
  else
    emit (Log ERROR ("Failed to fetch configuration. Status code: " +:+
                     pretty (status response)));;
    raise (ValueError "Could not fetch configuration from remote repo.").

(** Phase A of the refresh loop. *)
Definition update_config : M unit :=
  try_except
    (emit (Log INFO "Updating competition config...");;
     load_config_from_remote_repo;;
     emit (Log INFO "Update completed."))
    (fun e => emit (LogException "Unexpected error during remote repo synchronization" e)).

(** Phase B of the refresh loop: one [try] around the whole [for]. *)
Definition announce_results : M unit :=
  try_except
    (emit (Log INFO "Announcing competition results...");;
     do configs <- get_configs;
     for_each configs announce_competition_results;;
     emit (Log INFO "Announcement completed."))
    (fun e => emit (LogException "Unexpected error during competition announcement" e)).

Definition update_config_and_announce_results : M unit :=
  update_config;; announce_results.

End Bot.

(** ** A concrete universe of summary values *)

(** Strings, integers, floats and [None], for the runs of the code on
    concrete inputs. The fields are validated as pydantic validates them by
    default: a field of type [int] takes an integer or a float without
    fractional part, [float] a float or an integer, which is rounded to the
    nearest double, [str] a string only. Two things are left out of this
    universe: a string is not read as a number, and equality is that of the
    constructors, which is Python's [==] as long as a collection does not
    hold the same number in two forms (an integer and a float, or two
    spellings of one float) nor a not-a-number. *)
Inductive pyval : Type :=
  | VNone
  | VInt (z : Z)
  | VFloat (f : pyfloat)
  | VStr (s : string).

#[global] Instance pyfloat_eq_dec : EqDecision pyfloat.
Proof. solve_decision. Defined.

#[global] Instance pyval_eq_dec : EqDecision pyval.
Proof. solve_decision. Defined.

(** [float(z)]: the double nearest to [z], ties to the even mantissa of 53
    bits; an integer that rounds to [2^1024] or beyond has no double. *)
Definition float_of_int (z : Z) : option pyfloat :=
  let n := Z.abs_N z in
  if (N.size n <=? 53)%N then Some (Finite (z <? 0) n 0)
  else
    let k := (N.size n - 53)%N in
    let q := (n / 2 ^ k)%N in
    let r := (n mod 2 ^ k)%N in
    let q' := if (2 * r <? 2 ^ k)%N then q
              else if (2 ^ k <? 2 * r)%N then (q + 1)%N
              else if N.even q then q else (q + 1)%N in
    if (2 ^ 1024 <=? q' * 2 ^ k)%N then None
    else Some (Finite (z <? 0) q' (Z.of_N k)).

(** The integer that a field of type [int] takes from a float: the float
    has no fractional part and lies strictly between [-2^63] and [2^63]. *)
Definition int_of_float (f : pyfloat) : option Z :=
  match f with
  | Finite neg m e =>
      let sign := if neg then -1 else 1 in
      let whole :=
        if 0 <=? e then Some (Z.of_N m * 2 ^ e)
        else if (m mod 2 ^ Z.to_N (- e) =? 0)%N
             then Some (Z.of_N (m / 2 ^ Z.to_N (- e))%N)
             else None in
      match whole with
      | Some z => if z <? 2 ^ 63 then Some (sign * z) else None
      | None => None
      end
  | Inf _ | NaN => None
  end.

#[global] Instance pyval_PyValue : PyValue pyval := {|
  validate_int v :=
    match v with VInt z => Some z | VFloat f => int_of_float f | _ => None end;
  validate_float v :=
    match v with VFloat f => Some f | VInt z => float_of_int z | _ => None end;
  validate_str v := match v with VStr s => Some s | _ => None end
|}.

Module Scenario.

Definition melanoma : CompetitionConfig :=
  mk_competition "melanoma-1" "skin" ["09:00"; "15:00"] "repo" "file.zip" "dataset".

(** The same competition after an edit of its schedule that removes the
    slot 15:00. *)
Definition melanoma_morning : CompetitionConfig :=
  mk_competition "melanoma-1" "skin" ["09:00"] "repo" "file.zip" "dataset".

(** A competition whose only time slot does not parse. *)
Definition broken : CompetitionConfig :=
  mk_competition "broken-1" "skin" ["25:00"] "repo" "file.zip" "dataset".

(** The entry of the configuration document for [melanoma], with a key
    that the model does not declare, and the entry after the edit. *)
Definition melanoma_dict : list (string * json) :=
  [ ("competition_id", JString "melanoma-1"); ("category", JString "skin");
    ("evaluation_times", JArray [JString "09:00"; JString "15:00"]);
    ("dataset_hf_repo", JString "repo"); ("dataset_hf_filename", JString "file.zip");
    ("dataset_hf_repo_type", JString "dataset"); ("comment", JInt 1) ].

Definition melanoma_morning_dict : list (string * json) :=
  [ ("competition_id", JString "melanoma-1"); ("category", JString "skin");
    ("evaluation_times", JArray [JString "09:00"]);
    ("dataset_hf_repo", JString "repo"); ("dataset_hf_filename", JString "file.zip");
    ("dataset_hf_repo_type", JString "dataset") ].

(** The double nearest to 0.87. *)
Definition f_0_87 : pyfloat := Finite false 7836263351624663 (-53).

(** Three records, two votes for H1, H1's own record in the middle. *)
Definition runs3 : list (Run pyval) :=
  [ mk_run [("winning_hotkey", VStr "H1"); ("score", VFloat f_0_87)];
    mk_run [("miner_hotkey", VStr "H1"); ("tested_entries", VInt 500);
            ("score", VFloat f_0_87); ("winning_hotkey", VStr "H1")];
    mk_run [("winning_hotkey", VStr "H2")] ].

(** A vote for A, but no record of miner A. *)
Definition runs_untraceable : list (Run pyval) :=
  [ mk_run [("winning_hotkey", VStr "A"); ("score", VFloat f_0_87)] ].

(** Two records of miner A, with different dataset sizes. *)
Definition first_of_A : Run pyval :=
  mk_run [("miner_hotkey", VStr "A"); ("tested_entries", VInt 100);
          ("score", VFloat f_0_87); ("winning_hotkey", VStr "A")].
Definition second_of_A : Run pyval :=
  mk_run [("miner_hotkey", VStr "A"); ("tested_entries", VInt 200);
          ("score", VFloat f_0_87)].
Definition runs_two_of_A : list (Run pyval) := [first_of_A; second_of_A].

(** The record of miner B, and the tie of one vote for A, then one for B. *)
Definition record_of_B : Run pyval :=
  mk_run [("miner_hotkey", VStr "B"); ("tested_entries", VInt 300);
          ("score", VFloat f_0_87); ("winning_hotkey", VStr "B")].
Definition runs_tie_AB : list (Run pyval) := [first_of_A; record_of_B].

(** The votes A, B, A and the tie A, B. *)
Definition runs_ABA : list (Run pyval) :=
  [ mk_run [("winning_hotkey", VStr "A")]; mk_run [("winning_hotkey", VStr "B")];
    mk_run [("winning_hotkey", VStr "A")] ].
Definition runs_AB : list (Run pyval) :=
  [ mk_run [("winning_hotkey", VStr "A")]; mk_run [("winning_hotkey", VStr "B")] ].

(** A world at 15:05 UTC on 2024-03-01 whose guild 42 has the given text
    channels, whose backend answers every query with [runs] and whose
    configuration source answers with [resp]. *)
Definition world_with (resp : response) (channels : list string)
    (runs : list (Run pyval)) : env pyval :=
  {| clock := fun n => mk_datetime 2024 3 1 15 5 (Z.of_nat n) 0;
     wandb_runs := fun _ _ _ => Return (Some runs);
     http_get := fun _ => Return resp;
     GUILD_ID := 42;
     get_guild := fun _ g => if g =? 42 then Some (mk_guild "safe-scan" channels) else None;
     channel_send := fun _ _ _ _ => Return tt |}.

Definition world : list string -> list (Run pyval) -> env pyval :=
  world_with (mk_response 200 (Return (JArray [JObject melanoma_dict]))).

(** The configuration source answers 404. *)
Definition world_404 : env pyval :=
  world_with (mk_response 404 (Return (JArray []))) ["discord-bot-test"] runs3.

(** The configuration source serves the entry of [melanoma], except at the
    second fetch of the bot (its seventh interaction), where it serves the
    edited entry: the slot 15:00 is taken out of the schedule and put back. *)
Definition world_edited : env pyval :=
  {| clock := fun n => mk_datetime 2024 3 1 15 5 (Z.of_nat n) 0;
     wandb_runs := fun _ _ _ => Return (Some runs3);
     http_get := fun n =>
       Return (mk_response 200
                 (Return (JArray [JObject (if Nat.eqb n 6 then melanoma_morning_dict
                                           else melanoma_dict)])));
     GUILD_ID := 42;
     get_guild := fun _ g =>
       if g =? 42 then Some (mk_guild "safe-scan" ["discord-bot-test"]) else None;
     channel_send := fun _ _ _ _ => Return tt |}.

(** A bot whose registry holds [l]. *)
Definition with_registry (l : list CompetitionConfig) : bot :=
  snd (set_configs l init).

Definition occurrence_15_00 : datetime := mk_datetime 2024 3 1 15 0 0 0.
Definition occurrence_09_00 : datetime := mk_datetime 2024 3 1 9 0 0 0.

(** 06:00 UTC on the first of March 2024, before the only slot of the day. *)
Definition first_of_march_0600 : datetime := mk_datetime 2024 3 1 6 0 0 0.

End Scenario.

(** ** Notions used to state the properties *)

Section Notions.
Context `{PyValue val}.

(** Number of occurrences of a vote in the vote list. *)
Fixpoint count_votes (v : val) (votes : list val) : Z :=
  match votes with
  | [] => 0
  | x :: votes' => (if decide (x = v) then 1 else 0) + count_votes v votes'
  end.

(** Position of the first occurrence of a vote (the length when absent). *)
Fixpoint index_of (v : val) (votes : list val) : nat :=
  match votes with
  | [] => 0%nat
  | x :: votes' => if decide (x = v) then 0%nat else S (index_of v votes')
  end.

(** The distinct votes, in the order in which they are first met. *)
Definition distinct (votes : list val) : list val :=
  fold_left (fun acc v => if decide (v ∈ acc) then acc else acc ++ [v])%list votes [].

(** The votes of a record sequence, in iteration order. *)
Definition votes_of_run (r : Run val) : list val :=
  omap (fun item : string * val =>
          if String.eqb (fst item) "score" then None
          else if String.eqb (fst item) "winning_hotkey" then Some (snd item)
          else None) (summary r).

Definition votes_of (runs : list (Run val)) : list val :=
  concat (List.map votes_of_run runs).

(** A record names [w] as its miner. *)
Definition names_miner (r : Run val) (w : val) : Prop :=
  ("miner_hotkey", w) ∈ summary r.

End Notions.

(** *** Reading rendered text back *)

Definition is_digit (c : ascii) : bool :=
  match digit_value c with Some _ => true | None => false end.

Fixpoint all_digits (s : string) : bool :=
  match s with
  | EmptyString => true
  | String c s' => is_digit c && all_digits s'
  end.

(** The number that a string of decimal digits denotes. *)
Fixpoint read_digits_from (acc : Z) (s : string) : option Z :=
  match s with
  | EmptyString => Some acc
  | String c s' =>
      match digit_value c with
      | Some d => read_digits_from (10 * acc + d) s'
      | None => None
      end
  end.

Definition read_digits (s : string) : option Z :=
  match s with
  | EmptyString => None
  | _ => read_digits_from 0 s
  end.

(** Text of the shape [-]ddd.dd: an optional sign, at least one digit, a
    point and exactly two digits. *)
Definition two_decimals (s : string) : bool :=
  let body := match s with
              | String "-" rest => rest
              | _ => s
              end in
  match split_at "." body with
  | Some (whole, frac) =>
      negb (String.eqb whole "") && all_digits whole &&
      (String.length frac =? 2)%nat && all_digits frac
  | None => false
  end.

(** Reads text of the shape YYYY.MM.DD HH:MM UTC back into its five
    numbers. *)
Definition read_date (s : string) : option (Z * Z * Z * Z * Z) :=
  if negb (String.length s =? 20)%nat then None
  else
    match read_digits (substring 0 4 s), read_digits (substring 5 2 s),
          read_digits (substring 8 2 s), read_digits (substring 11 2 s),
          read_digits (substring 14 2 s) with
    | Some y, Some m, Some d, Some hh, Some mm =>
        if String.eqb (substring 4 1 s) "." && String.eqb (substring 7 1 s) "." &&
           String.eqb (substring 10 1 s) " " && String.eqb (substring 13 1 s) ":" &&
           String.eqb (substring 16 4 s) " UTC"
        then Some (y, m, d, hh, mm) else None
    | _, _, _, _, _ => None
    end.

(** The instant of a parsed slot on a calendar date. *)
Definition slot_instant (y m d : Z) (slot : Z * Z) : datetime :=
  mk_datetime y m d (fst slot) (snd slot) 0 0.

(** *** Relations between the state before and after a coroutine *)

(** Every run of the coroutine [m] takes a state to one related by [R]. *)
Definition respects (R : bot -> bot -> Prop) {A} (m : M A) : Prop :=
  forall s, R s (snd (m s)).

(** The ledger is left as it is. *)
Definition same_ledger (s s' : bot) : Prop :=
  last_competitions_announcements s' = last_competitions_announcements s.

(** The events are extended by events that all satisfy [P]. *)
Definition extends_by (P : event -> Prop) (s s' : bot) : Prop :=
  exists new, trace s' = (trace s ++ new)%list /\ Forall P new.

(** A message sent to the channel [channel_name] of the guild [guild_id];
    events other than sends are not constrained. *)
Definition sent_to (guild_id : Z) (channel_name : string) (ev : event) : Prop :=
  match ev with
  | ChannelSend g ch _ => g = guild_id /\ ch = channel_name
  | _ => True
  end.

(** The state in which [get_competition_data] reaches its ledger test,
    after its two readings of the clock. *)
Definition after_clock_reads (s : bot) : bot :=
  {| last_competitions_announcements := last_competitions_announcements s;
     competition_configs := competition_configs s;
     tick := S (S (tick s)); trace := trace s |}.

(** ** What a refresh yields *)

(** What the field constraints of [CompetitionConfig] ask of a definition. *)
Definition well_formed (c : CompetitionConfig) : Prop :=
  competition_id c ≠ "" /\ category c ≠ "" /\ evaluation_times c ≠ [] /\
  dataset_hf_repo c ≠ "" /\ dataset_hf_filename c ≠ "" /\ dataset_hf_repo_type c ≠ "".

(** The definition that an item of the document yields, if it is a dict
    that [CompetitionConfig] accepts. *)
Definition valid_entry (competition : json) : option CompetitionConfig :=
  match unpack_CompetitionConfig competition with
  | Return c => Some c
  | Raise _ => None
  end.

(** The definitions that a fetch yields when everything goes well: the
    source answers, with status 200, a body that parses to a document whose
    items are all valid entries. [None] in every other case. *)
Definition fetched_configs {val} (E : env val) (n : nat) : option (list CompetitionConfig) :=
  match http_get E n with
  | Return resp =>
      if status resp =? 200 then
        match body resp with
        | Return config_data =>
            match iterate config_data with
            | Return items => mapM valid_entry items
            | Raise _ => None
            end
        | Raise _ => None
        end
      else None
  | Raise _ => None
  end.

(** ** Shutdown *)

Section Shutdown.
Context `{PyValue val}.
Variable E : env val.

(** [close]: one more refresh cycle, then [super().close()], whose outcome
    is [super_close]. *)
Definition close (super_close : result unit) : M unit :=
  update_config_and_announce_results E;; lift super_close.

End Shutdown.

(** ** More notions used to state properties *)

Definition is_send (ev : event) : bool :=
  match ev with
  | ChannelSend _ _ _ => true
  | _ => false
  end.

Definition is_query (ev : event) : bool :=
  match ev with
  | WandbRuns _ _ => true
  | _ => false
  end.

(** The number of messages sent among some events. *)
Definition count_sends (events : list event) : nat :=
  length (List.filter is_send events).

(** The events are extended by events with at most [n] sends. *)
Definition sends_at_most (n : nat) (s s' : bot) : Prop :=
  exists new, trace s' = (trace s ++ new)%list /\ (count_sends new <= n)%nat.

(** The ledger entries outside the identifiers [ids] are left as they are,
    and no entry is removed. *)
Definition writes_only (ids : list string) (s s' : bot) : Prop :=
  forall id,
    last_competitions_announcements s' !! id = last_competitions_announcements s !! id \/
    (id ∈ ids /\ is_Some (last_competitions_announcements s' !! id)).

(** The registry attribute is left as it is. *)
Definition same_registry (s s' : bot) : Prop :=
  competition_configs s' = competition_configs s.

(** The record has the key among its summary items. *)
Definition has_key {val} (key : string) (r : Run val) : bool :=
  existsb (fun item => String.eqb (fst item) key) (summary r).

(** The vote of a record: the value under its key [winning_hotkey]. *)
Definition vote_of {val} (r : Run val) : option val :=
  snd <$> List.find (fun item => String.eqb (fst item) "winning_hotkey") (summary r).

(** The keys of the record's summary are distinct, as those of a dict are. *)
Definition distinct_keys {val} (r : Run val) : Prop :=
  NoDup (List.map fst (summary r)).

(** ** More concrete inputs *)

Module Inputs.

(** A configuration entry without schedule. *)
Definition no_schedule_dict : list (string * json) :=
  [ ("competition_id", JString "lung-1"); ("category", JString "lung");
    ("dataset_hf_repo", JString "repo"); ("dataset_hf_filename", JString "file.zip");
    ("dataset_hf_repo_type", JString "dataset") ].

(** 15:05 UTC on 2024-03-01 and 04:00 UTC on the next day. *)
Definition march_1_1505 : datetime := mk_datetime 2024 3 1 15 5 0 0.
Definition march_2_0400 : datetime := mk_datetime 2024 3 2 4 0 0 0.

(** A record with a score and no vote. *)
Definition runs_without_votes : list (Run pyval) :=
  [ mk_run [("score", VFloat Scenario.f_0_87); ("miner_hotkey", VStr "A")] ].

(** The winner's record has neither [tested_entries] nor [score]. *)
Definition bare_record_of_A : Run pyval :=
  mk_run [("miner_hotkey", VStr "A"); ("winning_hotkey", VStr "A")].

(** The three records of the scenario, one by one. *)
Definition vote_for_H1 : Run pyval :=
  mk_run [("winning_hotkey", VStr "H1"); ("score", VFloat Scenario.f_0_87)].
Definition record_of_H1 : Run pyval :=
  mk_run [("miner_hotkey", VStr "H1"); ("tested_entries", VInt 500);
          ("score", VFloat Scenario.f_0_87); ("winning_hotkey", VStr "H1")].
Definition vote_for_H2 : Run pyval :=
  mk_run [("winning_hotkey", VStr "H2")].

End Inputs.

(** ** The vote count and the selected winner *)

Section CounterFacts.
Context `{PyValue val}.
Implicit Types (v w k : val) (votes : list val) (c : list (val * Z)).

Lemma count_votes_app v votes1 votes2 :
  count_votes v (votes1 ++ votes2) = count_votes v votes1 + count_votes v votes2.
Proof. induction votes1 as [|x l IH]; simpl; [done | rewrite IH; lia]. Qed.

Lemma count_votes_nonneg v votes : 0 <= count_votes v votes.
Proof. induction votes as [|x l IH]; simpl; [done | case_decide; lia]. Qed.

Lemma count_votes_absent v votes : v ∉ votes -> count_votes v votes = 0.
Proof.
  induction votes as [|x l IH]; simpl; [done |].
  intros Hn. apply not_elem_of_cons in Hn as [Hne Hl].
  rewrite decide_False by congruence. rewrite IH; done.
Qed.

Lemma count_votes_present v votes : v ∈ votes -> 0 < count_votes v votes.
Proof.
  induction votes as [|x l IH]; simpl; [by intros ?%elem_of_nil |].
  intros Hin. pose proof (count_votes_nonneg v l).
  case_decide; [lia |]. apply elem_of_cons in Hin as [-> | Hin]; [done |].
  specialize (IH Hin). lia.
Qed.

Lemma index_of_app_present v votes1 votes2 :
  v ∈ votes1 -> index_of v (votes1 ++ votes2) = index_of v votes1.
Proof.
  induction votes1 as [|x l IH]; simpl; [by intros ?%elem_of_nil |].
  intros Hin. case_decide; [done |].
  apply elem_of_cons in Hin as [-> | Hin]; [done | by rewrite IH].
Qed.

Lemma index_of_app_absent v votes1 votes2 :
  v ∉ votes1 ->
  index_of v (votes1 ++ votes2) = (length votes1 + index_of v votes2)%nat.
Proof.
  induction votes1 as [|x l IH]; simpl; [done |].
  intros Hn. apply not_elem_of_cons in Hn as [Hne Hl].
  rewrite decide_False by congruence. by rewrite IH.
Qed.

Lemma index_of_lt_length v votes : v ∈ votes -> (index_of v votes < length votes)%nat.
Proof.
  induction votes as [|x l IH]; simpl; [by intros ?%elem_of_nil |].
  intros Hin. case_decide; [lia |].
  apply elem_of_cons in Hin as [-> | Hin]; [done |]. specialize (IH Hin). lia.
Qed.

Lemma distinct_snoc votes v :
  distinct (votes ++ [v]) =
  if decide (v ∈ distinct votes) then distinct votes else (distinct votes ++ [v])%list.
Proof. unfold distinct. by rewrite fold_left_app. Qed.

Lemma distinct_elem_of votes v : v ∈ distinct votes <-> v ∈ votes.
Proof.
  induction votes as [|x l IH] using rev_ind; [done |].
  rewrite distinct_snoc. case_decide as Hx.
  - rewrite elem_of_app, list_elem_of_singleton, IH.
    split; [tauto |]. intros [Hl | Hvx]; [done |]. subst. by apply IH.
  - by rewrite !elem_of_app, IH.
Qed.

Lemma distinct_NoDup votes : NoDup (distinct votes).
Proof.
  induction votes as [|x l IH] using rev_ind; [constructor |].
  rewrite distinct_snoc. case_decide as Hx; [done |].
  apply NoDup_app. split_and!; [done | | apply NoDup_singleton].
  intros y Hy ->%list_elem_of_singleton. done.
Qed.

(** Keys of the distinct list are ordered by first occurrence. *)
Lemma distinct_order votes pre w post v :
  distinct votes = (pre ++ w :: post)%list -> v ∈ post ->
  (index_of w votes < index_of v votes)%nat.
Proof.
  revert pre w post v.
  induction votes as [|x l IH] using rev_ind; intros pre w post v Hd Hv.
  { by destruct pre. }
  rewrite distinct_snoc in Hd. case_decide as Hx.
  - assert (w ∈ l) as Hw.
    { apply distinct_elem_of. rewrite Hd, elem_of_app, elem_of_cons. auto. }
    assert (v ∈ l) as Hv'.
    { apply distinct_elem_of. rewrite Hd, elem_of_app, elem_of_cons. auto. }
    rewrite !index_of_app_present by done. by eapply IH.
  - destruct (decide (post = [])) as [-> | Hpost]; [by apply elem_of_nil in Hv |].
    destruct (exists_last Hpost) as (post' & y & ->).
    rewrite app_comm_cons, app_assoc in Hd.
    apply app_inj_tail in Hd as [Hd <-].
    assert (w ∈ l) as Hw.
    { apply distinct_elem_of. rewrite Hd, elem_of_app, elem_of_cons. auto. }
    rewrite (index_of_app_present w) by done.
    apply elem_of_app in Hv as [Hv | ->%list_elem_of_singleton].
    + assert (v ∈ l) as Hv'.
      { apply distinct_elem_of. rewrite Hd, elem_of_app, elem_of_cons. auto. }
      rewrite index_of_app_present by done. by eapply IH.
    + assert (x ∉ l) as Hxl by (by rewrite <- distinct_elem_of).
      rewrite index_of_app_absent by done.
      pose proof (index_of_lt_length w l Hw). lia.
Qed.

Lemma Counter_snoc votes v : Counter (votes ++ [v]) = counter_add (Counter votes) v.
Proof. unfold Counter. by rewrite fold_left_app. Qed.

Lemma counter_add_map (g g' : val -> Z) (D : list val) v :
  NoDup D ->
  (forall k, k ≠ v -> g' k = g k) ->
  (v ∈ D -> g' v = g v + 1) ->
  (v ∉ D -> g' v = 1) ->
  counter_add (List.map (fun k => (k, g k)) D) v =
  List.map (fun k => (k, g' k))
    (if decide (v ∈ D) then D else (D ++ [v])%list).
Proof.
  intros Hnd Hne Hin Hout. induction Hnd as [|k D Hk Hnd IH]; simpl.
  { rewrite Hout; [done | apply not_elem_of_nil]. }
  destruct (decide (k = v)) as [-> | Hkv].
  - rewrite decide_True by left. simpl. rewrite Hin by left. f_equal.
    apply map_ext_in. intros a Ha%list_elem_of_In. rewrite Hne; [done |].
    intros ->. done.
  - rewrite IH.
    + destruct (decide (v ∈ D)) as [HvD | HvD].
      * rewrite decide_True by (by right). simpl. by rewrite (Hne k).
      * rewrite decide_False by (intros [?|?]%elem_of_cons; congruence).
        simpl. by rewrite (Hne k).
    + intros HvD. apply Hin. by right.
    + intros HvD. apply Hout. intros [?|?]%elem_of_cons; congruence.
Qed.

(** The counter lists each distinct vote once, in first-met order, with
    its number of occurrences. *)
Lemma Counter_spec votes :
  Counter votes = List.map (fun k => (k, count_votes k votes)) (distinct votes).
Proof.
  induction votes as [|x l IH] using rev_ind; [done |].
  rewrite Counter_snoc, IH, distinct_snoc.
  apply counter_add_map.
  - apply distinct_NoDup.
  - intros k Hk. rewrite count_votes_app. simpl.
    rewrite decide_False by congruence. lia.
  - intros _. rewrite count_votes_app. simpl. rewrite decide_True by done. lia.
  - intros Hx. rewrite count_votes_app. simpl. rewrite decide_True by done.
    rewrite count_votes_absent; [lia |]. by rewrite <- distinct_elem_of.
Qed.

(** [max] by count returns the first item of maximal count. *)
Lemma most_common_first_max (x : val * Z) c :
  exists pre post,
    x :: c =
      (pre ++ fold_left (fun best y => if snd best <? snd y then y else best) c x
           :: post)%list /\
    Forall (fun y => snd y <
              snd (fold_left (fun best y => if snd best <? snd y then y else best) c x))
           pre /\
    Forall (fun y => snd y <=
              snd (fold_left (fun best y => if snd best <? snd y then y else best) c x))
           post.
Proof.
  revert x. induction c as [|y c IH]; intros x; cbn [fold_left].
  { exists [], []. by repeat split. }
  destruct (Z.ltb_spec (snd x) (snd y)) as [Hlt | Hge].
  - destruct (IH y) as (pre & post & Heq & Hpre & Hpost).
    set (r := fold_left _ c y) in *.
    exists (x :: pre), post. rewrite Heq. split; [done |]. split; [| done].
    constructor; [| done].
    destruct pre as [|p pre].
    + injection Heq as Hy _. rewrite <- Hy. done.
    + injection Heq as Hy _. subst p. apply Forall_cons in Hpre as [Hy _]. lia.
  - destruct (IH x) as (pre & post & Heq & Hpre & Hpost).
    set (r := fold_left _ c x) in *.
    destruct pre as [|p pre].
    + injection Heq as Hx Hc. exists [], (y :: post).
      split; [by rewrite <- Hx, Hc |]. split; [done |].
      constructor; [rewrite <- Hx; lia | done].
    + injection Heq as Hx Hc. subst p. apply Forall_cons in Hpre as [Hp Hpre].
      exists (x :: y :: pre), post. split; [by rewrite Hc |]. split; [| done].
      constructor; [done |]. constructor; [lia | done].
Qed.

End CounterFacts.

(** ** The scans over the records *)

Section ScanFacts.
Context `{PyValue val}.
Implicit Types (w : val) (r : Run val) (runs : list (Run val)).

Lemma scan_item_votes (items : list (string * val)) (acc : Z * list val) :
  snd (fold_left scan_item items acc) = (snd acc ++ votes_of_run (mk_run items))%list.
Proof.
  revert acc. induction items as [|[key value] items IH]; intros [n vs].
  { simpl. by rewrite app_nil_r. }
  cbn [fold_left]. rewrite IH. unfold votes_of_run. cbn [summary omap list_omap fst snd].
  unfold scan_item.
  destruct (String.eqb key "score"); [done |].
  destruct (String.eqb key "winning_hotkey"); [| done].
  cbn [snd]. by rewrite <- app_assoc.
Qed.

Lemma scan_runs_votes_from runs (acc : Z * list val) :
  snd (fold_left (fun acc run => fold_left scan_item (summary run) acc) runs acc) =
  (snd acc ++ votes_of runs)%list.
Proof.
  revert acc. induction runs as [|[items] runs IH]; intros acc.
  { simpl. by rewrite app_nil_r. }
  cbn [fold_left]. rewrite IH, scan_item_votes. unfold votes_of.
  cbn [List.map concat summary]. by rewrite <- app_assoc.
Qed.

(** [validators_choices] is the list of votes in iteration order. *)
Lemma scan_runs_votes runs : snd (scan_runs runs) = votes_of runs.
Proof. unfold scan_runs. by rewrite scan_runs_votes_from. Qed.

Lemma has_miner_hotkey_spec (items : list (string * val)) w :
  has_miner_hotkey items w = true <-> ("miner_hotkey", w) ∈ items.
Proof.
  induction items as [|[key value] items IH]; simpl.
  { split; [done | by intros ?%elem_of_nil]. }
  rewrite elem_of_cons.
  destruct (String.eqb_spec key "miner_hotkey") as [-> | Hk]; simpl.
  - case_bool_decide as Hv.
    + subst. split; [by left | done].
    + rewrite IH. split; [by right | intros [[=] | ?]; congruence].
  - rewrite IH. split; [by right | intros [[=] | ?]; congruence].
Qed.

Lemma find_winner_run_from runs w (start : local (option (Run val))) :
  (forall r, r ∈ runs -> ¬ names_miner r w) ->
  fold_left (fun winner_run run =>
               if has_miner_hotkey (summary run) w then Bound (Some run) else winner_run)
            runs start = start.
Proof.
  revert start. induction runs as [|r runs IH]; intros start Hno; [done |].
  cbn [fold_left]. destruct (has_miner_hotkey (summary r) w) eqn:Hr.
  - apply has_miner_hotkey_spec in Hr. destruct (Hno r); [left | done].
  - apply IH. intros r' Hr'. apply Hno. by right.
Qed.

(** Without a record that names the winner, the local stays unbound. *)
Lemma find_winner_run_unbound runs w :
  (forall r, r ∈ runs -> ¬ names_miner r w) -> find_winner_run runs w = Unbound.
Proof. apply find_winner_run_from. Qed.

(** The local ends up bound to the last record that names the winner. *)
Lemma find_winner_run_last pre r post w :
  names_miner r w -> (forall r', r' ∈ post -> ¬ names_miner r' w) ->
  find_winner_run (pre ++ r :: post) w = Bound (Some r).
Proof.
  intros Hr Hpost. unfold find_winner_run. rewrite fold_left_app. cbn [fold_left].
  apply has_miner_hotkey_spec in Hr. rewrite Hr. by apply find_winner_run_from.
Qed.

Lemma last_naming_record runs w :
  (exists r, r ∈ runs /\ names_miner r w) ->
  exists pre r post,
    runs = (pre ++ r :: post)%list /\ names_miner r w /\
    (forall r', r' ∈ post -> ¬ names_miner r' w).
Proof.
  induction runs as [|r0 runs IH]; intros (r & Hin & Hr).
  { by apply elem_of_nil in Hin. }
  destruct (decide (Exists (fun r' => has_miner_hotkey (summary r') w = true) runs))
    as [Hex | Hno].
  - apply Exists_exists in Hex as (r' & Hin' & Hr').
    destruct IH as (pre & r1 & post & -> & Hr1 & Hpost).
    { exists r'. split; [done | by apply has_miner_hotkey_spec]. }
    by exists (r0 :: pre), r1, post.
  - exists [], r0, runs. split; [done |].
    assert (forall r', r' ∈ runs -> ¬ names_miner r' w) as Hruns.
    { intros r' Hin' Hr'. apply Hno, Exists_exists. exists r'.
      split; [done | by apply has_miner_hotkey_spec]. }
    split; [| done].
    apply elem_of_cons in Hin as [-> | Hin]; [done | by destruct (Hruns r)].
Qed.

End ScanFacts.

(** ** Majority vote *)

Section MajorityVote.
Context `{PyValue val}.

(** With at least one vote, [most_common(1)] holds one item: a value of
    highest occurrence count among the votes and, among the values that
    share the highest count, the one met first. *)
Lemma most_common_is_first_mode (runs : list (Run val)) :
  votes_of runs ≠ [] ->
  exists w,
    most_common_1 (Counter (snd (scan_runs runs))) =
      [(w, count_votes w (votes_of runs))] /\
    w ∈ votes_of runs /\
    (forall v, count_votes v (votes_of runs) <= count_votes w (votes_of runs)) /\
    (forall v, v ≠ w ->
       count_votes v (votes_of runs) = count_votes w (votes_of runs) ->
       (index_of w (votes_of runs) < index_of v (votes_of runs))%nat).
Proof.
  intros Hvotes. rewrite scan_runs_votes, Counter_spec.
  set (votes := votes_of runs) in *.
  destruct (distinct votes) as [|k D] eqn:HD.
  { destruct votes as [|v votes']; [done |].
    assert (v ∈ distinct (v :: votes')) as Hv by (apply distinct_elem_of; left).
    rewrite HD in Hv. by apply elem_of_nil in Hv. }
  cbn [List.map most_common_1].
  destruct (most_common_first_max (k, count_votes k votes)
              (List.map (fun k => (k, count_votes k votes)) D))
    as (pre & post & Heq & Hpre & Hpost).
  set (r := fold_left _ _ _) in *.
  change ((k, count_votes k votes) :: List.map (fun k => (k, count_votes k votes)) D)
    with (List.map (fun k => (k, count_votes k votes)) (k :: D)) in Heq.
  rewrite <- HD in Heq.
  apply map_eq_app in Heq as (Dpre & Drest & HDsplit & Hmpre & Hmrest).
  destruct Drest as [|w Dpost]; [done |].
  injection Hmrest as Hr Hmpost.
  assert (w ∈ votes) as Hw.
  { apply distinct_elem_of. rewrite HDsplit, elem_of_app, elem_of_cons. auto. }
  exists w. rewrite <- Hr. split; [done |]. split; [done |].
  assert (forall v, v ∈ Dpre -> count_votes v votes < count_votes w votes) as Hbefore.
  { intros v Hv. rewrite <- Hmpre in Hpre. rewrite Forall_forall in Hpre.
    specialize (Hpre (v, count_votes v votes)). rewrite <- Hr in Hpre. apply Hpre.
    apply list_elem_of_In, (in_map (fun k => (k, count_votes k votes))), list_elem_of_In.
    done. }
  assert (forall v, v ∈ Dpost -> count_votes v votes <= count_votes w votes) as Hafter.
  { intros v Hv. rewrite <- Hmpost in Hpost. rewrite Forall_forall in Hpost.
    specialize (Hpost (v, count_votes v votes)). rewrite <- Hr in Hpost. apply Hpost.
    apply list_elem_of_In, (in_map (fun k => (k, count_votes k votes))), list_elem_of_In.
    done. }
  split.
  - intros v. destruct (decide (v ∈ votes)) as [Hv | Hv].
    + apply distinct_elem_of in Hv. rewrite HDsplit in Hv.
      apply elem_of_app in Hv as [Hv | Hv]; [specialize (Hbefore v Hv); lia |].
      apply elem_of_cons in Hv as [-> | Hv]; [lia | by apply Hafter].
    + rewrite count_votes_absent by done. apply count_votes_nonneg.
  - intros v Hne Hcount.
    assert (v ∈ votes) as Hv.
    { destruct (decide (v ∈ votes)) as [? | Hv]; [done |].
      pose proof (count_votes_present w votes Hw).
      rewrite count_votes_absent in Hcount by done. lia. }
    apply distinct_elem_of in Hv. rewrite HDsplit in Hv.
    apply elem_of_app in Hv as [Hv | Hv]; [specialize (Hbefore v Hv); lia |].
    apply elem_of_cons in Hv as [-> | Hv]; [done |].
    by eapply distinct_order.
Qed.

(** The aggregation from the selected winner on. *)
Lemma competition_data_with_selected competition latest (runs : list (Run val)) w n s :
  most_common_1 (Counter (snd (scan_runs runs))) = [(w, n)] ->
  competition_data_from_runs competition latest runs s =
    (do winner_run <- lift (read_local "winner_run" (find_winner_run runs w));
     match winner_run with
     | None =>
         emit (Log ERROR ("No winner run found for competition " +:+
                          competition_id competition));;
         ret None
     | Some winner_run =>
         let '(dataset_size, score) := extract_fields winner_run in
         set_ledger (competition_id competition) latest;;
         do dataset_size <- lift (read_local "dataset_size" dataset_size);
         do score <- lift (read_local "score" score);
         do announcement_data <-
           lift (build_announcement (competition_id competition) latest dataset_size
                   (fst (scan_runs runs)) w score);
         ret (Some announcement_data)
     end) s.
Proof.
  intros Hw. unfold competition_data_from_runs.
  destruct (scan_runs runs) as [tested votes]. cbn [fst snd] in *.
  destruct (Counter votes) as [|item c]; [done |].
  rewrite Hw. unfold bind at 1. unfold lift at 1. done.
Qed.

(** The outcome carries the selected winner. *)
Lemma outcome_names_selected competition latest (runs : list (Run val)) w n s data s1 :
  most_common_1 (Counter (snd (scan_runs runs))) = [(w, n)] ->
  competition_data_from_runs competition latest runs s = (Return (Some data), s1) ->
  validate_str w = Some (ad_winning_hotkey data).
Proof.
  intros Hw. rewrite (competition_data_with_selected _ _ _ w n) by done.
  unfold bind, lift, ret, emit, set_ledger.
  destruct (find_winner_run runs w) as [| [winner |]]; cbn [read_local]; try done.
  destruct (extract_fields winner) as [[| ds] [| sc]]; cbn [read_local]; try done.
  unfold build_announcement.
  destruct (validate_int ds), (validate_str w), (validate_float sc); cbn; try done.
  by intros [= <- _].
Qed.

(** C5. For every record sequence with at least one [winning_hotkey] vote,
    the aggregator selects a value [w] of highest occurrence count among the
    votes and, among the values that share the highest count, the one met
    first in iteration order over the records: from the selection on, the
    aggregation runs with [winning_hotkey] bound to [w] (the record of [w]
    is looked up, and its fields and [w] make the outcome), so every outcome
    that it returns names [w] as the winning hotkey. *)
Theorem winner_is_first_mode (runs : list (Run val)) :
  votes_of runs ≠ [] ->
  exists w,
    w ∈ votes_of runs /\
    (forall v, count_votes v (votes_of runs) <= count_votes w (votes_of runs)) /\
    (forall v, v ≠ w ->
       count_votes v (votes_of runs) = count_votes w (votes_of runs) ->
       (index_of w (votes_of runs) < index_of v (votes_of runs))%nat) /\
    forall competition latest s,
      competition_data_from_runs competition latest runs s =
        (do winner_run <- lift (read_local "winner_run" (find_winner_run runs w));
         match winner_run with
         | None =>
             emit (Log ERROR ("No winner run found for competition " +:+
                              competition_id competition));;
             ret None
         | Some winner_run =>
             let '(dataset_size, score) := extract_fields winner_run in
             set_ledger (competition_id competition) latest;;
             do dataset_size <- lift (read_local "dataset_size" dataset_size);
             do score <- lift (read_local "score" score);
             do announcement_data <-
               lift (build_announcement (competition_id competition) latest dataset_size
                       (fst (scan_runs runs)) w score);
             ret (Some announcement_data)
         end) s /\
      forall data s1,
        competition_data_from_runs competition latest runs s = (Return (Some data), s1) ->
        validate_str w = Some (ad_winning_hotkey data).
Proof.
  intros Hvotes.
  destruct (most_common_is_first_mode runs Hvotes) as (w & Hw & Hin & Hmax & Hfirst).
  exists w. split_and!; [done .. |]. intros competition latest s. split.
  - by eapply competition_data_with_selected.
  - intros data s1. by eapply outcome_names_selected.
Qed.

End MajorityVote.

(** ** Relations that every step of a coroutine respects *)

Section Transitions.
Variable R : bot -> bot -> Prop.
Hypothesis R_refl : forall s, R s s.
Hypothesis R_trans : forall s1 s2 s3, R s1 s2 -> R s2 s3 -> R s1 s3.

Lemma respects_ret {A} (a : A) : respects R (ret a).
Proof. intros s. apply R_refl. Qed.

Lemma respects_raise {A} (e : exn) : respects R (@raise A e).
Proof. intros s. apply R_refl. Qed.

Lemma respects_lift {A} (r : result A) : respects R (lift r).
Proof. intros s. apply R_refl. Qed.

Lemma respects_get_ledger : respects R get_ledger.
Proof. intros s. apply R_refl. Qed.

Lemma respects_get_configs : respects R get_configs.
Proof. intros s. unfold get_configs. destruct (competition_configs s); apply R_refl. Qed.

Lemma respects_bind {A B} (m : M A) (k : A -> M B) :
  respects R m -> (forall a, respects R (k a)) -> respects R (bind m k).
Proof.
  intros Hm Hk s. unfold bind. specialize (Hm s).
  destruct (m s) as [[a | e] s']; [| done].
  eapply R_trans; [exact Hm | apply Hk].
Qed.

Lemma respects_try_except {A} (m : M A) (h : exn -> M A) :
  respects R m -> (forall e, respects R (h e)) -> respects R (try_except m h).
Proof.
  intros Hm Hh s. unfold try_except. specialize (Hm s).
  destruct (m s) as [[a | e] s']; [done |].
  eapply R_trans; [exact Hm | apply Hh].
Qed.

Lemma respects_for_each {A} (l : list A) (body : A -> M unit) :
  (forall x, respects R (body x)) -> respects R (for_each l body).
Proof.
  intros Hbody. induction l as [|x l IH]; [apply respects_ret |].
  apply respects_bind; [apply Hbody | intros _; apply IH].
Qed.

End Transitions.

Lemma same_ledger_refl s : same_ledger s s.
Proof. done. Qed.

Lemma same_ledger_trans s1 s2 s3 :
  same_ledger s1 s2 -> same_ledger s2 s3 -> same_ledger s1 s3.
Proof. unfold same_ledger. congruence. Qed.

Lemma extends_by_refl P s : extends_by P s s.
Proof. exists []. by rewrite app_nil_r. Qed.

Lemma extends_by_trans P s1 s2 s3 :
  extends_by P s1 s2 -> extends_by P s2 s3 -> extends_by P s1 s3.
Proof.
  intros (n1 & H1 & F1) (n2 & H2 & F2). exists (n1 ++ n2)%list.
  split; [by rewrite H2, H1, app_assoc | by apply Forall_app].
Qed.

Lemma extends_by_emit P ev : P ev -> respects (extends_by P) (emit ev).
Proof. intros Hev s. exists [ev]. split; [done | by constructor]. Qed.

Lemma extends_by_same_trace P s s' : trace s' = trace s -> extends_by P s s'.
Proof. intros Heq. exists []. by rewrite app_nil_r. Qed.

Lemma extends_by_interact P : respects (extends_by P) interact.
Proof. intros s. by apply extends_by_same_trace. Qed.

Lemma extends_by_set_ledger P id t : respects (extends_by P) (set_ledger id t).
Proof. intros s. by apply extends_by_same_trace. Qed.

Lemma extends_by_set_configs P l : respects (extends_by P) (set_configs l).
Proof. intros s. by apply extends_by_same_trace. Qed.

Lemma same_ledger_emit ev : respects same_ledger (emit ev).
Proof. by intros s. Qed.

Lemma same_ledger_interact : respects same_ledger interact.
Proof. by intros s. Qed.

Lemma same_ledger_set_configs l : respects same_ledger (set_configs l).
Proof. by intros s. Qed.

Create HintDb steps discriminated.
#[export] Hint Resolve respects_ret respects_raise respects_lift respects_get_ledger
  respects_get_configs same_ledger_refl same_ledger_trans extends_by_refl
  extends_by_trans extends_by_interact extends_by_set_ledger extends_by_set_configs
  same_ledger_emit same_ledger_interact same_ledger_set_configs : steps.

Ltac step :=
  lazymatch goal with
  | |- respects _ (bind _ _) => apply respects_bind; [eauto with steps .. | | intros ?]
  | |- respects _ (try_except _ _) =>
      apply respects_try_except; [eauto with steps .. | | intros ?]
  | |- respects _ (for_each _ _) =>
      apply respects_for_each; [eauto with steps .. | intros ?]
  | |- respects _ (emit _) => first [apply same_ledger_emit | by apply extends_by_emit]
  | |- respects _ (if ?b then _ else _) => destruct b
  | |- respects _ (match ?x with _ => _ end) => destruct x
  | |- respects _ _ => solve [eauto with steps]
  end.

Section Delivery.
Context `{PyValue val}.
Variable E : env val.

Lemma send_message_same_ledger channel_name message :
  respects same_ledger (send_message_to_channel E channel_name message).
Proof.
  unfold send_message_to_channel, _get_guild_or_raise. repeat step.
Qed.

Lemma get_competition_data_events P competition :
  (forall ev, (forall g ch msg, ev ≠ ChannelSend g ch msg) -> P ev) ->
  respects (extends_by P) (get_competition_data E competition).
Proof.
  intros HP.
  assert (forall lvl msg, P (Log lvl msg)) as Hlog by (intros; by apply HP).
  assert (forall path f, P (WandbRuns path f)) as Hq by (intros; by apply HP).
  unfold get_competition_data, competition_data_from_runs,
    get_latest_executed_competition, datetime_now.
  repeat step.
Qed.

End Delivery.

(** ** Ledger and delivery *)

Section Ledger.
Context `{PyValue val}.
Variable E : env val.

Lemma competition_data_from_runs_ledger competition latest (runs : list (Run val)) s r s1 :
  competition_data_from_runs competition latest runs s = (r, s1) ->
  match r with
  | Return (Some data) =>
      ad_competition_date data = latest /\
      last_competitions_announcements s1 =
        <[competition_id competition := latest]> (last_competitions_announcements s)
  | Return None => last_competitions_announcements s1 = last_competitions_announcements s
  | Raise e =>
      e = UnboundLocalError "winner_run" ->
      last_competitions_announcements s1 = last_competitions_announcements s
  end.
Proof.
  unfold competition_data_from_runs.
  destruct (scan_runs runs) as [tested votes].
  destruct (Counter votes) as [|item c]; [by intros [= <- <-] |].
  unfold bind, lift, ret, set_ledger.
  destruct (rbind _ _) as [w | e]; [| by intros [= <- <-]].
  destruct (find_winner_run runs w) as [| [winner |]]; simpl; try by intros [= <- <-].
  destruct (extract_fields winner) as [[| ds] [| sc]]; simpl;
    try (intros [= <- <-]; intros [=]).
  unfold build_announcement.
  destruct (validate_int ds), (validate_str w), (validate_float sc); simpl;
    intros [= <- <-]; try done.
Qed.

Lemma get_competition_data_ledger competition s r s1 :
  get_competition_data E competition s = (r, s1) ->
  match r with
  | Return (Some data) =>
      last_competitions_announcements s1 =
        <[competition_id competition := ad_competition_date data]>
          (last_competitions_announcements s)
  | Return None => last_competitions_announcements s1 = last_competitions_announcements s
  | Raise e =>
      e = UnboundLocalError "winner_run" ->
      last_competitions_announcements s1 = last_competitions_announcements s
  end.
Proof.
  unfold get_competition_data, get_latest_executed_competition, datetime_now.
  unfold bind, lift, ret, interact, get_ledger, emit. simpl.
  destruct (latest_executed_competition _ _) as [latest | e]; [| by intros [= <- <-]].
  destruct (minus_15_minutes _) as [threshold | e]; [| by intros [= <- <-]].
  case_bool_decide; [by intros [= <- <-] |].
  destruct (wandb_runs E _ _ _) as [[runs |] | e]; try by intros [= <- <-].
  intros Hruns. apply competition_data_from_runs_ledger in Hruns.
  destruct r as [[data |] | e]; simpl in *; [| done | done].
  destruct Hruns as [-> Hruns]. done.
Qed.

(** An outcome carries the occurrence that the resolver returned. *)
Lemma get_competition_data_outcome_date competition s data s1 :
  get_competition_data E competition s = (Return (Some data), s1) ->
  latest_executed_competition (clock E (tick s)) (evaluation_times competition) =
    Return (ad_competition_date data).
Proof.
  unfold get_competition_data, get_latest_executed_competition, datetime_now.
  unfold bind, lift, ret, interact, get_ledger, emit. simpl.
  destruct (latest_executed_competition _ _) as [latest | e]; [| by intros [=]].
  destruct (minus_15_minutes _) as [threshold | e]; [| by intros [=]].
  case_bool_decide; [by intros [=] |].
  destruct (wandb_runs E _ _ _) as [[runs |] | e]; try by intros [=].
  intros Hruns. apply competition_data_from_runs_ledger in Hruns as [-> _]. done.
Qed.

Lemma announce_events competition :
  respects (extends_by (sent_to (GUILD_ID E) "discord-bot-test"))
    (announce_competition_results E competition).
Proof.
  unfold announce_competition_results.
  apply respects_bind; [eauto with steps .. | | intros [data |]].
  - apply get_competition_data_events. intros [] Hev; try done.
    by destruct (Hev guild_id channel_name message).
  - unfold send_message_to_channel, _get_guild_or_raise. repeat step.
  - eauto with steps.
Qed.

(** C10. Every message that the announcement of a competition sends goes to
    the channel named "discord-bot-test" of the configured guild, whatever
    the competition's definition. *)
Theorem announcements_go_to_fixed_channel competition s :
  exists new,
    trace (snd (announce_competition_results E competition s)) = (trace s ++ new)%list /\
    Forall (sent_to (GUILD_ID E) "discord-bot-test") new.
Proof. apply announce_events. Qed.

(** The same holds of every message of a whole refresh cycle. *)
Lemma sweep_goes_to_fixed_channel s :
  exists new,
    trace (snd (update_config_and_announce_results E s)) = (trace s ++ new)%list /\
    Forall (sent_to (GUILD_ID E) "discord-bot-test") new.
Proof.
  revert s. change (respects (extends_by (sent_to (GUILD_ID E) "discord-bot-test"))
                      (update_config_and_announce_results E)).
  assert (forall l acc, respects (extends_by (sent_to (GUILD_ID E) "discord-bot-test"))
            (collect_competition_configs l acc)) as Hconfigs.
  { induction l as [|c l IH]; intros acc; simpl; [eauto with steps |].
    unfold lift. repeat first [apply IH | step]. }
  unfold update_config_and_announce_results, update_config, announce_results,
    load_config_from_remote_repo, get_competition_configs.
  repeat first [apply Hconfigs | apply announce_events | step].
Qed.

End Ledger.

(** ** Deduplication by the ledger *)

Section Dedup.
Context `{PyValue val}.
Variable E : env val.

Lemma get_competition_data_already_announced competition s occ thr :
  latest_executed_competition (clock E (tick s)) (evaluation_times competition) = Return occ ->
  minus_15_minutes (clock E (S (tick s))) = Return thr ->
  last_competitions_announcements s !! competition_id competition = Some occ ->
  get_competition_data E competition s =
    (emit (Log INFO ("Competition " +:+ competition_id competition +:+
                     " already announced"));; ret None) (after_clock_reads s).
Proof.
  intros Hocc Hthr Hledger.
  unfold get_competition_data, get_latest_executed_competition, datetime_now.
  unfold bind at 1 2 3 4 5 6 7. unfold interact, lift, ret, get_ledger. simpl.
  rewrite Hocc, Hthr. simpl. rewrite Hledger, bool_decide_true by done. done.
Qed.

Lemma get_competition_data_new competition s occ thr :
  latest_executed_competition (clock E (tick s)) (evaluation_times competition) = Return occ ->
  minus_15_minutes (clock E (S (tick s))) = Return thr ->
  last_competitions_announcements s !! competition_id competition ≠ Some occ ->
  get_competition_data E competition s =
    (do n <- interact;
     emit (WandbRuns ("safe-scan-ai" +:+ "/" +:+ competition_id competition)
             (mk_filters occ thr));;
     do runs <- lift (wandb_runs E n ("safe-scan-ai" +:+ "/" +:+ competition_id competition)
                        (mk_filters occ thr));
     match runs with
     | None =>
         emit (Log INFO ("No runs found for competition " +:+ competition_id competition));;
         ret None
     | Some runs => competition_data_from_runs competition occ runs
     end) (after_clock_reads s).
Proof.
  intros Hocc Hthr Hledger.
  unfold get_competition_data, get_latest_executed_competition, datetime_now.
  unfold bind at 1 2 3 4 5 6 7. unfold interact at 1 2, lift at 1 2, ret, get_ledger. simpl.
  rewrite Hocc, Hthr. simpl. rewrite bool_decide_false by congruence. done.
Qed.

(** A sweep that resolves the stored occurrence logs that the competition
    is already announced and returns, with no query and no message. *)
Lemma announce_already_announced competition s occ thr :
  latest_executed_competition (clock E (tick s)) (evaluation_times competition) = Return occ ->
  minus_15_minutes (clock E (S (tick s))) = Return thr ->
  last_competitions_announcements s !! competition_id competition = Some occ ->
  announce_competition_results E competition s =
    (Return tt,
     snd (emit (Log INFO ("Competition " +:+ competition_id competition +:+
                          " already announced")) (after_clock_reads s))).
Proof.
  intros Hocc Hthr Hledger. unfold announce_competition_results. unfold bind at 1.
  by rewrite (get_competition_data_already_announced _ _ occ thr).
Qed.

(** A sweep that resolves another occurrence than the stored one, or finds
    no entry, goes on to query the tracking backend for it. *)
Lemma announce_treats_as_new competition s occ thr :
  latest_executed_competition (clock E (tick s)) (evaluation_times competition) = Return occ ->
  minus_15_minutes (clock E (S (tick s))) = Return thr ->
  last_competitions_announcements s !! competition_id competition ≠ Some occ ->
  exists rest,
    trace (snd (announce_competition_results E competition s)) =
    (trace s ++ WandbRuns ("safe-scan-ai/" +:+ competition_id competition)
                  (mk_filters occ thr) :: rest)%list.
Proof.
  intros Hocc Hthr Hledger. unfold announce_competition_results. unfold bind at 1.
  rewrite (get_competition_data_new _ _ occ thr) by done.
  unfold bind at 1 2. unfold interact, emit at 1. cbn [fst snd tick trace].
  match goal with
  | |- context [bind ?m ?k ?st] =>
      assert (respects (extends_by (fun _ => True)) (bind m k)) as Hrest
  end.
  { unfold competition_data_from_runs. repeat step. }
  match goal with
  | |- context [bind ?m ?k ?st] =>
      specialize (Hrest st); destruct (bind m k st) as [[[data |] | e] s1]
  end; destruct Hrest as (new & Hnew & _); simpl in Hnew.
  - assert (respects (extends_by (fun _ => True))
              (send_message_to_channel E "discord-bot-test"
                 (create_discord_message data))) as Hsend.
    { unfold send_message_to_channel, _get_guild_or_raise. repeat step. }
    destruct (Hsend s1) as (new' & Hnew' & _).
    exists (new ++ new')%list. rewrite Hnew', Hnew.
    by rewrite <- !app_assoc.
  - exists new. simpl. rewrite Hnew. by rewrite <- app_assoc.
  - exists new. simpl. rewrite Hnew. by rewrite <- app_assoc.
Qed.

End Dedup.

Section StoredOccurrence.
Context `{PyValue val}.
Variable E : env val.

(** C2, as the code has it. The ledger holds one entry for an identifier,
    the occurrence recorded last. Let a sweep resolve the occurrence [occ]
    for a competition. Once [occ] has been recorded as announced for its
    identifier (an earlier [get_competition_data] returned an outcome for
    it), and as long as the entry of the identifier has not been overwritten
    since, the sweep logs that the competition is already announced and
    returns before the query, with no message; so it does whenever the
    entry holds [occ]. When there is no entry (the first sweep for the
    identifier) or the entry holds another occurrence, the sweep treats
    [occ] as new and goes on to query the tracking backend for it, whether
    or not [occ] was announced before that other occurrence. *)
Theorem occurrence_skipped_while_stored competition s occ thr :
  latest_executed_competition (clock E (tick s)) (evaluation_times competition) = Return occ ->
  minus_15_minutes (clock E (S (tick s))) = Return thr ->
  (forall (E0 : env val) earlier s0 data s1,
     competition_id earlier = competition_id competition ->
     get_competition_data E0 earlier s0 = (Return (Some data), s1) ->
     ad_competition_date data = occ ->
     last_competitions_announcements s !! competition_id competition =
       last_competitions_announcements s1 !! competition_id competition ->
     announce_competition_results E competition s =
       (Return tt,
        snd (emit (Log INFO ("Competition " +:+ competition_id competition +:+
                             " already announced")) (after_clock_reads s)))) /\
  (last_competitions_announcements s !! competition_id competition = Some occ ->
   announce_competition_results E competition s =
     (Return tt,
      snd (emit (Log INFO ("Competition " +:+ competition_id competition +:+
                           " already announced")) (after_clock_reads s)))) /\
  (last_competitions_announcements s !! competition_id competition = None \/
   (exists other,
      last_competitions_announcements s !! competition_id competition = Some other /\
      other ≠ occ) ->
   exists rest,
     trace (snd (announce_competition_results E competition s)) =
     (trace s ++ WandbRuns ("safe-scan-ai/" +:+ competition_id competition)
                   (mk_filters occ thr) :: rest)%list).
Proof.
  intros Hocc Hthr. split_and!.
  - intros E0 earlier s0 data s1 Hid Hdata Hdate Hsame.
    apply (announce_already_announced E competition s occ thr); [done | done |].
    apply get_competition_data_ledger in Hdata. cbn in Hdata.
    rewrite Hsame, Hdata, Hid, Hdate. apply lookup_insert_eq.
  - by apply (announce_already_announced E competition s occ thr).
  - intros Hentry. apply (announce_treats_as_new E competition s occ thr); [done | done |].
    destruct Hentry as [-> | (other & -> & Hother)]; congruence.
Qed.

End StoredOccurrence.

(** ** The winner's record *)

Section WinnerRecord.
Context `{PyValue val}.

(** C4, as the code has it. When at least one record names the selected
    winner as its miner, the record bound to [winner_run], whose fields give
    the dataset size and the score, is the last such record in iteration
    order. *)
Theorem winner_record_is_last_match (runs : list (Run val)) (w : val) :
  (exists r, r ∈ runs /\ names_miner r w) ->
  exists pre r post,
    runs = (pre ++ r :: post)%list /\
    names_miner r w /\
    (forall r', r' ∈ post -> ¬ names_miner r' w) /\
    find_winner_run runs w = Bound (Some r).
Proof.
  intros Hex. destruct (last_naming_record runs w Hex) as (pre & r & post & -> & Hr & Hpost).
  exists pre, r, post. split_and!; [done .. |]. by apply find_winner_run_last.
Qed.

(** When no record names the selected winner, [winner_run] is read while it
    is unbound. *)
Lemma untraceable_winner_raises competition latest (runs : list (Run val)) w n s :
  most_common_1 (Counter (snd (scan_runs runs))) = [(w, n)] ->
  (forall r, r ∈ runs -> ¬ names_miner r w) ->
  competition_data_from_runs competition latest runs s =
    (Raise (UnboundLocalError "winner_run"), s).
Proof.
  intros Hw Hno. unfold competition_data_from_runs.
  destruct (scan_runs runs) as [tested votes]. simpl in Hw.
  destruct (Counter votes) as [|item c]; [done |].
  rewrite Hw. unfold bind, lift. simpl.
  by rewrite find_winner_run_unbound.
Qed.

(** Without votes there is no outcome, and only a log entry is made. *)
Lemma no_votes_no_outcome competition latest (runs : list (Run val)) s :
  votes_of runs = [] ->
  competition_data_from_runs competition latest runs s =
    (emit (Log ERROR ("No validators choices found for competition " +:+
                      competition_id competition));; ret None) s.
Proof.
  intros Hvotes. unfold competition_data_from_runs.
  pose proof (scan_runs_votes runs) as Hscan. rewrite Hvotes in Hscan.
  destruct (scan_runs runs) as [tested votes]. simpl in Hscan. by subst votes.
Qed.

End WinnerRecord.

(** ** The ledger is written before the delivery *)

Section LedgerOrdering.
Context `{PyValue val}.
Variable E : env val.

(** C1, as the code has it. Let a sweep resolve the occurrence [occ] for a
    competition. The ledger entry is written inside [get_competition_data],
    once the winner's record is found, before the message is composed and
    its delivery attempted. If [occ] is new and the aggregation fails for
    lack of votes or because no record names the selected winner, the ledger
    is as before, so a later sweep that resolves [occ] while the entry is
    still the same treats it as new again. If the aggregation produces an
    outcome, the delivery starts in a state whose ledger already holds
    [occ], and whether it succeeds or fails it leaves the ledger so: a later
    sweep that resolves [occ] while the entry is still the same takes the
    competition as already announced. *)
Theorem ledger_written_before_delivery competition s occ thr :
  latest_executed_competition (clock E (tick s)) (evaluation_times competition) = Return occ ->
  minus_15_minutes (clock E (S (tick s))) = Return thr ->
  (forall runs,
     last_competitions_announcements s !! competition_id competition ≠ Some occ ->
     wandb_runs E (S (S (tick s))) ("safe-scan-ai/" +:+ competition_id competition)
       (mk_filters occ thr) = Return (Some runs) ->
     votes_of runs = [] \/
     (exists w n, most_common_1 (Counter (snd (scan_runs runs))) = [(w, n)] /\
                  forall r, r ∈ runs -> ¬ names_miner r w) ->
     last_competitions_announcements (snd (announce_competition_results E competition s)) =
       last_competitions_announcements s /\
     forall (E' : env val) s' thr',
       last_competitions_announcements s' !! competition_id competition =
         last_competitions_announcements
           (snd (announce_competition_results E competition s)) !! competition_id competition ->
       latest_executed_competition (clock E' (tick s')) (evaluation_times competition)
         = Return occ ->
       minus_15_minutes (clock E' (S (tick s'))) = Return thr' ->
       exists rest,
         trace (snd (announce_competition_results E' competition s')) =
         (trace s' ++ WandbRuns ("safe-scan-ai/" +:+ competition_id competition)
                        (mk_filters occ thr') :: rest)%list) /\
  (forall data s1,
     get_competition_data E competition s = (Return (Some data), s1) ->
     last_competitions_announcements s1 =
       <[competition_id competition := occ]> (last_competitions_announcements s) /\
     announce_competition_results E competition s =
       send_message_to_channel E "discord-bot-test" (create_discord_message data) s1 /\
     last_competitions_announcements (snd (announce_competition_results E competition s)) =
       last_competitions_announcements s1 /\
     forall (E' : env val) s' thr',
       last_competitions_announcements s' !! competition_id competition =
         last_competitions_announcements
           (snd (announce_competition_results E competition s)) !! competition_id competition ->
       latest_executed_competition (clock E' (tick s')) (evaluation_times competition)
         = Return occ ->
       minus_15_minutes (clock E' (S (tick s'))) = Return thr' ->
       announce_competition_results E' competition s' =
         (Return tt,
          snd (emit (Log INFO ("Competition " +:+ competition_id competition +:+
                               " already announced")) (after_clock_reads s')))).
Proof.
  intros Hocc Hthr. split.
  - intros runs Hnew Hruns Hfail.
    assert (last_competitions_announcements
              (snd (announce_competition_results E competition s)) =
            last_competitions_announcements s) as Hkeep.
    { unfold announce_competition_results. unfold bind at 1.
      rewrite (get_competition_data_new E _ _ occ thr) by done.
      unfold bind at 1 2 3. unfold interact, emit at 1, lift at 1.
      cbn [fst snd tick after_clock_reads].
      change ("safe-scan-ai" +:+ "/" +:+ competition_id competition)
        with ("safe-scan-ai/" +:+ competition_id competition).
      rewrite Hruns.
      destruct Hfail as [Hvotes | (w & n & Hw & Hno)].
      - by rewrite no_votes_no_outcome.
      - by rewrite (untraceable_winner_raises _ _ _ w n). }
    split; [exact Hkeep |]. intros E' s' thr' Hsame Hocc' Hthr'.
    apply (announce_treats_as_new E' competition s' occ thr'); [done | done |].
    by rewrite Hsame, Hkeep.
  - intros data s1 Hdata.
    pose proof (get_competition_data_outcome_date E _ _ _ _ Hdata) as Hdate.
    rewrite Hocc in Hdate. injection Hdate as Hdate.
    pose proof (get_competition_data_ledger E _ _ _ _ Hdata) as Hwrite. cbn in Hwrite.
    rewrite <- Hdate in Hwrite.
    assert (announce_competition_results E competition s =
            send_message_to_channel E "discord-bot-test" (create_discord_message data) s1)
      as Hsend.
    { unfold announce_competition_results. unfold bind at 1. by rewrite Hdata. }
    assert (last_competitions_announcements
              (snd (announce_competition_results E competition s)) =
            last_competitions_announcements s1) as Hkeep.
    { rewrite Hsend. apply (send_message_same_ledger E). }
    split_and!; [done .. |]. intros E' s' thr' Hsame Hocc' Hthr'.
    apply (announce_already_announced E' competition s' occ thr'); [done | done |].
    rewrite Hsame, Hkeep, Hwrite. apply lookup_insert_eq.
Qed.

End LedgerOrdering.

(** ** The refresh loop *)

Section RefreshLoop.
Context `{PyValue val}.
Variable E : env val.

Lemma for_each_app {A} (l1 l2 : list A) (body : A -> M unit) s :
  for_each (l1 ++ l2) body s =
  match for_each l1 body s with
  | (Return _, s') => for_each l2 body s'
  | (Raise e, s') => (Raise e, s')
  end.
Proof.
  revert s. induction l1 as [|x l1 IH]; intros s; [done |].
  cbn [app for_each]. unfold bind.
  destruct (body x s) as [[[] | e] s']; [apply IH | done].
Qed.

(** A competition whose announcement returns does not stop the sweep. *)
Lemma sweep_continues_after_return competition rest s s1 :
  announce_competition_results E competition s = (Return tt, s1) ->
  for_each (competition :: rest) (announce_competition_results E) s =
  for_each rest (announce_competition_results E) s1.
Proof. intros Hret. cbn [for_each]. unfold bind. by rewrite Hret. Qed.

(** C7, as the code has it. The sweep has one [try] around the whole loop:
    when the announcement of a competition raises, after the competitions
    before it returned, the sweep logs that exception and ends, itself
    returning normally, in the state of the failure, whatever competitions
    remain in the registry; they are not attempted in this sweep. Only an
    announcement that returns (with or without an outcome) lets the loop go
    on to the next competition. *)
Theorem sweep_stops_at_first_failure pre competition rest s s1 e s2 :
  competition_configs s = Some (pre ++ competition :: rest)%list ->
  for_each pre (announce_competition_results E)
    (snd (emit (Log INFO "Announcing competition results...") s)) = (Return tt, s1) ->
  announce_competition_results E competition s1 = (Raise e, s2) ->
  announce_results E s =
    (Return tt,
     snd (emit (LogException "Unexpected error during competition announcement" e) s2)) /\
  forall next later s3 s4,
    announce_competition_results E next s3 = (Return tt, s4) ->
    for_each (next :: later) (announce_competition_results E) s3 =
    for_each later (announce_competition_results E) s4.
Proof.
  intros Hconfigs Hpre Hfail. split; [| intros; by apply sweep_continues_after_return].
  unfold announce_results, try_except.
  unfold bind at 1 2. unfold emit at 1, get_configs. cbn [fst snd competition_configs].
  rewrite Hconfigs. unfold bind at 1. rewrite for_each_app.
  unfold emit at 1 in Hpre. cbn [snd] in Hpre. rewrite Hconfigs in Hpre. rewrite Hpre.
  cbn [for_each]. unfold bind at 1. rewrite Hfail. done.
Qed.

Lemma collect_competition_configs_registry config_data acc s :
  competition_configs (snd (collect_competition_configs config_data acc s)) =
  competition_configs s.
Proof.
  revert acc s. induction config_data as [|c l IH]; intros acc s; [done |].
  cbn [collect_competition_configs]. unfold bind, try_except, lift.
  destruct (unpack_CompetitionConfig c) as [config | e]; [apply IH |].
  by destruct (is_dict c).
Qed.

Lemma get_competition_configs_registry config_data s :
  competition_configs (snd (get_competition_configs config_data s)) =
  competition_configs s.
Proof.
  unfold get_competition_configs, bind, lift.
  destruct (iterate config_data) as [items | e]; [| done].
  apply collect_competition_configs_registry.
Qed.

(** A refresh that fails leaves the registry attribute as it was. *)
Lemma failed_refresh_keeps_registry s e s' :
  load_config_from_remote_repo E s = (Raise e, s') ->
  competition_configs s' = competition_configs s.
Proof.
  unfold load_config_from_remote_repo.
  unfold bind at 1 2 3. unfold interact, emit at 1, lift at 1. cbn [fst snd].
  destruct (http_get E (tick s)) as [resp | e0]; [| by intros [= _ <-]].
  destruct (status resp =? 200).
  - unfold try_except. unfold bind at 1. unfold lift at 1.
    destruct (body resp) as [json_config | e0]; [| by intros [= _ <-]].
    unfold bind at 1.
    match goal with
    | |- context [get_competition_configs ?l ?st] =>
        pose proof (get_competition_configs_registry l st) as Hkeep;
        destruct (get_competition_configs l st) as [[configs | e0] s0]
    end; [| by intros [= _ <-]].
    by intros [=].
  - by intros [= _ <-].
Qed.

(** Phase A never raises, and when the fetch fails the registry attribute
    is as it was before the cycle. *)
Lemma update_config_keeps_registry_on_failure s e s' :
  load_config_from_remote_repo E
    (snd (emit (Log INFO "Updating competition config...") s)) = (Raise e, s') ->
  fst (update_config E s) = Return tt /\
  competition_configs (snd (update_config E s)) = competition_configs s.
Proof.
  intros Hload. pose proof (failed_refresh_keeps_registry _ _ _ Hload) as Hkeep.
  unfold update_config, try_except, bind.
  change (emit (Log INFO "Updating competition config...") s)
    with (Return tt, snd (emit (Log INFO "Updating competition config...") s)).
  cbv beta iota. rewrite Hload. split; [done |]. exact Hkeep.
Qed.

End RefreshLoop.

(** ** Rendering *)

Section Rendering.

Lemma digit_char_is_digit n : is_digit (digit_char n) = true.
Proof. unfold digit_char, pretty_N_char. by repeat case_match. Qed.

Lemma digit_value_digit_char n :
  (n < 10)%N -> digit_value (digit_char n) = Some (Z.of_N n).
Proof.
  intros Hn.
  assert (n = 0 ∨ n = 1 ∨ n = 2 ∨ n = 3 ∨ n = 4 ∨ n = 5 ∨ n = 6 ∨ n = 7 ∨ n = 8 ∨ n = 9)%N
    as Hcases by lia.
  by repeat destruct Hcases as [-> | Hcases]; [.. | subst].
Qed.

Lemma pretty_N_go_digits x s :
  all_digits s = true -> all_digits (pretty_N_go x s) = true.
Proof.
  revert s. induction (N.lt_wf_0 x) as [x _ IH]; intros s Hs.
  destruct (decide (x = 0)%N) as [-> | Hx]; [done |].
  rewrite pretty_N_go_step by lia. apply IH.
  - apply N.div_lt; lia.
  - cbn [all_digits]. change (pretty_N_char (x `mod` 10)) with (digit_char (x `mod` 10)).
    by rewrite digit_char_is_digit.
Qed.

Lemma pretty_N_go_length x s :
  (String.length s <= String.length (pretty_N_go x s))%nat.
Proof.
  revert s. induction (N.lt_wf_0 x) as [x _ IH]; intros s.
  destruct (decide (x = 0)%N) as [-> | Hx]; [done |].
  rewrite pretty_N_go_step by lia.
  etrans; [| apply IH; apply N.div_lt; lia]. simpl. lia.
Qed.

Lemma pretty_N_digits (n : N) : all_digits (pretty n) = true.
Proof.
  unfold pretty, pretty_N. case_decide; [done |]. by apply pretty_N_go_digits.
Qed.

Lemma pretty_N_nonempty (n : N) : pretty n ≠ "".
Proof.
  unfold pretty, pretty_N. case_decide as Hn; [done |].
  rewrite pretty_N_go_step by lia. intros Heq.
  pose proof (pretty_N_go_length (n `div` 10)
                (String (pretty_N_char (n `mod` 10)) "")) as Hlen.
  rewrite Heq in Hlen. simpl in Hlen. lia.
Qed.

Lemma split_at_point whole rest :
  all_digits whole = true ->
  split_at "." (whole +:+ String "." rest) = Some (whole, rest).
Proof.
  induction whole as [|c whole IH]; [done |].
  simpl. intros [Hc Hw]%andb_prop. rewrite IH by done.
  destruct (Ascii.eqb_spec c "."); [by subst |]. done.
Qed.

Lemma two_decimals_format neg m e : two_decimals (format_2f (Finite neg m e)) = true.
Proof.
  unfold format_2f. set (h := hundredths m e).
  pose proof (pretty_N_digits (h / 100)) as Hdigits.
  pose proof (pretty_N_nonempty (h / 100)) as Hne.
  unfold two_decimals.
  assert (match (if neg then "-" else "") +:+ pretty (h / 100)%N +:+ "." +:+
                String (digit_char (h mod 100 / 10))
                  (String (digit_char (h mod 10)) "") with
          | String "-" rest => rest
          | _ => (if neg then "-" else "") +:+ pretty (h / 100)%N +:+ "." +:+
                   String (digit_char (h mod 100 / 10))
                     (String (digit_char (h mod 10)) "")
          end =
          pretty (h / 100)%N +:+
            String "." (String (digit_char (h mod 100 / 10))
                          (String (digit_char (h mod 10)) ""))) as ->.
  { destruct neg; [done |].
    destruct (pretty (h / 100)%N) as [|c w]; [done |].
    simpl in Hdigits. apply andb_prop in Hdigits as [Hc _].
    destruct c as [[] [] [] [] [] [] [] []]; try discriminate Hc; reflexivity. }
  rewrite split_at_point by done. simpl.
  rewrite !digit_char_is_digit, Hdigits.
  destruct (String.eqb_spec (pretty (h / 100)%N) ""); done.
Qed.

(** The hundredths are the score times one hundred, rounded to the nearest
    integer and, half-way, to the even one. *)
Lemma hundredths_nearest m e :
  if 0 <=? e then Z.of_N (hundredths m e) = Z.of_N m * 100 * 2 ^ e
  else
    2 * Z.abs (Z.of_N (hundredths m e) * 2 ^ (- e) - Z.of_N m * 100) <= 2 ^ (- e) /\
    (2 * Z.abs (Z.of_N (hundredths m e) * 2 ^ (- e) - Z.of_N m * 100) = 2 ^ (- e) ->
     Z.even (Z.of_N (hundredths m e)) = true).
Proof.
  unfold hundredths. destruct (Z.leb_spec 0 e) as [He | He].
  { rewrite !N2Z.inj_mul, N2Z.inj_pow, Z2N.id by done. done. }
  set (d := (2 ^ Z.to_N (- e))%N).
  assert (Z.of_N d = 2 ^ (- e)) as Hd.
  { unfold d. rewrite N2Z.inj_pow, Z2N.id by lia. done. }
  assert (0 < d)%N as Hpos by (unfold d; apply N.neq_0_lt_0, N.pow_nonzero; lia).
  rewrite <- Hd.
  pose proof (N.div_mod (m * 100) d ltac:(lia)) as Hdiv.
  pose proof (N.mod_lt (m * 100) d ltac:(lia)) as Hmod.
  set (q := (m * 100 / d)%N) in *. set (r := (m * 100 mod d)%N) in *.
  assert (Z.of_N m * 100 = Z.of_N d * Z.of_N q + Z.of_N r) as HdivZ by lia.
  rewrite HdivZ.
  destruct (N.ltb_spec (2 * r) d) as [Hlo | Hlo].
  { split; [nia | intros Heq; nia]. }
  destruct (N.ltb_spec d (2 * r)) as [Hhi | Hhi].
  { split; [nia | intros Heq; nia]. }
  destruct (N.even q) eqn:Heven.
  - split; [nia |]. intros _. destruct q as [| p]; [done |]. by destruct p.
  - split; [nia |]. intros _.
    rewrite N2Z.inj_add, Z.even_add. simpl.
    destruct q as [| p]; [done |]. by destruct p.
Qed.

Lemma read_pad2 z : 0 <= z < 100 -> read_digits (pad2 z) = Some z.
Proof.
  intros Hz. unfold pad2, read_digits. cbn [read_digits_from].
  rewrite !digit_value_digit_char by (apply N.mod_lt; lia).
  f_equal. rewrite !N2Z.inj_mod, N2Z.inj_div, Z2N.id by lia.
  change (Z.of_N 10) with 10. Z.to_euclidean_division_equations. lia.
Qed.

Lemma read_pad4 z : 0 <= z < 10000 -> read_digits (pad4 z) = Some z.
Proof.
  intros Hz. unfold pad4, pad2, read_digits. cbn [read_digits_from].
  rewrite !digit_value_digit_char by (apply N.mod_lt; lia).
  f_equal. rewrite !N2Z.inj_mod, !N2Z.inj_div, !Z2N.id by (try apply Z.mod_pos_bound; lia).
  change (Z.of_N 10) with 10. change (Z.of_N 100) with 100. change (Z.of_N 1000) with 1000.
  Z.to_euclidean_division_equations. lia.
Qed.

End Rendering.

Section Composer.

Lemma read_date_strftime t :
  0 <= dt_year t < 10000 -> 0 <= dt_month t < 100 -> 0 <= dt_day t < 100 ->
  0 <= dt_hour t < 100 -> 0 <= dt_minute t < 100 ->
  read_date (strftime t) =
    Some (dt_year t, dt_month t, dt_day t, dt_hour t, dt_minute t).
Proof.
  intros Hy Hm Hd Hhh Hmm.
  assert (String.length (strftime t) = 20%nat) as Hlen by reflexivity.
  assert (substring 0 4 (strftime t) = pad4 (dt_year t)) as H1 by reflexivity.
  assert (substring 5 2 (strftime t) = pad2 (dt_month t)) as H2 by reflexivity.
  assert (substring 8 2 (strftime t) = pad2 (dt_day t)) as H3 by reflexivity.
  assert (substring 11 2 (strftime t) = pad2 (dt_hour t)) as H4 by reflexivity.
  assert (substring 14 2 (strftime t) = pad2 (dt_minute t)) as H5 by reflexivity.
  unfold read_date. rewrite Hlen, H1, H2, H3, H4, H5.
  rewrite read_pad4, !read_pad2 by done. reflexivity.
Qed.

(** C9, as the code has it. The message is a function of the outcome alone
    and lists, between fixed texts, the competition id, the date, the
    dataset size, the tested-model count, the winning identifier and the
    score, in that order. The date has the fixed shape YYYY.MM.DD HH:MM UTC
    and reads back as the occurrence's fields. A finite score is rendered
    with a sign if negative, at least one digit, a point and exactly two
    digits; a score that is not finite is rendered without decimals, as
    nan, inf or -inf. *)
Theorem message_layout (a : DiscordAnnouncementData) :
  1000 <= dt_year (ad_competition_date a) <= 9999 ->
  1 <= dt_month (ad_competition_date a) <= 12 ->
  1 <= dt_day (ad_competition_date a) <= 31 ->
  0 <= dt_hour (ad_competition_date a) < 24 ->
  0 <= dt_minute (ad_competition_date a) < 60 ->
  create_discord_message a =
    String.concat ""
      [ "# Competition results" +:+ newline +:+ newline +:+ "**";
        ad_competition_id a;
        "**  - `";
        strftime (ad_competition_date a);
        "`" +:+ newline +:+ "Dataset size: ";
        pretty (ad_dataset_size a);
        newline +:+ newline +:+ "Tested models - ";
        pretty (ad_tested_models_amount a);
        newline +:+ newline +:+ "Winning hotkey - ";
        ad_winning_hotkey a;
        newline +:+ newline +:+ "Score: **";
        format_2f (ad_score a);
        "**" ] /\
  read_date (strftime (ad_competition_date a)) =
    Some (dt_year (ad_competition_date a), dt_month (ad_competition_date a),
          dt_day (ad_competition_date a), dt_hour (ad_competition_date a),
          dt_minute (ad_competition_date a)) /\
  match ad_score a with
  | Finite neg m e => two_decimals (format_2f (ad_score a)) = true
  | Inf false => format_2f (ad_score a) = "inf"
  | Inf true => format_2f (ad_score a) = "-inf"
  | NaN => format_2f (ad_score a) = "nan"
  end.
Proof.
  intros Hy Hm Hd Hhh Hmm. split_and!.
  - unfold create_discord_message, newline. cbn [String.concat String.append].
    reflexivity.
  - apply read_date_strftime; lia.
  - destruct (ad_score a) as [neg m e | [] |]; try done. apply two_decimals_format.
Qed.

End Composer.

(** ** The schedule resolver *)

Section Resolver.
Implicit Types (t u now : datetime) (slots : list (Z * Z)).

Lemma lex_compare_antisym a b : lex_compare a b = CompOpp (lex_compare b a).
Proof.
  revert b. induction a as [|x a IH]; intros [|y b]; simpl; try done.
  rewrite (Z.compare_antisym y x). destruct (y ?= x); simpl; [apply IH | done..].
Qed.

Lemma lex_compare_refl a : lex_compare a a = Eq.
Proof. induction a as [|x a IH]; simpl; [done |]. by rewrite Z.compare_refl. Qed.

Lemma lex_compare_le_trans a b c :
  lex_compare a b ≠ Gt -> lex_compare b c ≠ Gt -> lex_compare a c ≠ Gt.
Proof.
  revert b c. induction a as [|x a IH]; intros [|y b] [|z c]; simpl; try done.
  destruct (Z.compare_spec x y), (Z.compare_spec y z), (Z.compare_spec x z);
    try done; try lia; subst; eauto.
Qed.

Lemma leb_refl t : Datetime.leb t t = true.
Proof. unfold Datetime.leb, Datetime.compare. by rewrite lex_compare_refl. Qed.

Lemma leb_trans t u v :
  Datetime.leb t u = true -> Datetime.leb u v = true -> Datetime.leb t v = true.
Proof.
  unfold Datetime.leb, Datetime.compare. intros Htu Huv.
  pose proof (lex_compare_le_trans (fields t) (fields u) (fields v)) as Htrans.
  destruct (lex_compare (fields t) (fields u)), (lex_compare (fields u) (fields v)),
    (lex_compare (fields t) (fields v)); try done; by destruct Htrans.
Qed.

Lemma gtb_leb t u : Datetime.gtb t u = true -> Datetime.leb u t = true.
Proof.
  unfold Datetime.gtb, Datetime.leb, Datetime.compare.
  rewrite (lex_compare_antisym (fields u) (fields t)).
  by destruct (lex_compare (fields t) (fields u)).
Qed.

(** [max] returns an item of the list that no item exceeds. *)
Lemma max_from_spec first rest :
  max_from first rest ∈ first :: rest /\
  forall u, u ∈ first :: rest -> Datetime.leb u (max_from first rest) = true.
Proof.
  revert first. induction rest as [|x rest IH]; intros first.
  { split; [left |]. intros u ->%list_elem_of_singleton. apply leb_refl. }
  unfold max_from. cbn [fold_left]. fold (max_from (if gtb x first then x else first) rest).
  destruct (IH (if gtb x first then x else first)) as [Hin Hmax].
  split.
  - apply elem_of_cons in Hin as [-> | Hin]; [| by do 2 right].
    destruct (gtb x first); [right; left | left].
  - intros u Hu.
    assert (Datetime.leb first (if gtb x first then x else first) = true /\
            Datetime.leb x (if gtb x first then x else first) = true) as [Hf Hx].
    { destruct (gtb x first) eqn:Hgt.
      - split; [by apply gtb_leb | apply leb_refl].
      - split; [apply leb_refl |]. unfold gtb in Hgt. by destruct (Datetime.leb x first). }
    apply elem_of_cons in Hu as [-> | Hu].
    { eapply leb_trans; [exact Hf | apply Hmax; left]. }
    apply elem_of_cons in Hu as [-> | Hu].
    { eapply leb_trans; [exact Hx | apply Hmax; left]. }
    apply Hmax. by right.
Qed.

Lemma check_date_fields_ok y m d :
  check_date_fields y m d = Return tt <->
  1 <= y <= 9999 /\ 1 <= m <= 12 /\ 1 <= d <= days_in_month y m.
Proof.
  unfold check_date_fields.
  destruct (Z.leb_spec 1 y), (Z.leb_spec y 9999), (Z.leb_spec 1 m), (Z.leb_spec m 12),
    (Z.leb_spec 1 d), (Z.leb_spec d (days_in_month y m)); simpl;
    split; try done; try lia.
Qed.

(** The instants of the slots on a valid date. *)
Lemma comprehension_on_valid_date y m d schedule slots :
  check_date_fields y m d = Return tt ->
  mapM parse_HM schedule = Some slots ->
  comprehension (fun time_str =>
                   rbind (strptime_HM time_str) (fun t => replace_date t y m d))
                schedule = Return (List.map (slot_instant y m d) slots).
Proof.
  intros Hdate. revert slots. induction schedule as [|str schedule IH]; intros slots.
  { by intros [= <-]. }
  rewrite mapM_Some. intros Hall. apply Forall2_cons_inv_l in Hall
    as ([hh mm] & slots' & Hparse & Hrest & ->).
  cbn [comprehension]. unfold strptime_HM at 1. rewrite Hparse.
  cbn [rbind]. unfold replace_date at 1. rewrite Hdate. cbn [rbind].
  rewrite (IH slots') by (by apply mapM_Some). done.
Qed.

(** On a date that [replace] rejects, the first slot already raises. *)
Lemma comprehension_on_invalid_date y m d e schedule slots :
  check_date_fields y m d = Raise e ->
  mapM parse_HM schedule = Some slots -> slots ≠ [] ->
  comprehension (fun time_str =>
                   rbind (strptime_HM time_str) (fun t => replace_date t y m d))
                schedule = Raise e.
Proof.
  intros Hdate Hparse Hne. destruct schedule as [|str schedule].
  { injection Hparse as <-. done. }
  apply mapM_Some in Hparse. apply Forall2_cons_inv_l in Hparse
    as ([hh mm] & slots' & Hparse & _ & ->).
  cbn [comprehension]. unfold strptime_HM. rewrite Hparse.
  cbn [rbind]. unfold replace_date. by rewrite Hdate.
Qed.

(** When a slot of today has elapsed, the resolver returns the latest
    elapsed slot-instant of today. *)
Lemma resolver_today now schedule slots :
  check_date_fields (dt_year now) (dt_month now) (dt_day now) = Return tt ->
  mapM parse_HM schedule = Some slots ->
  (exists u, u ∈ List.map (slot_instant (dt_year now) (dt_month now) (dt_day now)) slots /\
             Datetime.le u now) ->
  exists t,
    latest_executed_competition now schedule = Return t /\
    t ∈ List.map (slot_instant (dt_year now) (dt_month now) (dt_day now)) slots /\
    Datetime.le t now /\
    forall u, u ∈ List.map (slot_instant (dt_year now) (dt_month now) (dt_day now)) slots ->
              Datetime.le u now -> Datetime.le u t.
Proof.
  intros Hdate Hparse (u0 & Hu0 & Hle0). unfold latest_executed_competition.
  rewrite (comprehension_on_valid_date _ _ _ _ slots) by done. cbn [rbind].
  set (today := List.map _ slots) in *.
  destruct (List.filter (fun time => Datetime.leb time now) today) as [|x past] eqn:Hpast.
  { assert (u0 ∈ List.filter (fun time => Datetime.leb time now) today) as Hin.
    { apply list_elem_of_In, filter_In. split; [by apply list_elem_of_In | done]. }
    rewrite Hpast in Hin. by apply elem_of_nil in Hin. }
  destruct (max_from_spec x past) as [Hin Hmax]. exists (max_from x past).
  rewrite <- Hpast in Hin. apply list_elem_of_In, filter_In in Hin as [Hin Hle].
  split_and!; [done | by apply list_elem_of_In | done |].
  intros u Hu Hule. apply Hmax. rewrite <- Hpast.
  apply list_elem_of_In, filter_In. split; [by apply list_elem_of_In | done].
Qed.

Lemma earlier_day_le y m d slot now :
  dt_year now = y -> dt_month now = m -> d < dt_day now ->
  Datetime.le (slot_instant y m d slot) now.
Proof.
  intros <- <- Hd. unfold Datetime.le, Datetime.leb, Datetime.compare, fields.
  cbn [lex_compare slot_instant dt_year dt_month dt_day]. rewrite !Z.compare_refl.
  apply Z.compare_lt_iff in Hd. by rewrite Hd.
Qed.

Lemma no_past_times now today :
  (forall u, u ∈ today -> ¬ Datetime.le u now) ->
  List.filter (fun time => Datetime.leb time now) today = [].
Proof.
  intros Hno. destruct (List.filter _ today) as [|x past] eqn:Hpast; [done |].
  assert (x ∈ List.filter (fun time => Datetime.leb time now) today) as Hin
    by (rewrite Hpast; left).
  apply list_elem_of_In, filter_In in Hin as [Hin Hle].
  destruct (Hno x); [by apply list_elem_of_In | done].
Qed.

(** When no slot of today has elapsed and today is not the first day of
    its month, the resolver returns the latest slot-instant of the previous
    calendar date. *)
Lemma resolver_yesterday now schedule slots :
  check_date_fields (dt_year now) (dt_month now) (dt_day now) = Return tt ->
  mapM parse_HM schedule = Some slots -> slots ≠ [] ->
  (forall u, u ∈ List.map (slot_instant (dt_year now) (dt_month now) (dt_day now)) slots ->
             ¬ Datetime.le u now) ->
  1 < dt_day now ->
  exists t,
    latest_executed_competition now schedule = Return t /\
    previous_date (dt_year now) (dt_month now) (dt_day now) =
      (dt_year now, dt_month now, dt_day now - 1) /\
    t ∈ List.map (slot_instant (dt_year now) (dt_month now) (dt_day now - 1)) slots /\
    Datetime.le t now /\
    forall u, u ∈ List.map (slot_instant (dt_year now) (dt_month now) (dt_day now - 1)) slots ->
              Datetime.le u t.
Proof.
  intros Hdate Hparse Hne Hnone Hday. unfold latest_executed_competition.
  rewrite (comprehension_on_valid_date _ _ _ _ slots) by done. cbn [rbind].
  rewrite no_past_times by done.
  rewrite (comprehension_on_valid_date _ _ _ _ slots); [| | done].
  2: { apply check_date_fields_ok. apply check_date_fields_ok in Hdate. lia. }
  cbn [rbind]. destruct slots as [|slot slots]; [done |]. cbn [List.map py_max].
  destruct (max_from_spec
              (slot_instant (dt_year now) (dt_month now) (dt_day now - 1) slot)
              (List.map (slot_instant (dt_year now) (dt_month now) (dt_day now - 1)) slots))
    as [Hin Hmax].
  eexists. split; [reflexivity |]. split.
  { unfold previous_date. destruct (Z.ltb_spec 1 (dt_day now)); [done | lia]. }
  split; [exact Hin |]. split; [| exact Hmax].
  change (slot_instant ?y ?m ?d slot :: List.map (slot_instant ?y ?m ?d) slots)
    with (List.map (slot_instant y m d) (slot :: slots)) in Hin.
  apply list_elem_of_In, in_map_iff in Hin as (slot' & <- & _).
  apply earlier_day_le; [done | done | lia].
Qed.

(** When no slot of today has elapsed on the first day of a month, the
    resolver asks for day 0 of the month and raises. *)
Lemma resolver_first_day_raises now schedule slots :
  check_date_fields (dt_year now) (dt_month now) (dt_day now) = Return tt ->
  mapM parse_HM schedule = Some slots -> slots ≠ [] ->
  (forall u, u ∈ List.map (slot_instant (dt_year now) (dt_month now) (dt_day now)) slots ->
             ¬ Datetime.le u now) ->
  dt_day now = 1 ->
  latest_executed_competition now schedule =
    Raise (ValueError "day is out of range for month").
Proof.
  intros Hdate Hparse Hne Hnone Hday. unfold latest_executed_competition.
  rewrite (comprehension_on_valid_date _ _ _ _ slots) by done. cbn [rbind].
  rewrite no_past_times by done.
  rewrite (comprehension_on_invalid_date _ _ _
             (ValueError "day is out of range for month") _ slots); [done | | done | done].
  apply check_date_fields_ok in Hdate. rewrite Hday. unfold check_date_fields.
  destruct (Z.leb_spec 1 (dt_year now)), (Z.leb_spec (dt_year now) 9999),
    (Z.leb_spec 1 (dt_month now)), (Z.leb_spec (dt_month now) 12); try lia. done.
Qed.

End Resolver.

(** ** Runs of the code on concrete inputs *)

Section Runs.
Import Scenario.

(** The end-to-end scenario: one competition with slots 09:00 and 15:00, the
    clock at 15:05 UTC, three records of which two vote for H1. *)
Example end_to_end_message :
  trace (snd (announce_competition_results (world ["discord-bot-test"] runs3) melanoma init)) =
  [ WandbRuns "safe-scan-ai/melanoma-1"
      (mk_filters occurrence_15_00 (mk_datetime 2024 3 1 14 50 1 0));
    ChannelSend 42 "discord-bot-test"
      (create_discord_message
         (mk_announcement "melanoma-1" occurrence_15_00 500 2 "H1" f_0_87)) ].
Proof. reflexivity. Qed.

Example votes_ABA_select_A :
  most_common_1 (Counter (snd (scan_runs runs_ABA))) = [(VStr "A", 2)].
Proof. reflexivity. Qed.

Example votes_AB_select_A :
  most_common_1 (Counter (snd (scan_runs runs_AB))) = [(VStr "A", 1)].
Proof. reflexivity. Qed.

(** C3 at 06:00 UTC on 2024-03-01 with the single slot 12:00: the slot of
    today has not elapsed, the previous calendar date is 2024-02-29 and its
    slot-instant lies before now, yet the resolver raises, because it asks
    for day 0 of March. *)
Theorem resolver_raises_on_first_of_month :
  latest_executed_competition first_of_march_0600 ["12:00"] =
    Raise (ValueError "day is out of range for month") /\
  previous_date 2024 3 1 = (2024, 2, 29) /\
  Datetime.le (slot_instant 2024 2 29 (12, 0)) first_of_march_0600.
Proof. by split_and!. Qed.

(** C6 on one record that votes for A while no record has A as its miner:
    [get_competition_data] ends by an [UnboundLocalError] on [winner_run],
    after the query and without the entry "No winner run found" in the log;
    the sweep reports it as an unexpected error. *)
Theorem untraceable_winner_crashes :
  get_competition_data (world ["discord-bot-test"] runs_untraceable) melanoma init =
    (Raise (UnboundLocalError "winner_run"),
     {| last_competitions_announcements := ∅; competition_configs := None; tick := 3;
        trace := [ WandbRuns "safe-scan-ai/melanoma-1"
                     (mk_filters occurrence_15_00 (mk_datetime 2024 3 1 14 50 1 0)) ] |}) /\
  trace (snd (announce_results (world ["discord-bot-test"] runs_untraceable)
                (with_registry [melanoma]))) =
    [ Log INFO "Announcing competition results...";
      WandbRuns "safe-scan-ai/melanoma-1"
        (mk_filters occurrence_15_00 (mk_datetime 2024 3 1 14 50 1 0));
      LogException "Unexpected error during competition announcement"
        (UnboundLocalError "winner_run") ].
Proof. by split. Qed.

(** C8 on a fresh bot whose first fetch is answered by status 404: the
    registry attribute has never been assigned, so the sweep does not
    iterate over zero competitions but stops on an [AttributeError], which
    it logs as an unexpected error. *)
Theorem registry_unset_before_first_fetch :
  competition_configs init = None /\
  update_config_and_announce_results world_404 init =
    (Return tt,
     {| last_competitions_announcements := ∅; competition_configs := None; tick := 1;
        trace :=
          [ Log INFO "Updating competition config...";
            HttpGet;
            Log ERROR "Failed to fetch configuration. Status code: 404";
            LogException "Unexpected error during remote repo synchronization"
              (ValueError "Could not fetch configuration from remote repo.");
            Log INFO "Announcing competition results...";
            LogException "Unexpected error during competition announcement"
              (AttributeError "competition_configs") ] |}).
Proof. by split. Qed.

(** Against C1 as stated: the guild has no channel "discord-bot-test", so
    the delivery fails; the ledger entry, absent before, holds the
    occurrence afterwards, and the next sweep takes the occurrence as
    already announced. *)
Lemma failed_delivery_is_recorded :
  exists s1,
    announce_competition_results (world ["general"] runs3) melanoma init =
      (Raise (ValueError
                "Channel named 'discord-bot-test' not found in guild 'safe-scan'"), s1) /\
    last_competitions_announcements init !! "melanoma-1" = None /\
    last_competitions_announcements s1 !! "melanoma-1" = Some occurrence_15_00 /\
    (forall g ch msg, ChannelSend g ch msg ∉ trace s1) /\
    announce_competition_results (world ["general"] runs3) melanoma s1 =
      (Return tt,
       snd (emit (Log INFO "Competition melanoma-1 already announced")
              (after_clock_reads s1))).
Proof.
  exists (snd (announce_competition_results (world ["general"] runs3) melanoma init)).
  split; [reflexivity |]. split_and!; try done.
  intros g ch msg Hin. vm_compute in Hin.
  repeat (apply elem_of_cons in Hin as [Hin | Hin]; [discriminate |]).
  by apply elem_of_nil in Hin.
Qed.

(** C1 on two sweeps from a fresh bot. With a vote for A and no record of
    A the aggregation fails, the ledger stays empty and the next sweep
    queries for the occurrence again. With the records of the scenario and
    a guild without the channel, the ledger holds the occurrence when the
    delivery starts and after it failed, and the next sweep takes the
    competition as already announced. *)
Lemma ledger_written_before_delivery_witness :
  (last_competitions_announcements
     (snd (announce_competition_results (world ["discord-bot-test"] runs_untraceable)
             melanoma init)) = ∅ /\
   exists rest,
     trace (snd (announce_competition_results (world ["discord-bot-test"] runs_untraceable)
                   melanoma
                   (snd (announce_competition_results
                           (world ["discord-bot-test"] runs_untraceable) melanoma init)))) =
     (trace (snd (announce_competition_results
                    (world ["discord-bot-test"] runs_untraceable) melanoma init)) ++
      WandbRuns "safe-scan-ai/melanoma-1"
        (mk_filters occurrence_15_00 (mk_datetime 2024 3 1 14 50 4 0)) :: rest)%list) /\
  (last_competitions_announcements
     (snd (get_competition_data (world ["general"] runs3) melanoma init)) =
     <["melanoma-1" := occurrence_15_00]> ∅ /\
   last_competitions_announcements
     (snd (announce_competition_results (world ["general"] runs3) melanoma init)) =
     <["melanoma-1" := occurrence_15_00]> ∅ /\
   announce_competition_results (world ["general"] runs3) melanoma
     (snd (announce_competition_results (world ["general"] runs3) melanoma init)) =
     (Return tt,
      snd (emit (Log INFO "Competition melanoma-1 already announced")
             (after_clock_reads
                (snd (announce_competition_results (world ["general"] runs3)
                        melanoma init)))))).
Proof.
  split.
  - destruct (proj1 (ledger_written_before_delivery
                       (world ["discord-bot-test"] runs_untraceable) melanoma init
                       occurrence_15_00 (mk_datetime 2024 3 1 14 50 1 0) eq_refl eq_refl)
                runs_untraceable) as [Hkeep Hnext].
    + discriminate.
    + reflexivity.
    + right. exists (VStr "A"), 1. split; [reflexivity |].
      intros r Hr. apply list_elem_of_singleton in Hr as ->.
      unfold names_miner. cbn. intros Hin.
      repeat (apply elem_of_cons in Hin as [Hin | Hin]; [discriminate |]).
      by apply elem_of_nil in Hin.
    + split; [exact Hkeep |].
      exact (Hnext (world ["discord-bot-test"] runs_untraceable)
               (snd (announce_competition_results
                       (world ["discord-bot-test"] runs_untraceable) melanoma init))
               (mk_datetime 2024 3 1 14 50 4 0) eq_refl eq_refl eq_refl).
  - assert (get_competition_data (world ["general"] runs3) melanoma init =
            (Return (Some (mk_announcement "melanoma-1" occurrence_15_00 500 2 "H1" f_0_87)),
             snd (get_competition_data (world ["general"] runs3) melanoma init)))
      as Hdata by reflexivity.
    destruct (proj2 (ledger_written_before_delivery
                       (world ["general"] runs3) melanoma init
                       occurrence_15_00 (mk_datetime 2024 3 1 14 50 1 0) eq_refl eq_refl)
                _ _ Hdata) as (Hwrite & _ & Hkeep & Hnext).
    split; [exact Hwrite |]. split; [exact (eq_trans Hkeep Hwrite) |].
    exact (Hnext (world ["general"] runs3)
             (snd (announce_competition_results (world ["general"] runs3) melanoma init))
             (mk_datetime 2024 3 1 14 50 5 0) eq_refl eq_refl eq_refl).
Defined.

(** Against C2 as stated: three refresh cycles at 15:05 UTC, between which
    the slot 15:00 is taken out of the schedule of the competition and put
    back. The cycles resolve the occurrences 15:00, 09:00 and 15:00 again;
    each overwrites the one entry of the identifier, and the occurrence
    15:00 is announced twice. *)
Lemma occurrence_announced_again_after_edit :
  last_competitions_announcements
    (snd (update_config_and_announce_results world_edited init)) !! "melanoma-1" =
    Some occurrence_15_00 /\
  last_competitions_announcements
    (snd (update_config_and_announce_results world_edited
            (snd (update_config_and_announce_results world_edited init)))) !! "melanoma-1" =
    Some occurrence_09_00 /\
  List.filter is_send
    (trace (snd (update_config_and_announce_results world_edited
                   (snd (update_config_and_announce_results world_edited
                           (snd (update_config_and_announce_results world_edited init))))))) =
  [ ChannelSend 42 "discord-bot-test"
      (create_discord_message
         (mk_announcement "melanoma-1" occurrence_15_00 500 2 "H1" f_0_87));
    ChannelSend 42 "discord-bot-test"
      (create_discord_message
         (mk_announcement "melanoma-1" occurrence_09_00 500 2 "H1" f_0_87));
    ChannelSend 42 "discord-bot-test"
      (create_discord_message
         (mk_announcement "melanoma-1" occurrence_15_00 500 2 "H1" f_0_87)) ].
Proof. by split_and!. Qed.

(** C2 on sweeps of the scenario: the sweep that follows the first
    announcement resolves the recorded occurrence and is skipped; a sweep
    on a fresh bot, and a sweep whose ledger holds the occurrence 09:00,
    query for the occurrence 15:00. *)
Lemma occurrence_skipped_while_stored_witness :
  announce_competition_results (world ["discord-bot-test"] runs3) melanoma
    (snd (announce_competition_results (world ["discord-bot-test"] runs3) melanoma init)) =
    (Return tt,
     snd (emit (Log INFO "Competition melanoma-1 already announced")
            (after_clock_reads
               (snd (announce_competition_results (world ["discord-bot-test"] runs3)
                       melanoma init))))) /\
  (exists rest,
     trace (snd (announce_competition_results (world ["discord-bot-test"] runs3)
                   melanoma init)) =
     (trace init ++ WandbRuns "safe-scan-ai/melanoma-1"
                      (mk_filters occurrence_15_00 (mk_datetime 2024 3 1 14 50 1 0))
                    :: rest)%list) /\
  (exists rest,
     trace (snd (announce_competition_results (world ["discord-bot-test"] runs3) melanoma
                   (snd (set_ledger "melanoma-1" occurrence_09_00 init)))) =
     (trace init ++ WandbRuns "safe-scan-ai/melanoma-1"
                      (mk_filters occurrence_15_00 (mk_datetime 2024 3 1 14 50 1 0))
                    :: rest)%list).
Proof.
  split_and!.
  - destruct (occurrence_skipped_while_stored (world ["discord-bot-test"] runs3) melanoma
                (snd (announce_competition_results (world ["discord-bot-test"] runs3)
                        melanoma init))
                occurrence_15_00 (mk_datetime 2024 3 1 14 50 6 0))
      as (Hrecorded & _ & _); [reflexivity | reflexivity |].
    apply (Hrecorded (world ["discord-bot-test"] runs3) melanoma init
             (mk_announcement "melanoma-1" occurrence_15_00 500 2 "H1" f_0_87)
             (snd (get_competition_data (world ["discord-bot-test"] runs3) melanoma init)));
      reflexivity.
  - apply (proj2 (proj2 (occurrence_skipped_while_stored
                           (world ["discord-bot-test"] runs3) melanoma init
                           occurrence_15_00 (mk_datetime 2024 3 1 14 50 1 0)
                           eq_refl eq_refl))).
    left. reflexivity.
  - apply (proj2 (proj2 (occurrence_skipped_while_stored
                           (world ["discord-bot-test"] runs3) melanoma
                           (snd (set_ledger "melanoma-1" occurrence_09_00 init))
                           occurrence_15_00 (mk_datetime 2024 3 1 14 50 1 0)
                           eq_refl eq_refl))).
    right. exists occurrence_09_00. split; [reflexivity | discriminate].
Defined.

(** Against C4 as stated: two records have A as their miner; the record
    bound to [winner_run] is the second, and the outcome carries its dataset
    size 200, not the 100 of the first. *)
Lemma winner_record_is_not_first_match :
  runs_two_of_A = [first_of_A; second_of_A] /\
  names_miner first_of_A (VStr "A") /\
  names_miner second_of_A (VStr "A") /\
  most_common_1 (Counter (snd (scan_runs runs_two_of_A))) = [(VStr "A", 1)] /\
  find_winner_run runs_two_of_A (VStr "A") = Bound (Some second_of_A) /\
  find_winner_run runs_two_of_A (VStr "A") ≠ Bound (Some first_of_A) /\
  fst (competition_data_from_runs melanoma occurrence_15_00 runs_two_of_A init) =
    Return (Some (mk_announcement "melanoma-1" occurrence_15_00 200 2 "A" f_0_87)).
Proof.
  split_and!; try done; unfold names_miner; simpl; set_solver.
Qed.

Lemma winner_record_is_last_match_witness :
  exists pre r post,
    runs_two_of_A = (pre ++ r :: post)%list /\
    names_miner r (VStr "A") /\
    (forall r', r' ∈ post -> ¬ names_miner r' (VStr "A")) /\
    find_winner_run runs_two_of_A (VStr "A") = Bound (Some r).
Proof.
  apply (winner_record_is_last_match runs_two_of_A (VStr "A")).
  exists second_of_A. split; [right; left |]. unfold names_miner. simpl. left.
Defined.

(** The tie of one vote for A, then one for B: the outcome names A and
    carries the fields of A's record. *)
Example tie_AB_outcome :
  fst (competition_data_from_runs melanoma occurrence_15_00 runs_tie_AB init) =
    Return (Some (mk_announcement "melanoma-1" occurrence_15_00 100 2 "A" f_0_87)).
Proof. reflexivity. Qed.

Lemma winner_is_first_mode_witness :
  votes_of runs_tie_AB = [VStr "A"; VStr "B"] /\
  exists w,
    w ∈ votes_of runs_tie_AB /\
    (forall v, count_votes v (votes_of runs_tie_AB) <= count_votes w (votes_of runs_tie_AB)) /\
    (forall v, v ≠ w ->
       count_votes v (votes_of runs_tie_AB) = count_votes w (votes_of runs_tie_AB) ->
       (index_of w (votes_of runs_tie_AB) < index_of v (votes_of runs_tie_AB))%nat) /\
    validate_str w = Some "A".
Proof.
  split; [reflexivity |].
  destruct (winner_is_first_mode runs_tie_AB ltac:(discriminate))
    as (w & Hin & Hmax & Hfirst & Hselected).
  exists w. split_and!; [exact Hin | exact Hmax | exact Hfirst |].
  exact (proj2 (Hselected melanoma occurrence_15_00 init)
           (mk_announcement "melanoma-1" occurrence_15_00 100 2 "A" f_0_87)
           (snd (competition_data_from_runs melanoma occurrence_15_00 runs_tie_AB init))
           eq_refl).
Defined.

(** Against C7 as stated: the registry holds a competition whose slot does
    not parse, then one that is due. The first announcement raises; the
    sweep logs it and ends after that single clock read, without a query
    or a message for the second competition, which a sweep over it alone
    does announce. *)
Lemma sweep_abandons_remaining_competitions :
  announce_results (world ["discord-bot-test"] runs3) (with_registry [broken; melanoma]) =
    (Return tt,
     {| last_competitions_announcements := ∅;
        competition_configs := Some [broken; melanoma]; tick := 1;
        trace :=
          [ Log INFO "Announcing competition results...";
            LogException "Unexpected error during competition announcement"
              (ValueError "time data does not match format '%H:%M'") ] |}) /\
  trace (snd (announce_results (world ["discord-bot-test"] runs3)
                (with_registry [melanoma]))) =
    [ Log INFO "Announcing competition results...";
      WandbRuns "safe-scan-ai/melanoma-1"
        (mk_filters occurrence_15_00 (mk_datetime 2024 3 1 14 50 1 0));
      ChannelSend 42 "discord-bot-test"
        (create_discord_message
           (mk_announcement "melanoma-1" occurrence_15_00 500 2 "H1" f_0_87));
      Log INFO "Announcement completed." ].
Proof. by split. Qed.

Lemma sweep_stops_at_first_failure_witness :
  announce_results (world ["discord-bot-test"] runs3) (with_registry [broken; melanoma]) =
  (Return tt,
   snd (emit (LogException "Unexpected error during competition announcement"
                (ValueError "time data does not match format '%H:%M'"))
          (snd (announce_competition_results (world ["discord-bot-test"] runs3) broken
                  (snd (emit (Log INFO "Announcing competition results...")
                          (with_registry [broken; melanoma]))))))).
Proof.
  apply (sweep_stops_at_first_failure (world ["discord-bot-test"] runs3)
           [] broken [melanoma] (with_registry [broken; melanoma])
           (snd (emit (Log INFO "Announcing competition results...")
                   (with_registry [broken; melanoma]))));
    reflexivity.
Defined.

(** Against C9 as stated: a score that is not a number is rendered as
    "nan", which has no decimal places. *)
Lemma nan_score_has_no_decimals :
  format_2f (ad_score (mk_announcement "melanoma-1" occurrence_15_00 500 2 "H1" NaN)) = "nan" /\
  two_decimals
    (format_2f (ad_score (mk_announcement "melanoma-1" occurrence_15_00 500 2 "H1" NaN)))
    = false /\
  create_discord_message (mk_announcement "melanoma-1" occurrence_15_00 500 2 "H1" NaN) =
    String.concat newline
      [ "# Competition results"; "";
        "**melanoma-1**  - `2024.03.01 15:00 UTC`";
        "Dataset size: 500"; "";
        "Tested models - 2"; "";
        "Winning hotkey - H1"; "";
        "Score: **nan**" ].
Proof. by split_and!. Qed.

Lemma message_layout_witness :
  read_date (strftime occurrence_15_00) = Some (2024, 3, 1, 15, 0) /\
  two_decimals (format_2f f_0_87) = true.
Proof.
  pose proof (message_layout
                (mk_announcement "melanoma-1" occurrence_15_00 500 2 "H1" f_0_87)
                ltac:(simpl; lia) ltac:(simpl; lia) ltac:(simpl; lia)
                ltac:(simpl; lia) ltac:(simpl; lia)) as (_ & Hdate & Hscore).
  split; [exact Hdate | exact Hscore].
Defined.

End Runs.

(** * Further properties of the code *)

(** ** More on the schedule resolver *)

Section ResolverMore.
Implicit Types (t u now : datetime) (slots : list (Z * Z)) (schedule : list string).

Lemma comprehension_inv {A B} (f : A -> result B) (l : list A) (ys : list B) :
  comprehension f l = Return ys -> Forall2 (fun x y => f x = Return y) l ys.
Proof.
  revert ys. induction l as [|x l IH]; intros ys; cbn [comprehension].
  { intros [= <-]. constructor. }
  destruct (f x) as [y | e] eqn:Hx; cbn [rbind]; [| done].
  destruct (comprehension f l) as [ys' | e]; cbn [rbind]; [| done].
  intros [= <-]. constructor; [done | by apply IH].
Qed.

Lemma digit_value_bounds c d : digit_value c = Some d -> 0 <= d <= 9.
Proof.
  unfold digit_value.
  destruct (N.leb_spec 48 (N_of_ascii c)), (N.leb_spec (N_of_ascii c) 57); simpl;
    intros [= <-]; lia.
Qed.

Lemma two_digits_bounds bound s v : two_digits bound s = Some v -> 0 <= v /\ (v <= 9 \/ v <= bound).
Proof.
  destruct s as [|a [|b [|? ?]]]; simpl; try done.
  - intros Hd%digit_value_bounds. lia.
  - destruct (digit_value a) as [x |] eqn:Ha; [| done].
    destruct (digit_value b) as [y |] eqn:Hb; [| done].
    apply digit_value_bounds in Ha, Hb.
    destruct (Z.leb_spec (10 * x + y) bound); intros [= <-]; lia.
Qed.

(** A parsed slot is a time of day. *)
Lemma parse_HM_bounds s hh mm :
  parse_HM s = Some (hh, mm) -> 0 <= hh <= 23 /\ 0 <= mm <= 59.
Proof.
  unfold parse_HM. destruct (split_at ":" s) as [[h m] |]; [| done].
  destruct (two_digits 23 h) as [x |] eqn:Hh; [| done].
  destruct (two_digits 59 m) as [y |] eqn:Hm; [| done].
  apply two_digits_bounds in Hh, Hm. intros [= <- <-]. lia.
Qed.

(** Every instant that the comprehension builds comes from a slot of the
    schedule that parses, on a date that [replace] accepts. *)
Lemma instants_of_schedule y m d schedule ts t :
  comprehension (fun time_str =>
                   rbind (strptime_HM time_str) (fun t0 => replace_date t0 y m d))
                schedule = Return ts ->
  t ∈ ts ->
  exists time_str hh mm,
    time_str ∈ schedule /\ parse_HM time_str = Some (hh, mm) /\
    check_date_fields y m d = Return tt /\ t = slot_instant y m d (hh, mm).
Proof.
  intros Hall%comprehension_inv Hin.
  induction Hall as [|str t0 schedule ts Hstr Hall IH]; [by apply elem_of_nil in Hin |].
  apply elem_of_cons in Hin as [-> | Hin].
  - unfold strptime_HM in Hstr. destruct (parse_HM str) as [[hh mm] |] eqn:Hparse; [| done].
    cbn [rbind] in Hstr. unfold replace_date in Hstr.
    destruct (check_date_fields y m d) as [[] | e] eqn:Hdate; [| done].
    cbn [rbind] in Hstr. injection Hstr as <-.
    exists str, hh, mm. split_and!; [left | done | done | done].
  - destruct (IH Hin) as (str' & hh & mm & Hin' & Hrest).
    exists str', hh, mm. split; [by right | done].
Qed.

Lemma comprehension_parses y m d schedule ts :
  comprehension (fun time_str =>
                   rbind (strptime_HM time_str) (fun t0 => replace_date t0 y m d))
                schedule = Return ts ->
  exists slots, mapM parse_HM schedule = Some slots /\
                ts = List.map (slot_instant y m d) slots.
Proof.
  intros Hall%comprehension_inv.
  induction Hall as [|str t0 schedule ts Hstr Hall (slots & Hparse & ->)].
  { by exists []. }
  unfold strptime_HM in Hstr. destruct (parse_HM str) as [[hh mm] |] eqn:Hstr'; [| done].
  cbn [rbind] in Hstr. unfold replace_date in Hstr.
  destruct (check_date_fields y m d) as [[] | e]; [| done].
  cbn [rbind] in Hstr. injection Hstr as <-.
  exists ((hh, mm) :: slots). split; [| done].
  apply mapM_Some. constructor; [done | by apply mapM_Some].
Qed.

Lemma filter_elem_of (f : datetime -> bool) (l : list datetime) t :
  t ∈ List.filter f l <-> t ∈ l /\ f t = true.
Proof. rewrite !list_elem_of_In. apply filter_In. Qed.

Lemma py_max_elem_of (l : list datetime) t :
  py_max l = Return t ->
  t ∈ l /\ forall u, u ∈ l -> Datetime.leb u t = true.
Proof.
  destruct l as [|x l]; [done |]. intros [= <-]. apply max_from_spec.
Qed.

(** X1. Whenever the resolver returns an instant, that instant is not
    after now, it is a valid date at second 0 whose hour and minute are
    those of a slot of the schedule. *)
Theorem resolver_sound now schedule t :
  latest_executed_competition now schedule = Return t ->
  Datetime.le t now /\
  check_date_fields (dt_year t) (dt_month t) (dt_day t) = Return tt /\
  0 <= dt_hour t <= 23 /\ 0 <= dt_minute t <= 59 /\
  dt_second t = 0 /\ dt_microsecond t = 0 /\
  exists time_str, time_str ∈ schedule /\
                   parse_HM time_str = Some (dt_hour t, dt_minute t).
Proof.
  unfold latest_executed_competition.
  destruct (comprehension _ schedule) as [today | e] eqn:Htoday; [| done].
  cbn [rbind].
  destruct (List.filter _ today) as [|x past] eqn:Hpast.
  - match goal with
    | |- context [rbind (comprehension ?f schedule) _] =>
        destruct (comprehension f schedule) as [yesterday | e] eqn:Hyesterday; [| done]
    end.
    cbn [rbind]. intros [Hin _]%py_max_elem_of.
    destruct (instants_of_schedule _ _ _ _ _ _ Hyesterday Hin)
      as (str & hh & mm & Hstr & Hparse & Hdate & ->).
    pose proof (parse_HM_bounds _ _ _ Hparse).
    split; [apply earlier_day_le; [done | done | lia] |].
    split; [done |]. cbn. split_and!; try lia. by exists str.
  - intros [Hin _]%py_max_elem_of. rewrite <- Hpast in Hin.
    apply filter_elem_of in Hin as [Hin Hle].
    destruct (instants_of_schedule _ _ _ _ _ _ Htoday Hin)
      as (str & hh & mm & Hstr & Hparse & Hdate & ->).
    pose proof (parse_HM_bounds _ _ _ Hparse).
    split; [done |]. split; [done |]. cbn. split_and!; try lia. by exists str.
Qed.

Lemma comprehension_unparseable y m d schedule :
  check_date_fields y m d = Return tt ->
  (exists time_str, time_str ∈ schedule /\ parse_HM time_str = None) ->
  comprehension (fun time_str =>
                   rbind (strptime_HM time_str) (fun t0 => replace_date t0 y m d))
                schedule = Raise (ValueError "time data does not match format '%H:%M'").
Proof.
  intros Hdate (bad & Hin & Hbad).
  induction schedule as [|str schedule IH]; [by apply elem_of_nil in Hin |].
  cbn [comprehension]. unfold strptime_HM at 1.
  destruct (parse_HM str) as [[hh mm] |] eqn:Hstr; [| done].
  cbn [rbind]. unfold replace_date at 1. rewrite Hdate. cbn [rbind].
  apply elem_of_cons in Hin as [-> | Hin]; [congruence |]. by rewrite IH.
Qed.

(** X2. On a valid date, a schedule with a slot of ASCII characters that is
    not a time of day of the form [%H:%M] makes the resolver raise the
    [ValueError] of [strptime], whatever the other slots are and whether or
    not one of them has elapsed. *)
Theorem resolver_rejects_unparseable_slot now schedule :
  check_date_fields (dt_year now) (dt_month now) (dt_day now) = Return tt ->
  (exists time_str,
     time_str ∈ schedule /\ ascii_only time_str = true /\ parse_HM time_str = None) ->
  latest_executed_competition now schedule =
    Raise (ValueError "time data does not match format '%H:%M'").
Proof.
  intros Hdate (bad & Hin & _ & Hbad). unfold latest_executed_competition.
  rewrite comprehension_unparseable; [done | done |]. by exists bad.
Qed.

(** X3. On a valid date and for a schedule whose slots are strings of
    ASCII characters, the resolver returns an instant exactly when the
    schedule is not empty, all its slots are times of day of the form
    [%H:%M], and either a slot of today has elapsed or today is not the
    first day of its month. *)
Theorem resolver_returns_iff now schedule :
  check_date_fields (dt_year now) (dt_month now) (dt_day now) = Return tt ->
  Forall (fun time_str => ascii_only time_str = true) schedule ->
  (exists t, latest_executed_competition now schedule = Return t) <->
  (exists slots,
     mapM parse_HM schedule = Some slots /\ slots ≠ [] /\
     ((exists u, u ∈ List.map (slot_instant (dt_year now) (dt_month now) (dt_day now)) slots
                 /\ Datetime.le u now) \/
      1 < dt_day now)).
Proof.
  intros Hdate _. split.
  - intros [t Ht]. unfold latest_executed_competition in Ht.
    destruct (comprehension _ schedule) as [today | e] eqn:Htoday; [| done].
    cbn [rbind] in Ht.
    destruct (comprehension_parses _ _ _ _ _ Htoday) as (slots & Hparse & ->).
    exists slots. split; [done |].
    destruct (List.filter _ _) as [|x past] eqn:Hpast.
    + match type of Ht with
      | context [rbind (comprehension ?f schedule) _] =>
          destruct (comprehension f schedule) as [yesterday | e] eqn:Hyesterday; [| done]
      end.
      cbn [rbind] in Ht. apply py_max_elem_of in Ht as [Hin _].
      destruct (instants_of_schedule _ _ _ _ _ _ Hyesterday Hin)
        as (str & hh & mm & Hstr & Hstr' & Hdate' & _).
      apply check_date_fields_ok in Hdate'.
      split; [| right; lia]. intros ->. apply mapM_Some in Hparse.
      apply Forall2_nil_inv_r in Hparse as ->. by apply elem_of_nil in Hstr.
    + assert (x ∈ List.filter (fun time => Datetime.leb time now)
                (List.map (slot_instant (dt_year now) (dt_month now) (dt_day now)) slots))
        as Hx by (rewrite Hpast; left).
      apply filter_elem_of in Hx as [Hx Hle].
      split; [by intros -> |]. left. by exists x.
  - intros (slots & Hparse & Hne & Hcase). unfold latest_executed_competition.
    rewrite (comprehension_on_valid_date _ _ _ _ slots) by done. cbn [rbind].
    destruct (List.filter _ _) as [|x past] eqn:Hpast; [| by eexists].
    destruct Hcase as [(u & Hu & Hle) | Hday].
    { assert (u ∈ List.filter (fun time => Datetime.leb time now)
                (List.map (slot_instant (dt_year now) (dt_month now) (dt_day now)) slots))
        as Hin by (by apply filter_elem_of).
      rewrite Hpast in Hin. by apply elem_of_nil in Hin. }
    rewrite (comprehension_on_valid_date _ _ _ _ slots); [| | done].
    2: { apply check_date_fields_ok. apply check_date_fields_ok in Hdate. lia. }
    cbn [rbind]. destruct slots as [|slot slots]; [done |]. by eexists.
Qed.

End ResolverMore.

Section ResolverOrder.
Implicit Types (t u now : datetime) (slots : list (Z * Z)) (schedule : list string).

Lemma lex_compare_eq a b : lex_compare a b = Eq -> a = b.
Proof.
  revert b. induction a as [|x a IH]; intros [|y b]; simpl; try done.
  destruct (Z.compare_spec x y); try done. intros ?%IH. by subst.
Qed.

Lemma leb_antisym t u :
  Datetime.leb t u = true -> Datetime.leb u t = true -> t = u.
Proof.
  unfold Datetime.leb, Datetime.compare.
  rewrite (lex_compare_antisym (fields u) (fields t)).
  destruct (lex_compare (fields t) (fields u)) eqn:Hcmp; try done.
  intros _ _. apply lex_compare_eq in Hcmp.
  destruct t, u. unfold fields in Hcmp. simpl in Hcmp. by simplify_eq.
Qed.

(** [max] depends only on the items present, not on their order or on how
    often they occur. *)
Lemma py_max_ext (l l' : list datetime) :
  (forall x, x ∈ l <-> x ∈ l') -> py_max l = py_max l'.
Proof.
  intros Hsame. destruct l as [|x l], l' as [|x' l'].
  - done.
  - destruct (not_elem_of_nil x'). apply Hsame. left.
  - destruct (not_elem_of_nil x). apply Hsame. left.
  - destruct (max_from_spec x l) as [Hin Hmax], (max_from_spec x' l') as [Hin' Hmax'].
    cbn [py_max]. f_equal. apply leb_antisym.
    + apply Hmax'. by apply Hsame.
    + apply Hmax. by apply Hsame.
Qed.

(** X4. On a valid date, two schedules whose slots parse to the same set
    of times of day resolve to the same outcome: the order of the slots,
    their repetition and their spelling (9:00 or 09:00) do not matter. *)
Theorem resolver_depends_on_slot_set now schedule schedule' slots slots' :
  check_date_fields (dt_year now) (dt_month now) (dt_day now) = Return tt ->
  mapM parse_HM schedule = Some slots ->
  mapM parse_HM schedule' = Some slots' ->
  (forall slot, slot ∈ slots <-> slot ∈ slots') ->
  latest_executed_competition now schedule = latest_executed_competition now schedule'.
Proof.
  intros Hdate Hparse Hparse' Hsame. unfold latest_executed_competition.
  rewrite (comprehension_on_valid_date _ _ (dt_day now) schedule slots) by done.
  rewrite (comprehension_on_valid_date _ _ (dt_day now) schedule' slots') by done.
  cbn [rbind].
  assert (forall y m d x, x ∈ List.map (slot_instant y m d) slots <->
                          x ∈ List.map (slot_instant y m d) slots') as Hmap.
  { intros y m d x. rewrite !list_elem_of_In, !in_map_iff.
    split; intros (slot & <- & Hin); exists slot; (split; [done |]);
      apply list_elem_of_In, Hsame, list_elem_of_In, Hin. }
  set (today := List.map _ slots). set (today' := List.map _ slots').
  assert (forall x, x ∈ List.filter (fun time => Datetime.leb time now) today <->
                    x ∈ List.filter (fun time => Datetime.leb time now) today') as Hpast.
  { intros x. rewrite !filter_elem_of. unfold today, today'. by rewrite Hmap. }
  destruct (List.filter _ today) as [|x past] eqn:Hp,
    (List.filter _ today') as [|x' past'] eqn:Hp'.
  - destruct (check_date_fields (dt_year now) (dt_month now) (dt_day now - 1))
      as [[] | e] eqn:Hyesterday.
    + rewrite (comprehension_on_valid_date _ _ _ schedule slots) by done.
      rewrite (comprehension_on_valid_date _ _ _ schedule' slots') by done. cbn [rbind].
      apply py_max_ext, Hmap.
    + destruct slots as [|slot slots], slots' as [|slot' slots'].
      * apply mapM_Some in Hparse, Hparse'.
        apply Forall2_nil_inv_r in Hparse as ->. by apply Forall2_nil_inv_r in Hparse' as ->.
      * destruct (not_elem_of_nil slot'). apply Hsame. left.
      * destruct (not_elem_of_nil slot). apply Hsame. left.
      * rewrite (comprehension_on_invalid_date _ _ _ e schedule (slot :: slots)) by done.
        by rewrite (comprehension_on_invalid_date _ _ _ e schedule' (slot' :: slots')).
  - destruct (not_elem_of_nil x'). apply Hpast. left.
  - destruct (not_elem_of_nil x). apply Hpast. left.
  - apply py_max_ext, Hpast.
Qed.

End ResolverOrder.

(** ** More on the aggregator *)

Section AggregatorMore.
Context `{PyValue val}.
Implicit Types (w : val) (r : Run val) (runs : list (Run val))
  (items : list (string * val)).

Lemma scan_item_count items (acc : Z * list val) :
  fst (fold_left scan_item items acc) =
  fst acc + Z.of_nat (length (List.filter (fun item => String.eqb (fst item) "score") items)).
Proof.
  revert acc. induction items as [|[key value] items IH]; intros [n vs].
  { simpl. lia. }
  cbn [fold_left List.filter fst]. rewrite IH. unfold scan_item.
  destruct (String.eqb key "score"); [cbn [fst length]; lia |].
  by destruct (String.eqb key "winning_hotkey").
Qed.

Lemma no_key_filter key items :
  key ∉ List.map fst items ->
  List.filter (fun item => String.eqb (fst item) key) items = [].
Proof.
  induction items as [|[k v] items IH]; [done |].
  cbn [List.map fst List.filter]. intros [Hk Hrest]%not_elem_of_cons.
  destruct (String.eqb_spec k key); [congruence | by apply IH].
Qed.

Lemma distinct_key_count key items :
  NoDup (List.map fst items) ->
  length (List.filter (fun item => String.eqb (fst item) key) items) =
  if existsb (fun item => String.eqb (fst item) key) items then 1%nat else 0%nat.
Proof.
  induction items as [|[k v] items IH]; [done |].
  cbn [List.map fst List.filter existsb]. intros [Hk Hrest]%NoDup_cons.
  destruct (String.eqb_spec k key) as [-> | Hne]; cbn [orb length].
  - by rewrite no_key_filter.
  - by apply IH.
Qed.

Lemma scan_runs_count_from runs (acc : Z * list val) :
  (forall r, r ∈ runs -> distinct_keys r) ->
  fst (fold_left (fun acc run => fold_left scan_item (summary run) acc) runs acc) =
  fst acc + Z.of_nat (length (List.filter (has_key "score") runs)).
Proof.
  revert acc. induction runs as [|r runs IH]; intros acc Hkeys.
  { simpl. lia. }
  cbn [fold_left List.filter]. rewrite IH by (intros r' Hr'; apply Hkeys; by right).
  rewrite scan_item_count, distinct_key_count by (apply Hkeys; left).
  unfold has_key at 2. destruct (existsb _ (summary r)); cbn [length]; lia.
Qed.

Lemma no_vote_key items :
  "winning_hotkey" ∉ List.map fst items ->
  votes_of_run (mk_run items) = [].
Proof.
  induction items as [|[k v] items IH]; [done |].
  cbn [List.map fst]. intros [Hk Hrest]%not_elem_of_cons.
  unfold votes_of_run in *. cbn [summary omap list_omap fst snd] in *.
  destruct (String.eqb k "score"); [by apply IH |].
  destruct (String.eqb_spec k "winning_hotkey"); [done | by apply IH].
Qed.

Lemma votes_of_run_vote_of r :
  distinct_keys r -> votes_of_run r = option_list (vote_of r).
Proof.
  destruct r as [items]. unfold distinct_keys, vote_of. cbn [summary].
  induction items as [|[k v] items IH]; [done |].
  cbn [List.map fst]. intros [Hk Hrest]%NoDup_cons.
  cbn [List.find fst].
  destruct (String.eqb_spec k "winning_hotkey") as [-> | Hne].
  - pose proof (no_vote_key items Hk) as Hnone. unfold votes_of_run in *.
    cbn [summary omap list_omap fst snd] in *.
    change (String.eqb "winning_hotkey" "score") with false.
    change (String.eqb "winning_hotkey" "winning_hotkey") with true. cbv iota.
    by rewrite Hnone.
  - rewrite <- IH by done. unfold votes_of_run. cbn [summary omap list_omap fst snd].
    destruct (String.eqb k "score"); [done |].
    by destruct (String.eqb_spec k "winning_hotkey").
Qed.

Lemma votes_of_omap runs :
  (forall r, r ∈ runs -> distinct_keys r) -> votes_of runs = omap vote_of runs.
Proof.
  induction runs as [|r runs IH]; intros Hkeys; [done |].
  unfold votes_of in *. cbn [List.map concat omap list_omap].
  rewrite IH by (intros r' Hr'; apply Hkeys; by right).
  rewrite votes_of_run_vote_of by (apply Hkeys; left).
  by destruct (vote_of r).
Qed.

(** X5. Over records with distinct keys, the first scan counts, as tested
    models, the records that have a [score] key, and collects, in record
    order, the value under [winning_hotkey] of each record that has one. *)
Theorem first_scan_counts_and_collects runs :
  (forall r, r ∈ runs -> distinct_keys r) ->
  scan_runs runs =
    (Z.of_nat (length (List.filter (has_key "score") runs)), omap vote_of runs).
Proof.
  intros Hkeys.
  rewrite (surjective_pairing (scan_runs runs)), scan_runs_votes, votes_of_omap by done.
  unfold scan_runs. by rewrite scan_runs_count_from.
Qed.

Lemma no_vote_key_run r :
  has_key "winning_hotkey" r = false -> votes_of_run r = [].
Proof.
  destruct r as [items]. unfold has_key. cbn [summary]. intros Hno.
  apply no_vote_key. intros Hin. apply list_elem_of_In, in_map_iff in Hin as ([k v] & Hk & Hin).
  cbn in Hk. subst k.
  assert (existsb (fun item : string * val => String.eqb (fst item) "winning_hotkey") items
          = true) as Hex; [| congruence].
  apply existsb_exists. by exists ("winning_hotkey", v).
Qed.

(** X6. When no record has a [winning_hotkey] key, and so for the empty
    record sequence, the aggregation writes one error entry to the log and
    returns no outcome: the ledger, the registry and the rest of the state
    are as before. *)
Theorem aggregation_without_votes competition latest runs s :
  (forall r, r ∈ runs -> has_key "winning_hotkey" r = false) ->
  competition_data_from_runs competition latest runs s =
    (Return None,
     {| last_competitions_announcements := last_competitions_announcements s;
        competition_configs := competition_configs s;
        tick := tick s;
        trace := (trace s ++ [Log ERROR ("No validators choices found for competition " +:+
                                         competition_id competition)])%list |}).
Proof.
  intros Hno. rewrite no_votes_no_outcome; [done |].
  induction runs as [|r runs IH]; [done |].
  unfold votes_of in *. cbn [List.map concat].
  rewrite no_vote_key_run by (apply Hno; left).
  apply IH. intros r' Hr'. apply Hno. by right.
Qed.

Lemma extract_keeps_dataset_size items (acc : local val * local val) :
  "tested_entries" ∉ List.map fst items ->
  fst (fold_left extract_item items acc) = fst acc.
Proof.
  revert acc. induction items as [|[k v] items IH]; intros [ds sc]; [done |].
  cbn [List.map fst fold_left]. intros [Hk Hrest]%not_elem_of_cons.
  rewrite IH by done. unfold extract_item. cbn [fst].
  by destruct (String.eqb_spec k "tested_entries").
Qed.

Lemma extract_keeps_score items (acc : local val * local val) :
  "score" ∉ List.map fst items ->
  snd (fold_left extract_item items acc) = snd acc.
Proof.
  revert acc. induction items as [|[k v] items IH]; intros [ds sc]; [done |].
  cbn [List.map fst fold_left]. intros [Hk Hrest]%not_elem_of_cons.
  rewrite IH by done. unfold extract_item. cbn [snd].
  by destruct (String.eqb_spec k "score").
Qed.

Lemma extract_dataset_size items (acc : local val * local val) v :
  NoDup (List.map fst items) -> ("tested_entries", v) ∈ items ->
  fst (fold_left extract_item items acc) = Bound v.
Proof.
  revert acc. induction items as [|[k x] items IH]; intros [ds sc] Hnd Hin.
  { by apply elem_of_nil in Hin. }
  cbn [List.map fst] in Hnd. apply NoDup_cons in Hnd as [Hk Hnd]. cbn [fold_left].
  apply elem_of_cons in Hin as [[= <- <-] | Hin].
  - rewrite extract_keeps_dataset_size by done. done.
  - by apply IH.
Qed.

Lemma extract_score items (acc : local val * local val) v :
  NoDup (List.map fst items) -> ("score", v) ∈ items ->
  snd (fold_left extract_item items acc) = Bound v.
Proof.
  revert acc. induction items as [|[k x] items IH]; intros [ds sc] Hnd Hin.
  { by apply elem_of_nil in Hin. }
  cbn [List.map fst] in Hnd. apply NoDup_cons in Hnd as [Hk Hnd]. cbn [fold_left].
  apply elem_of_cons in Hin as [[= <- <-] | Hin].
  - rewrite extract_keeps_score by done. done.
  - by apply IH.
Qed.

Lemma extract_dataset_size_bound items (acc : local val * local val) :
  "tested_entries" ∈ List.map fst items ->
  exists v, fst (fold_left extract_item items acc) = Bound v.
Proof.
  revert acc. induction items as [|[k x] items IH]; intros [ds sc] Hin.
  { by apply elem_of_nil in Hin. }
  cbn [List.map fst fold_left] in *.
  destruct (decide ("tested_entries" ∈ List.map fst items)) as [Hrest | Hrest].
  { by apply IH. }
  apply elem_of_cons in Hin as [<- | Hin]; [| done].
  rewrite extract_keeps_dataset_size by done. by eexists.
Qed.

(** Up to the test of [winner_run], for a winner whose last record is [r]. *)
Lemma competition_data_with_winner competition latest pre r post w n s :
  most_common_1 (Counter (snd (scan_runs (pre ++ r :: post)))) = [(w, n)] ->
  names_miner r w -> (forall r', r' ∈ post -> ¬ names_miner r' w) ->
  competition_data_from_runs competition latest (pre ++ r :: post) s =
    (let '(dataset_size, score) := extract_fields r in
     set_ledger (competition_id competition) latest;;
     do dataset_size <- lift (read_local "dataset_size" dataset_size);
     do score <- lift (read_local "score" score);
     do announcement_data <-
       lift (build_announcement (competition_id competition) latest dataset_size
               (fst (scan_runs (pre ++ r :: post))) w score);
     ret (Some announcement_data)) s.
Proof.
  intros Hw Hr Hpost. unfold competition_data_from_runs.
  destruct (scan_runs (pre ++ r :: post)) as [tested votes] eqn:Hscan. cbn [fst snd] in *.
  destruct (Counter votes) as [|item c]; [done |].
  rewrite Hw. unfold bind at 1 2. unfold lift at 1 2. cbn [rbind subscript_0 fst].
  by rewrite find_winner_run_last.
Qed.

(** X7. The happy path of the aggregation. Let the votes select [w], let
    [r] be the last record that names [w] as its miner, with distinct keys
    and the values [ds] under [tested_entries] and [sc] under [score], and
    let the three values pass the validation of the outcome's fields. Then
    the aggregation records the occurrence in the ledger and returns the
    outcome made of the competition id, the occurrence, [r]'s dataset size,
    the tested-model count of the first scan, the hotkey and [r]'s score. *)
Theorem aggregation_outcome competition latest pre r post w n ds sc size hotkey score s :
  most_common_1 (Counter (snd (scan_runs (pre ++ r :: post)))) = [(w, n)] ->
  names_miner r w -> (forall r', r' ∈ post -> ¬ names_miner r' w) ->
  distinct_keys r ->
  ("tested_entries", ds) ∈ summary r -> ("score", sc) ∈ summary r ->
  validate_int ds = Some size -> validate_str w = Some hotkey ->
  validate_float sc = Some score ->
  competition_data_from_runs competition latest (pre ++ r :: post) s =
    (Return (Some (mk_announcement (competition_id competition) latest size
                     (fst (scan_runs (pre ++ r :: post))) hotkey score)),
     {| last_competitions_announcements :=
          <[competition_id competition := latest]> (last_competitions_announcements s);
        competition_configs := competition_configs s;
        tick := tick s; trace := trace s |}).
Proof.
  intros Hw Hr Hpost Hkeys Hds Hsc Hsize Hhotkey Hscore.
  rewrite (competition_data_with_winner _ _ _ _ _ w n) by done.
  rewrite (surjective_pairing (extract_fields r)). unfold extract_fields.
  rewrite (extract_dataset_size _ _ ds), (extract_score _ _ sc) by done.
  unfold bind, set_ledger, lift, ret, build_announcement. cbn [read_local].
  by rewrite Hsize, Hhotkey, Hscore.
Qed.

(** X8. The ledger is written before the fields of the winner's record are
    read. When the winner's record has no [tested_entries] key the
    aggregation ends by an [UnboundLocalError] on [dataset_size], and when
    it has that key but no [score] key, on [score]; in both cases the
    occurrence is already recorded in the ledger. *)
Theorem missing_field_raises_after_ledger_write competition latest pre r post w n s :
  most_common_1 (Counter (snd (scan_runs (pre ++ r :: post)))) = [(w, n)] ->
  names_miner r w -> (forall r', r' ∈ post -> ¬ names_miner r' w) ->
  (has_key "tested_entries" r = false \/
   (has_key "tested_entries" r = true /\ has_key "score" r = false)) ->
  competition_data_from_runs competition latest (pre ++ r :: post) s =
    (Raise (UnboundLocalError
              (if has_key "tested_entries" r then "score" else "dataset_size")),
     {| last_competitions_announcements :=
          <[competition_id competition := latest]> (last_competitions_announcements s);
        competition_configs := competition_configs s;
        tick := tick s; trace := trace s |}).
Proof.
  intros Hw Hr Hpost Hmissing.
  rewrite (competition_data_with_winner _ _ _ _ _ w n) by done.
  rewrite (surjective_pairing (extract_fields r)). unfold extract_fields.
  assert (forall key, has_key key r = false -> key ∉ List.map fst (summary r)) as Habsent.
  { intros key Hno Hin. apply list_elem_of_In, in_map_iff in Hin as ([k v] & Hk & Hin).
    cbn in Hk. subst k. unfold has_key in Hno.
    assert (existsb (fun item : string * val => String.eqb (fst item) key) (summary r)
            = true) as Hex; [| congruence].
    apply existsb_exists. exists (key, v). split; [done | apply String.eqb_refl]. }
  destruct Hmissing as [Hds | [Hds Hsc]]; rewrite Hds.
  - rewrite extract_keeps_dataset_size by (by apply Habsent). done.
  - destruct (extract_dataset_size_bound (summary r) (Unbound, Unbound)) as [v Hv].
    { unfold has_key in Hds. apply existsb_exists in Hds as ([k x] & Hin & Hk).
      apply String.eqb_eq in Hk. cbn in Hk. subst k.
      apply list_elem_of_In, in_map_iff. by exists ("tested_entries", x). }
    rewrite Hv, extract_keeps_score by (by apply Habsent). done.
Qed.

End AggregatorMore.

(** ** More on the ledger, the delivery and the refresh loop *)

Section LoopMore.
Context `{PyValue val}.
Variable E : env val.

Lemma competition_data_from_runs_write competition latest (runs : list (Run val)) s r s1 :
  competition_data_from_runs competition latest runs s = (r, s1) ->
  last_competitions_announcements s1 = last_competitions_announcements s \/
  exists w n winner,
    most_common_1 (Counter (snd (scan_runs runs))) = [(w, n)] /\
    find_winner_run runs w = Bound (Some winner) /\
    last_competitions_announcements s1 =
      <[competition_id competition := latest]> (last_competitions_announcements s).
Proof.
  destruct (most_common_1 (Counter (snd (scan_runs runs)))) as [|[w n] [|other rest]]
    eqn:Hselected.
  - unfold competition_data_from_runs.
    destruct (scan_runs runs) as [tested votes]. cbn [snd] in Hselected.
    destruct (Counter votes) as [|item c]; [intros [= <- <-]; by left | done].
  - rewrite (competition_data_with_selected _ _ _ w n) by done.
    unfold bind, lift, ret, set_ledger, emit.
    destruct (find_winner_run runs w) as [| [winner |]] eqn:Hwinner; cbn [read_local];
      try (intros [= <- <-]; by left).
    intros Hrest. right. exists w, n, winner. split; [done |]. split; [done |].
    destruct (extract_fields winner) as [[| ds] [| sc]]; cbn [read_local] in Hrest;
      try (by injection Hrest as _ <-).
    destruct (build_announcement _ _ _ _ _ _); by injection Hrest as _ <-.
  - unfold most_common_1 in Hselected. by destruct (Counter _).
Qed.

(** The selected winner is one of the votes. *)
Lemma selected_is_a_vote (runs : list (Run val)) w n :
  most_common_1 (Counter (snd (scan_runs runs))) = [(w, n)] -> w ∈ votes_of runs.
Proof.
  intros Hselected.
  destruct (decide (votes_of runs = [])) as [Hnone | Hvotes].
  { rewrite scan_runs_votes, Hnone in Hselected. done. }
  destruct (most_common_is_first_mode runs Hvotes) as (w' & Hw' & Hin & _).
  rewrite Hselected in Hw'. by injection Hw' as -> _.
Qed.

(** X9. [get_competition_data] leaves the ledger as it is unless the
    occurrence was resolved and differs from the stored one, the tracking
    backend answered the query for that occurrence with records, these
    records hold at least one vote, and a record of the winner that the
    votes select was found; the ledger then differs exactly by the entry of
    this competition, which holds the resolved occurrence. A schedule
    error, a failed query, an answer without records or without votes never
    touch the ledger. *)
Theorem ledger_written_only_with_winner competition s r s1 :
  get_competition_data E competition s = (r, s1) ->
  last_competitions_announcements s1 = last_competitions_announcements s \/
  exists occ thr runs w n winner,
    latest_executed_competition (clock E (tick s)) (evaluation_times competition)
      = Return occ /\
    minus_15_minutes (clock E (S (tick s))) = Return thr /\
    last_competitions_announcements s !! competition_id competition ≠ Some occ /\
    wandb_runs E (S (S (tick s))) ("safe-scan-ai/" +:+ competition_id competition)
      (mk_filters occ thr) = Return (Some runs) /\
    w ∈ votes_of runs /\
    most_common_1 (Counter (snd (scan_runs runs))) = [(w, n)] /\
    find_winner_run runs w = Bound (Some winner) /\
    last_competitions_announcements s1 =
      <[competition_id competition := occ]> (last_competitions_announcements s).
Proof.
  unfold get_competition_data, get_latest_executed_competition, datetime_now.
  unfold bind, lift, ret, interact, get_ledger, emit. simpl.
  destruct (latest_executed_competition _ _) as [occ | e]; [| intros [= <- <-]; by left].
  destruct (minus_15_minutes _) as [thr | e]; [| intros [= <- <-]; by left].
  case_bool_decide as Hstored; [intros [= <- <-]; by left |].
  destruct (wandb_runs E _ _ _) as [[runs |] | e] eqn:Hquery;
    try (intros [= <- <-]; by left).
  intros [Hsame | (w & n & winner & Hselected & Hwinner & Hwrite)]
    %competition_data_from_runs_write; [by left | right].
  exists occ, thr, runs, w, n, winner.
  split_and!; try done; first [congruence | by eapply selected_is_a_vote].
Qed.

Lemma get_competition_data_write competition s r s1 :
  get_competition_data E competition s = (r, s1) ->
  last_competitions_announcements s1 = last_competitions_announcements s \/
  exists occ,
    last_competitions_announcements s1 =
      <[competition_id competition := occ]> (last_competitions_announcements s).
Proof.
  unfold get_competition_data, get_latest_executed_competition, datetime_now.
  unfold bind, lift, ret, interact, get_ledger, emit. simpl.
  destruct (latest_executed_competition _ _) as [occ | e]; [| intros [= <- <-]; by left].
  destruct (minus_15_minutes _) as [thr | e]; [| intros [= <- <-]; by left].
  case_bool_decide; [intros [= <- <-]; by left |].
  destruct (wandb_runs E _ _ _) as [[runs |] | e]; try (intros [= <- <-]; by left).
  intros [Hsame | (w & n & winner & _ & _ & Hwrite)]%competition_data_from_runs_write;
    [by left | right; by exists occ].
Qed.

Lemma writes_only_refl ids s : writes_only ids s s.
Proof. intros id. by left. Qed.

Lemma writes_only_trans ids s1 s2 s3 :
  writes_only ids s1 s2 -> writes_only ids s2 s3 -> writes_only ids s1 s3.
Proof.
  intros H12 H23 id. destruct (H23 id) as [Hsame | [? ?]]; [| by right].
  destruct (H12 id) as [Hsame' | [? ?]]; [left; congruence | right].
  split; [done | by rewrite Hsame].
Qed.

Lemma writes_only_weaken ids ids' s s' :
  (forall id, id ∈ ids -> id ∈ ids') -> writes_only ids s s' -> writes_only ids' s s'.
Proof. intros Hsub Hw id. destruct (Hw id) as [? | [? ?]]; [by left | right; auto]. Qed.

Lemma same_ledger_writes_only ids s s' : same_ledger s s' -> writes_only ids s s'.
Proof. intros Hsame id. left. by rewrite Hsame. Qed.

Lemma announce_writes_only competition s :
  writes_only [competition_id competition] s
    (snd (announce_competition_results E competition s)).
Proof.
  unfold announce_competition_results, bind.
  destruct (get_competition_data E competition s) as [r s1] eqn:Hdata.
  assert (writes_only [competition_id competition] s s1) as Hfirst.
  { destruct (get_competition_data_write competition s r s1 Hdata)
      as [Hsame | (occ & Hwrite)].
    - by apply same_ledger_writes_only.
    - intros id. rewrite Hwrite.
      destruct (decide (id = competition_id competition)) as [-> | Hne].
      + right. split; [left |]. rewrite lookup_insert_eq. by eexists.
      + left. by rewrite lookup_insert_ne. }
  destruct r as [[data |] | e]; try exact Hfirst.
  eapply writes_only_trans; [exact Hfirst |].
  apply same_ledger_writes_only, send_message_same_ledger.
Qed.

Lemma for_each_writes_only (l : list CompetitionConfig) s :
  writes_only (List.map competition_id l) s
    (snd (for_each l (announce_competition_results E) s)).
Proof.
  revert s. induction l as [|c l IH]; intros s; [apply writes_only_refl |].
  cbn [for_each List.map]. unfold bind.
  pose proof (announce_writes_only c s) as Hc.
  destruct (announce_competition_results E c s) as [[[] | e] s1]; cbn [snd] in *.
  - eapply writes_only_trans.
    + eapply writes_only_weaken; [| exact Hc].
      intros id ->%list_elem_of_singleton. left.
    + eapply writes_only_weaken; [| apply IH]. intros id Hid. by right.
  - eapply writes_only_weaken; [| exact Hc].
    intros id ->%list_elem_of_singleton. left.
Qed.

Lemma collect_competition_configs_same_ledger config_data acc :
  respects same_ledger (collect_competition_configs config_data acc).
Proof.
  revert acc. induction config_data as [|c l IH]; intros acc; simpl; [eauto with steps |].
  unfold lift. repeat first [apply IH | step].
Qed.

Lemma get_competition_configs_same_ledger config_data :
  respects same_ledger (get_competition_configs config_data).
Proof.
  unfold get_competition_configs.
  repeat first [apply collect_competition_configs_same_ledger | step].
Qed.

Lemma update_config_same_ledger : respects same_ledger (update_config E).
Proof.
  unfold update_config, load_config_from_remote_repo.
  repeat first [apply get_competition_configs_same_ledger | step].
Qed.

(** A [try] whose handler only logs always returns. *)
Lemma try_log_returns (m : M unit) (entry : exn -> event) s :
  fst (try_except m (fun e => emit (entry e)) s) = Return tt.
Proof. unfold try_except. by destruct (m s) as [[[] | e] s']. Qed.

Lemma update_config_returns s : fst (update_config E s) = Return tt.
Proof. apply try_log_returns. Qed.

Lemma announce_results_returns s : fst (announce_results E s) = Return tt.
Proof. apply try_log_returns. Qed.

Lemma cycle_unfold s :
  update_config_and_announce_results E s = announce_results E (snd (update_config E s)).
Proof.
  unfold update_config_and_announce_results, bind.
  pose proof (update_config_returns s) as Hret.
  destruct (update_config E s) as [[[] | e] s1]; [done | discriminate].
Qed.

Lemma cycle_returns s : fst (update_config_and_announce_results E s) = Return tt.
Proof. rewrite cycle_unfold. apply announce_results_returns. Qed.

Lemma announce_results_writes_only s cs :
  competition_configs s = Some cs ->
  writes_only (List.map competition_id cs) s (snd (announce_results E s)).
Proof.
  intros Hcs. unfold announce_results, try_except. unfold bind at 1 2.
  unfold emit at 1, get_configs. cbn [fst snd competition_configs]. rewrite Hcs.
  unfold bind.
  match goal with
  | |- context [for_each cs ?body ?st] =>
      pose proof (for_each_writes_only cs st) as Hloop;
      destruct (for_each cs body st) as [[[] | e] s1]
  end; cbn [snd] in *; exact Hloop.
Qed.

Lemma announce_results_unset s :
  competition_configs s = None ->
  same_ledger s (snd (announce_results E s)).
Proof.
  intros Hcs. unfold announce_results, try_except. unfold bind at 1 2.
  unfold emit at 1, get_configs. cbn [fst snd competition_configs]. by rewrite Hcs.
Qed.

(** X10. A refresh cycle never removes a ledger entry, and the only entries
    it can change are those of the competitions that the registry holds
    after the refresh of this cycle. *)
Theorem cycle_writes_only_registry_entries s id :
  (is_Some (last_competitions_announcements s !! id) ->
   is_Some (last_competitions_announcements
              (snd (update_config_and_announce_results E s)) !! id)) /\
  (last_competitions_announcements (snd (update_config_and_announce_results E s)) !! id
     ≠ last_competitions_announcements s !! id ->
   exists cs c,
     competition_configs (snd (update_config E s)) = Some cs /\
     c ∈ cs /\ competition_id c = id).
Proof.
  rewrite cycle_unfold. pose proof (update_config_same_ledger s) as Hfirst.
  unfold same_ledger in Hfirst. rewrite <- Hfirst.
  set (s1 := snd (update_config E s)) in *.
  destruct (competition_configs s1) as [cs |] eqn:Hcs.
  - destruct (announce_results_writes_only s1 cs Hcs id) as [Hsame | [Hin Hsome]].
    + split; [by rewrite Hsame | by intros []].
    + split; [done |]. intros _.
      apply list_elem_of_In, in_map_iff in Hin as (c & Hc & Hin).
      exists cs, c. split_and!; [done | by apply list_elem_of_In | done].
  - pose proof (announce_results_unset s1 Hcs) as Hsame. unfold same_ledger in Hsame.
    rewrite Hsame. split; [done | by intros []].
Qed.

Lemma extends_after_emit (ev : event) (m : M unit) (h : exn -> M unit) s :
  respects (extends_by (fun _ => True)) m ->
  (forall e, respects (extends_by (fun _ => True)) (h e)) ->
  exists rest, trace (snd (try_except (emit ev;; m) h s)) = (trace s ++ ev :: rest)%list.
Proof.
  intros Hm Hh. unfold try_except. unfold bind at 1. unfold emit at 1.
  match goal with
  | |- context [m ?st] =>
      destruct (Hm st) as (new & Hnew & _); destruct (m st) as [[[] | e] s1]
  end; cbn [snd trace] in *.
  - exists new. by rewrite Hnew, <- app_assoc.
  - destruct (Hh e s1) as (new' & Hnew' & _). exists (new ++ new')%list.
    by rewrite Hnew', Hnew, <- !app_assoc.
Qed.

Lemma collect_competition_configs_events P config_data acc :
  (forall msg e, P (LogException msg e)) ->
  respects (extends_by P) (collect_competition_configs config_data acc).
Proof.
  intros HP. revert acc.
  induction config_data as [|c l IH]; intros acc; simpl; [eauto with steps |].
  unfold lift.
  repeat first [apply IH | apply extends_by_emit, HP | step].
Qed.

Lemma get_competition_configs_events P config_data :
  (forall msg e, P (LogException msg e)) ->
  respects (extends_by P) (get_competition_configs config_data).
Proof.
  intros HP. unfold get_competition_configs.
  repeat first [apply collect_competition_configs_events; exact HP | step].
Qed.

(** X11. A refresh cycle always returns: no exception (of the classes of
    the model, all of them kinds of [Exception]) raised by the configuration
    source, the clock arithmetic, the tracking backend, the aggregation or
    the delivery leaves it. Both phases always run: the log holds the
    opening entry of the refresh and later the opening entry of the
    sweep, whatever happened in the refresh. *)
Theorem refresh_cycle_never_raises s :
  fst (update_config_and_announce_results E s) = Return tt /\
  exists mid rest,
    trace (snd (update_config_and_announce_results E s)) =
    (trace s ++ Log INFO "Updating competition config..." :: mid ++
       Log INFO "Announcing competition results..." :: rest)%list.
Proof.
  split; [apply cycle_returns |]. rewrite cycle_unfold.
  destruct (extends_after_emit (Log INFO "Updating competition config...")
              (load_config_from_remote_repo E;; emit (Log INFO "Update completed."))
              (fun e => emit (LogException
                                "Unexpected error during remote repo synchronization" e)) s)
    as (mid & Hmid).
  { unfold load_config_from_remote_repo.
    repeat first [apply get_competition_configs_events; done
                 | by apply extends_by_emit | step]. }
  { intros e. by apply extends_by_emit. }
  fold (update_config E) in Hmid.
  destruct (extends_after_emit (Log INFO "Announcing competition results...")
              (do configs <- get_configs;
               for_each configs (announce_competition_results E);;
               emit (Log INFO "Announcement completed."))
              (fun e => emit (LogException
                                "Unexpected error during competition announcement" e))
              (snd (update_config E s)))
    as (rest & Hrest).
  { apply respects_bind; [eauto with steps .. | | intros cs].
    - eauto with steps.
    - apply respects_bind; [eauto with steps .. | | intros _; by apply extends_by_emit].
      apply respects_for_each; [eauto with steps .. |]. intros c.
      unfold announce_competition_results.
      apply respects_bind; [eauto with steps .. | | intros [data |]].
      + by apply get_competition_data_events.
      + unfold send_message_to_channel, _get_guild_or_raise.
        repeat first [by apply extends_by_emit | step].
      + eauto with steps. }
  { intros e. by apply extends_by_emit. }
  fold (announce_results E) in Hrest.
  exists mid, rest. rewrite Hrest, Hmid. by rewrite <- app_assoc.
Qed.

End LoopMore.

Section DeliveryMore.
Context `{PyValue val}.
Variable E : env val.

(** X12. [send_message_to_channel] never touches the ledger or the
    registry. It returns only after one send, of the given text to the
    given channel of the configured guild, which that guild has; when the
    guild is unknown, or has no channel of that name, it raises a
    [ValueError] and the only new event is an error entry in the log. *)
Theorem send_message_outcome channel_name message s r s' :
  send_message_to_channel E channel_name message s = (r, s') ->
  last_competitions_announcements s' = last_competitions_announcements s /\
  competition_configs s' = competition_configs s /\
  (r = Return tt ->
   trace s' = (trace s ++ [ChannelSend (GUILD_ID E) channel_name message])%list /\
   exists guild, get_guild E (tick s) (GUILD_ID E) = Some guild /\
                 channel_name ∈ text_channels guild) /\
  ((forall guild, get_guild E (tick s) (GUILD_ID E) = Some guild ->
                  channel_name ∉ text_channels guild) ->
   exists text, r = Raise (ValueError text) /\
                trace s' = (trace s ++ [Log ERROR text])%list).
Proof.
  unfold send_message_to_channel, _get_guild_or_raise.
  unfold bind, interact, emit, raise, ret, lift. cbn [fst snd tick trace].
  destruct (get_guild E (tick s) (GUILD_ID E)) as [guild |] eqn:Hguild.
  - case_bool_decide as Hchannel.
    + intros [= <- <-]. cbn. split_and!; try done.
      * intros _. split; [done |]. by exists guild.
      * intros Hno. by destruct (Hno guild).
    + intros [= <- <-]. cbn. split_and!; try done. intros _. by eexists.
  - intros [= <- <-]. cbn. split_and!; try done. intros _. by eexists.
Qed.

Lemma sends_at_most_refl s : sends_at_most 0 s s.
Proof. exists []. by rewrite app_nil_r. Qed.

Lemma count_sends_app l1 l2 :
  count_sends (l1 ++ l2) = (count_sends l1 + count_sends l2)%nat.
Proof. unfold count_sends. by rewrite List.filter_app, length_app. Qed.

Lemma sends_at_most_trans n m s1 s2 s3 :
  sends_at_most n s1 s2 -> sends_at_most m s2 s3 -> sends_at_most (n + m) s1 s3.
Proof.
  intros (new & Hnew & Hn) (new' & Hnew' & Hm). exists (new ++ new')%list.
  split; [by rewrite Hnew', Hnew, app_assoc |]. rewrite count_sends_app. lia.
Qed.

Lemma sends_at_most_weaken n m s s' :
  (n <= m)%nat -> sends_at_most n s s' -> sends_at_most m s s'.
Proof. intros Hle (new & Hnew & Hn). exists new. split; [done | lia]. Qed.

Lemma count_sends_none (events : list event) :
  Forall (fun ev => is_send ev = false) events -> count_sends events = 0%nat.
Proof.
  unfold count_sends. induction 1 as [|ev events Hev Hall IH]; [done |].
  cbn [List.filter]. by rewrite Hev.
Qed.

Lemma no_send_sends_at_most s s' :
  extends_by (fun ev => is_send ev = false) s s' -> sends_at_most 0 s s'.
Proof.
  intros (new & Hnew & Hall). exists new. split; [done |].
  by rewrite count_sends_none.
Qed.

Lemma get_competition_data_no_send competition s :
  sends_at_most 0 s (snd (get_competition_data E competition s)).
Proof.
  apply no_send_sends_at_most.
  apply (get_competition_data_events E (fun ev => is_send ev = false)).
  intros [] Hev; try done. by destruct (Hev guild_id channel_name message).
Qed.

Lemma send_message_at_most_one channel_name message s :
  sends_at_most 1 s (snd (send_message_to_channel E channel_name message s)).
Proof.
  unfold send_message_to_channel, _get_guild_or_raise.
  unfold bind, interact, emit, raise, ret, lift. cbn [fst snd tick trace].
  destruct (get_guild E (tick s) (GUILD_ID E)) as [guild |].
  - case_bool_decide; cbn; eexists; (split; [reflexivity |]); cbn; lia.
  - cbn. eexists. split; [reflexivity |]. cbn. lia.
Qed.

Lemma announce_at_most_one competition s :
  sends_at_most 1 s (snd (announce_competition_results E competition s)).
Proof.
  unfold announce_competition_results, bind.
  pose proof (get_competition_data_no_send competition s) as Hdata.
  destruct (get_competition_data E competition s) as [[[data |] | e] s1]; cbn [snd] in *.
  - apply (sends_at_most_trans 0 1 s s1); [done | apply send_message_at_most_one].
  - by apply (sends_at_most_weaken 0 1); [lia |].
  - by apply (sends_at_most_weaken 0 1); [lia |].
Qed.

Lemma for_each_sends (l : list CompetitionConfig) s :
  sends_at_most (length l) s (snd (for_each l (announce_competition_results E) s)).
Proof.
  revert s. induction l as [|c l IH]; intros s; [apply sends_at_most_refl |].
  cbn [for_each length]. unfold bind.
  pose proof (announce_at_most_one c s) as Hc.
  destruct (announce_competition_results E c s) as [[[] | e] s1]; cbn [snd] in *.
  - apply (sends_at_most_trans 1 (length l) s s1); [done | apply IH].
  - apply (sends_at_most_weaken 1); [lia | done].
Qed.

Lemma emit_no_send ev s :
  is_send ev = false -> sends_at_most 0 s (snd (emit ev s)).
Proof. intros Hev. exists [ev]. split; [done |]. unfold count_sends. cbn. by rewrite Hev. Qed.

Lemma announce_results_sends s :
  sends_at_most (from_option length 0%nat (competition_configs s)) s
    (snd (announce_results E s)).
Proof.
  unfold announce_results, try_except. unfold bind at 1 2.
  unfold emit at 1, get_configs. cbn [fst snd competition_configs].
  set (s0 := {| last_competitions_announcements := last_competitions_announcements s;
                competition_configs := competition_configs s; tick := tick s;
                trace := (trace s ++ [Log INFO "Announcing competition results..."])%list |}).
  assert (sends_at_most 0 s s0) as Hstart.
  { exists [Log INFO "Announcing competition results..."]. by split. }
  destruct (competition_configs s) as [cs |]; cbn [from_option].
  - unfold bind.
    pose proof (for_each_sends cs s0) as Hloop.
    destruct (for_each cs (announce_competition_results E) s0) as [[[] | e] s1];
      cbn [snd] in *.
    + apply (sends_at_most_weaken (0 + (length cs + 0))); [lia |].
      apply (sends_at_most_trans 0 (length cs + 0) s s0); [done |].
      apply (sends_at_most_trans (length cs) 0 s0 s1); [done |].
      by exists [Log INFO "Announcement completed."].
    + apply (sends_at_most_weaken (0 + (length cs + 0))); [lia |].
      apply (sends_at_most_trans 0 (length cs + 0) s s0); [done |].
      apply (sends_at_most_trans (length cs) 0 s0 s1); [done |].
      by exists [LogException "Unexpected error during competition announcement" e].
  - apply (sends_at_most_trans 0 0 s s0); [done |].
    by exists [LogException "Unexpected error during competition announcement"
                 (AttributeError "competition_configs")].
Qed.

Lemma update_config_no_send s : sends_at_most 0 s (snd (update_config E s)).
Proof.
  apply no_send_sends_at_most. revert s.
  change (respects (extends_by (fun ev => is_send ev = false)) (update_config E)).
  unfold update_config, load_config_from_remote_repo.
  repeat first [apply get_competition_configs_events; done
               | by apply extends_by_emit | step].
Qed.

(** X13. A refresh cycle sends at most one message for each competition
    that the registry holds after the refresh of this cycle, and none
    while the registry has never been set. *)
Theorem cycle_sends_at_most_one_per_competition s :
  exists new,
    trace (snd (update_config_and_announce_results E s)) = (trace s ++ new)%list /\
    (count_sends new <=
     from_option length 0%nat (competition_configs (snd (update_config E s))))%nat.
Proof.
  rewrite cycle_unfold.
  apply (sends_at_most_trans 0 _ s (snd (update_config E s)));
    [apply update_config_no_send | apply announce_results_sends].
Qed.

(** X14. [close] runs one whole refresh cycle first and then always
    reaches [super().close()]: its outcome is that of [super().close()],
    in the state that the cycle left. *)
Theorem close_flushes_then_closes (super_close : result unit) s :
  close E super_close s =
    (super_close, snd (update_config_and_announce_results E s)).
Proof.
  unfold close, bind, lift. pose proof (cycle_returns E s) as Hret.
  destruct (update_config_and_announce_results E s) as [[[] | e] s1];
    [done | discriminate].
Qed.

(** X15. When the clock shows a valid date and a slot of the competition's
    schedule is a string of ASCII characters that is not a time of day of
    the form [%H:%M], the announcement of that competition raises the
    [ValueError] of [strptime] right after its first reading of the clock:
    no query is made, nothing is sent or logged, and the ledger and the
    registry are as before. *)
Theorem unparseable_slot_stops_announcement competition s :
  check_date_fields (dt_year (clock E (tick s))) (dt_month (clock E (tick s)))
    (dt_day (clock E (tick s))) = Return tt ->
  (exists time_str,
     time_str ∈ evaluation_times competition /\ ascii_only time_str = true /\
     parse_HM time_str = None) ->
  announce_competition_results E competition s =
    (Raise (ValueError "time data does not match format '%H:%M'"),
     {| last_competitions_announcements := last_competitions_announcements s;
        competition_configs := competition_configs s;
        tick := S (tick s); trace := trace s |}).
Proof.
  intros Hdate (bad & Hin & _ & Hbad).
  unfold announce_competition_results, get_competition_data,
    get_latest_executed_competition, datetime_now.
  unfold bind at 1 2 3 4. unfold interact, ret, lift. cbn [fst snd tick].
  unfold latest_executed_competition.
  rewrite comprehension_unparseable; [done | done |]. by exists bad.
Qed.

End DeliveryMore.

(** ** More on the configuration refresh *)

Section ConfigMore.
Context `{PyValue val}.
Variable E : env val.

Lemma collect_competition_configs_valid items cs acc s :
  mapM valid_entry items = Some cs ->
  collect_competition_configs items acc s = (Return (acc ++ cs)%list, s).
Proof.
  intros Hall%mapM_Some. revert acc.
  induction Hall as [|j c items cs Hj Hall IH]; intros acc.
  { cbn. by rewrite app_nil_r. }
  cbn [collect_competition_configs]. unfold bind at 1. unfold try_except, lift.
  unfold valid_entry in Hj.
  destruct (unpack_CompetitionConfig j) as [c' | e]; [| done].
  injection Hj as ->. rewrite IH. by rewrite <- app_assoc.
Qed.

Lemma collect_competition_configs_invalid_dict items cs d e rest acc s :
  mapM valid_entry items = Some cs ->
  new_CompetitionConfig d = Raise e ->
  collect_competition_configs (items ++ JObject d :: rest)%list acc s =
    (Raise e, snd (emit (LogException "Error for competition" e) s)).
Proof.
  intros Hall%mapM_Some Hd. revert acc.
  induction Hall as [|j c items cs Hj Hall IH]; intros acc.
  { cbn [app collect_competition_configs]. unfold bind at 1. unfold try_except, lift.
    cbn [unpack_CompetitionConfig is_dict]. by rewrite Hd. }
  cbn [app collect_competition_configs]. unfold bind at 1. unfold try_except, lift.
  unfold valid_entry in Hj.
  destruct (unpack_CompetitionConfig j) as [c' | e']; [| done]. apply IH.
Qed.

Lemma collect_competition_configs_not_a_dict items cs j rest acc s :
  mapM valid_entry items = Some cs ->
  is_dict j = false ->
  collect_competition_configs (items ++ j :: rest)%list acc s =
    (Raise (AttributeError "get"), s).
Proof.
  intros Hall%mapM_Some Hj. revert acc.
  induction Hall as [|j0 c items cs Hj0 Hall IH]; intros acc.
  { cbn [app collect_competition_configs]. unfold bind at 1. unfold try_except, lift.
    rewrite Hj. by destruct j. }
  cbn [app collect_competition_configs]. unfold bind at 1. unfold try_except, lift.
  unfold valid_entry in Hj0.
  destruct (unpack_CompetitionConfig j0) as [c' | e']; [| done]. apply IH.
Qed.

(** X16. [get_competition_configs] is all or nothing. When every item of
    the document is a dict that [CompetitionConfig] accepts, the definitions
    are returned in document order and nothing is logged. At the first item
    that is not, the items after it are not looked at and no partial list
    is returned: if that item is a dict, the exception of the constructor
    is logged once and raised again; if it is not a dict, the handler
    itself ends by an [AttributeError] on [get], and nothing is logged. *)
Theorem get_competition_configs_all_or_nothing items cs s :
  mapM valid_entry items = Some cs ->
  get_competition_configs (JArray items) s = (Return cs, s) /\
  (forall d e rest,
     new_CompetitionConfig d = Raise e ->
     get_competition_configs (JArray (items ++ JObject d :: rest)) s =
       (Raise e,
        {| last_competitions_announcements := last_competitions_announcements s;
           competition_configs := competition_configs s;
           tick := tick s;
           trace := (trace s ++ [LogException "Error for competition" e])%list |})) /\
  (forall j rest,
     is_dict j = false ->
     get_competition_configs (JArray (items ++ j :: rest)) s =
       (Raise (AttributeError "get"), s)).
Proof.
  intros Hall. unfold get_competition_configs, bind, lift. cbn [iterate].
  split_and!.
  - by rewrite (collect_competition_configs_valid items cs).
  - intros d e rest Hd. by apply (collect_competition_configs_invalid_dict items cs).
  - intros j rest Hj. by apply (collect_competition_configs_not_a_dict items cs).
Qed.

Lemma collect_competition_configs_raises items acc s :
  mapM valid_entry items = None ->
  exists e s', collect_competition_configs items acc s = (Raise e, s') /\
               competition_configs s' = competition_configs s.
Proof.
  revert acc. induction items as [|j items IH]; intros acc; [done |].
  intros Hnone. cbn [collect_competition_configs]. unfold bind at 1. unfold try_except, lift.
  destruct (unpack_CompetitionConfig j) as [c | e] eqn:Hj.
  - apply IH. destruct (mapM valid_entry items) as [cs |] eqn:Hrest; [| done].
    assert (mapM valid_entry (j :: items) = Some (c :: cs)) as Hall; [| congruence].
    apply mapM_Some. constructor; [| by apply mapM_Some].
    unfold valid_entry. by rewrite Hj.
  - destruct (is_dict j); by eexists _, _.
Qed.

Lemma get_competition_configs_outcome config_data s :
  match rbind (iterate config_data)
          (fun items => match mapM valid_entry items with
                        | Some cs => Return cs
                        | None => Raise (ValidationError "")
                        end) with
  | Return cs => get_competition_configs config_data s = (Return cs, s)
  | Raise _ => exists e s', get_competition_configs config_data s = (Raise e, s') /\
                            competition_configs s' = competition_configs s
  end.
Proof.
  unfold get_competition_configs, bind, lift.
  destruct (iterate config_data) as [items | e]; cbn [rbind]; [| by eexists _, _].
  destruct (mapM valid_entry items) as [cs |] eqn:Hall.
  - by rewrite (collect_competition_configs_valid items cs).
  - by apply collect_competition_configs_raises.
Qed.

Lemma update_config_registry s :
  competition_configs (snd (update_config E s)) =
    match fetched_configs E (tick s) with
    | Some cs => Some cs
    | None => competition_configs s
    end.
Proof.
  unfold update_config, try_except, load_config_from_remote_repo, fetched_configs.
  unfold bind at 1 2 3 4 5. unfold emit at 1 2, interact, lift at 1. cbn [fst snd tick].
  destruct (http_get E (tick s)) as [resp | e]; [| done].
  destruct (status resp =? 200); [| done].
  unfold try_except. unfold bind at 1. unfold lift at 1.
  destruct (body resp) as [config_data | e]; [| done].
  unfold bind at 1.
  match goal with
  | |- context [get_competition_configs config_data ?st] =>
      pose proof (get_competition_configs_outcome config_data st) as Hout
  end.
  destruct (iterate config_data) as [items | e]; cbn [rbind] in Hout.
  - destruct (mapM valid_entry items) as [cs |].
    + rewrite Hout. done.
    + destruct Hout as (e & s' & -> & Hkeep). cbn. exact Hkeep.
  - destruct Hout as (e' & s' & -> & Hkeep). cbn. exact Hkeep.
Qed.

(** X17. The effect of Phase A on the registry. When the source answers
    with status 200 a body that parses to a document whose items are all
    valid entries, the registry becomes the list of those definitions, in
    order, whatever it held before. In every other case (the fetch raises,
    another status, a body that does not parse, a document that cannot be
    iterated over, an item that is not a valid entry) the registry keeps
    exactly what it held. In both cases Phase A returns and the ledger is as
    before. *)
Theorem refresh_replaces_or_retains s :
  fst (update_config E s) = Return tt /\
  last_competitions_announcements (snd (update_config E s)) =
    last_competitions_announcements s /\
  competition_configs (snd (update_config E s)) =
    match fetched_configs E (tick s) with
    | Some cs => Some cs
    | None => competition_configs s
    end.
Proof.
  split; [apply update_config_returns |].
  split; [apply (update_config_same_ledger E s) | apply update_config_registry].
Qed.

End ConfigMore.

(** ** The constraints of [CompetitionConfig] *)

Section Validation.

Lemma str_field_ok name d v :
  str_field name d = Return v <-> dict_get name d = Some (JString v) /\ v ≠ "".
Proof.
  unfold str_field. destruct (dict_get name d) as [[| | | | s | |] |]; try (split; [done | by intros [[=] _]]).
  destruct (String.eqb_spec s "") as [-> | Hne].
  - split; [done | by intros [[= <-] ?]].
  - split; [by intros [= <-] | by intros [[= <-] _]].
Qed.

Lemma str_items_ok name l l' :
  comprehension (str_item name) l = Return l' <-> l = List.map JString l'.
Proof.
  revert l'. induction l as [|j l IH]; intros l'; cbn [comprehension].
  { split; [by intros [= <-] | by destruct l']. }
  destruct j as [| | | | s | |]; cbn [str_item rbind];
    try (split; [done | by destruct l']).
  destruct (comprehension (str_item name) l) as [l0 | e] eqn:Hl; cbn [rbind].
  - split.
    + intros [= <-]. cbn. f_equal. by apply IH.
    + destruct l' as [|s' l']; [done |]. intros [= <- Hrest]. f_equal. f_equal.
      apply IH in Hrest. congruence.
  - split; [done |]. destruct l' as [|s' l']; [done |]. intros [= <- Hrest].
    apply IH in Hrest. congruence.
Qed.

Lemma str_list_field_ok name d l :
  str_list_field name d = Return l <->
  dict_get name d = Some (JArray (List.map JString l)) /\ l ≠ [].
Proof.
  unfold str_list_field.
  destruct (dict_get name d) as [[| | | | | js |] |]; try (split; [done | by intros [[=] _]]).
  destruct (comprehension (str_item name) js) as [l0 | e] eqn:Hjs; cbn [rbind].
  - apply str_items_ok in Hjs as ->. destruct l0 as [|s l0].
    + split; [done |]. intros [[= Hl] Hne]. by destruct l.
    + split; [by intros [= <-] |]. intros [[= Hl] _].
      assert (Inj (=) (=) (List.map JString)) as Hinj.
      { intros a. induction a as [|x a IH]; intros [|y b]; cbn; try done.
        intros [= -> ?%IH]. by subst. }
      f_equal. by apply Hinj.
  - split; [done |]. intros [[= ->] _].
    assert (comprehension (str_item name) (List.map JString l) = Return l) as Hok
      by (by apply str_items_ok).
    congruence.
Qed.

(** X18. [CompetitionConfig] accepts a dict exactly when each of its five
    string keys holds a non-empty string and [evaluation_times] holds a
    non-empty list of strings; the definition built carries those values
    unchanged. Other keys are ignored, and the strings of the list are not
    examined: they may be empty or no times of day at all. *)
Theorem new_CompetitionConfig_accepts_iff d c :
  new_CompetitionConfig d = Return c <->
  dict_get "competition_id" d = Some (JString (competition_id c)) /\
  dict_get "category" d = Some (JString (category c)) /\
  dict_get "evaluation_times" d = Some (JArray (List.map JString (evaluation_times c))) /\
  dict_get "dataset_hf_repo" d = Some (JString (dataset_hf_repo c)) /\
  dict_get "dataset_hf_filename" d = Some (JString (dataset_hf_filename c)) /\
  dict_get "dataset_hf_repo_type" d = Some (JString (dataset_hf_repo_type c)) /\
  well_formed c.
Proof.
  unfold new_CompetitionConfig, well_formed. split.
  - destruct (str_field "competition_id" d) as [id |] eqn:Hid; [| done].
    destruct (str_field "category" d) as [cat |] eqn:Hcat; [| done].
    destruct (str_list_field "evaluation_times" d) as [times |] eqn:Htimes; [| done].
    destruct (str_field "dataset_hf_repo" d) as [repo |] eqn:Hrepo; [| done].
    destruct (str_field "dataset_hf_filename" d) as [file |] eqn:Hfile; [| done].
    destruct (str_field "dataset_hf_repo_type" d) as [kind |] eqn:Hkind; [| done].
    cbn [rbind]. intros [= <-]. cbn.
    apply str_field_ok in Hid, Hcat, Hrepo, Hfile, Hkind.
    apply str_list_field_ok in Htimes.
    destruct Hid, Hcat, Htimes, Hrepo, Hfile, Hkind. by split_and!.
  - intros (Hid & Hcat & Htimes & Hrepo & Hfile & Hkind & ? & ? & ? & ? & ? & ?).
    rewrite (proj2 (str_field_ok _ _ (competition_id c))) by done.
    rewrite (proj2 (str_field_ok _ _ (category c))) by done.
    rewrite (proj2 (str_list_field_ok _ _ (evaluation_times c))) by done.
    rewrite (proj2 (str_field_ok _ _ (dataset_hf_repo c))) by done.
    rewrite (proj2 (str_field_ok _ _ (dataset_hf_filename c))) by done.
    rewrite (proj2 (str_field_ok _ _ (dataset_hf_repo_type c))) by done.
    cbn [rbind]. by destruct c.
Qed.

Lemma new_CompetitionConfig_well_formed d c :
  new_CompetitionConfig d = Return c -> well_formed c.
Proof.
  unfold new_CompetitionConfig, well_formed.
  destruct (str_field "competition_id" d) as [id |] eqn:Hid; [| done].
  destruct (str_field "category" d) as [cat |] eqn:Hcat; [| done].
  destruct (str_list_field "evaluation_times" d) as [times |] eqn:Htimes; [| done].
  destruct (str_field "dataset_hf_repo" d) as [repo |] eqn:Hrepo; [| done].
  destruct (str_field "dataset_hf_filename" d) as [file |] eqn:Hfile; [| done].
  destruct (str_field "dataset_hf_repo_type" d) as [kind |] eqn:Hkind; [| done].
  cbn [rbind]. intros [= <-]. cbn.
  apply str_field_ok in Hid, Hcat, Hrepo, Hfile, Hkind.
  apply str_list_field_ok in Htimes.
  destruct Hid, Hcat, Htimes, Hrepo, Hfile, Hkind. by split_and!.
Qed.

End Validation.

Section RegistryInvariant.
Context `{PyValue val}.
Variable E : env val.

(** X19. The registry only ever holds definitions that meet the field
    constraints. If it does before a refresh then it does after the refresh,
    whatever the source answers: every registered competition has a
    non-empty identifier and a non-empty schedule. *)
Theorem refresh_keeps_registry_well_formed s :
  (forall cs, competition_configs s = Some cs -> Forall well_formed cs) ->
  forall cs, competition_configs (snd (update_config E s)) = Some cs ->
             Forall well_formed cs.
Proof.
  intros Hbefore cs. rewrite update_config_registry. unfold fetched_configs.
  destruct (http_get E (tick s)) as [resp | e] eqn:Hget; [| apply Hbefore].
  destruct (status resp =? 200); [| apply Hbefore].
  destruct (body resp) as [config_data | e]; [| apply Hbefore].
  destruct (iterate config_data) as [items | e]; [| apply Hbefore].
  destruct (mapM valid_entry items) as [cs' |] eqn:Hall; [| apply Hbefore].
  intros [= ->]. apply mapM_Some in Hall. eapply Forall2_Forall_r; [exact Hall |].
  apply Forall_forall. intros j Hin c Hc. unfold valid_entry in Hc.
  destruct j as [| | | | | | d]; try done. cbn [unpack_CompetitionConfig] in Hc.
  destruct (new_CompetitionConfig d) as [c' | e] eqn:Hd; [| done].
  injection Hc as ->. by apply new_CompetitionConfig_well_formed in Hd.
Qed.

End RegistryInvariant.

(** ** The most recent occurrence *)

Section MostRecent.
Implicit Types (t u now : datetime) (slots : list (Z * Z)) (schedule : list string).

Lemma earlier_date_le y' m' d' y m d slot slot' :
  y' < y \/ (y' = y /\ (m' < m \/ (m' = m /\ d' < d))) ->
  Datetime.le (slot_instant y' m' d' slot) (slot_instant y m d slot').
Proof.
  intros Hearlier. unfold Datetime.le, Datetime.leb, Datetime.compare, fields.
  cbn [lex_compare slot_instant dt_year dt_month dt_day].
  destruct (Z.compare_spec y' y) as [-> | Hy | Hy]; [| done | lia].
  destruct (Z.compare_spec m' m) as [-> | Hm | Hm]; [| done | lia].
  destruct (Z.compare_spec d' d) as [-> | Hd | Hd]; [lia | done | lia].
Qed.

Lemma previous_date_earlier y m d y' m' d' :
  1 <= d -> previous_date y m d = (y', m', d') ->
  y' < y \/ (y' = y /\ (m' < m \/ (m' = m /\ d' < d))).
Proof.
  unfold previous_date. intros Hd.
  destruct (Z.ltb_spec 1 d); [intros [= <- <- <-]; lia |].
  destruct (Z.ltb_spec 1 m); intros [= <- <- <-]; lia.
Qed.

(** X20. On a valid date and for a schedule whose slots parse, whenever the
    resolver returns, it returns the most recent occurrence of the daily
    schedule: among the slot-instants of today and of the previous calendar
    date, the latest one that is not after now. *)
Theorem resolver_returns_most_recent_occurrence now schedule slots t y' m' d' :
  check_date_fields (dt_year now) (dt_month now) (dt_day now) = Return tt ->
  mapM parse_HM schedule = Some slots ->
  previous_date (dt_year now) (dt_month now) (dt_day now) = (y', m', d') ->
  latest_executed_competition now schedule = Return t ->
  (t ∈ List.map (slot_instant (dt_year now) (dt_month now) (dt_day now)) slots \/
   t ∈ List.map (slot_instant y' m' d') slots) /\
  Datetime.le t now /\
  forall u,
    u ∈ List.map (slot_instant (dt_year now) (dt_month now) (dt_day now)) slots \/
    u ∈ List.map (slot_instant y' m' d') slots ->
    Datetime.le u now -> Datetime.le u t.
Proof.
  intros Hdate Hparse Hprev Hret.
  pose proof (proj1 (check_date_fields_ok _ _ _) Hdate) as (_ & _ & Hday & _).
  pose proof (previous_date_earlier _ _ _ _ _ _ Hday Hprev) as Hearlier.
  assert (slots ≠ []) as Hne.
  { intros ->. apply mapM_Some in Hparse. apply Forall2_nil_inv_r in Hparse as ->.
    discriminate Hret. }
  set (today := List.map (slot_instant (dt_year now) (dt_month now) (dt_day now)) slots)
    in *.
  destruct (List.filter (fun time => Datetime.leb time now) today) as [|x past] eqn:Hpast.
  - assert (forall u, u ∈ today -> ¬ Datetime.le u now) as Hnone.
    { intros u Hu Hle. assert (u ∈ List.filter (fun time => Datetime.leb time now) today)
        as Hin by (by apply filter_elem_of).
      rewrite Hpast in Hin. by apply elem_of_nil in Hin. }
    destruct (decide (dt_day now = 1)) as [Hfirst | Hlater].
    { rewrite (resolver_first_day_raises now schedule slots) in Hret by done. done. }
    destruct (resolver_yesterday now schedule slots Hdate Hparse Hne Hnone ltac:(lia))
      as (t' & Ht' & Hprev' & Hin & Hle & Hmax).
    rewrite Hret in Ht'. injection Ht' as <-.
    rewrite Hprev in Hprev'. injection Hprev' as -> -> ->.
    split; [by right |]. split; [done |].
    intros u [Hu | Hu] Hule; [by destruct (Hnone u) | by apply Hmax].
  - destruct (resolver_today now schedule slots Hdate Hparse) as (t' & Ht' & Hin & Hle & Hmax).
    { assert (x ∈ List.filter (fun time => Datetime.leb time now) today) as Hx
        by (rewrite Hpast; left).
      apply filter_elem_of in Hx as [Hx Hxle]. by exists x. }
    rewrite Hret in Ht'. injection Ht' as <-.
    split; [by left |]. split; [done |].
    intros u [Hu | Hu] Hule; [by apply Hmax |].
    apply list_elem_of_In, in_map_iff in Hu as (slot & <- & _).
    apply list_elem_of_In, in_map_iff in Hin as (slot' & <- & _).
    by apply earlier_date_le.
Qed.

End MostRecent.

(** ** The further properties on concrete inputs *)

Section MoreRuns.
Import Scenario Inputs.

Lemma resolver_sound_witness :
  latest_executed_competition march_1_1505 ["09:00"; "15:00"] = Return occurrence_15_00 /\
  Datetime.le occurrence_15_00 march_1_1505 /\
  exists time_str, time_str ∈ ["09:00"; "15:00"] /\ parse_HM time_str = Some (15, 0).
Proof.
  split; [reflexivity |].
  destruct (resolver_sound march_1_1505 ["09:00"; "15:00"] occurrence_15_00 eq_refl)
    as (Hle & _ & _ & _ & _ & _ & Hslot).
  split; [exact Hle | exact Hslot].
Defined.

Lemma resolver_rejects_unparseable_slot_witness :
  latest_executed_competition march_1_1505 ["09:00"; "25:00"] =
    Raise (ValueError "time data does not match format '%H:%M'").
Proof.
  apply (resolver_rejects_unparseable_slot march_1_1505 ["09:00"; "25:00"]);
    [reflexivity |].
  exists "25:00". split; [right; left |]. split; reflexivity.
Defined.

Lemma resolver_returns_iff_witness :
  exists t, latest_executed_competition first_of_march_0600 ["05:30"; "12:00"] = Return t.
Proof.
  apply (resolver_returns_iff first_of_march_0600 ["05:30"; "12:00"]);
    [reflexivity | by repeat constructor |].
  exists [(5, 30); (12, 0)]. split; [reflexivity |]. split; [discriminate |].
  left. exists (slot_instant 2024 3 1 (5, 30)). split; [left | reflexivity].
Defined.

Lemma resolver_depends_on_slot_set_witness :
  latest_executed_competition march_1_1505 ["09:00"; "15:00"] =
  latest_executed_competition march_1_1505 ["15:00"; "9:00"; "15:00"].
Proof.
  apply (resolver_depends_on_slot_set march_1_1505 ["09:00"; "15:00"]
           ["15:00"; "9:00"; "15:00"] [(9, 0); (15, 0)] [(15, 0); (9, 0); (15, 0)]);
    [reflexivity | reflexivity | reflexivity |].
  intros slot. rewrite !elem_of_cons, !elem_of_nil. tauto.
Defined.

Lemma resolver_returns_most_recent_occurrence_witness :
  latest_executed_competition march_2_0400 ["09:00"; "15:00"] = Return occurrence_15_00 /\
  forall u,
    u ∈ List.map (slot_instant 2024 3 2) [(9, 0); (15, 0)] \/
    u ∈ List.map (slot_instant 2024 3 1) [(9, 0); (15, 0)] ->
    Datetime.le u march_2_0400 -> Datetime.le u occurrence_15_00.
Proof.
  split; [reflexivity |].
  apply (resolver_returns_most_recent_occurrence march_2_0400 ["09:00"; "15:00"]
           [(9, 0); (15, 0)] occurrence_15_00 2024 3 1); reflexivity.
Defined.

Lemma distinct_keys_runs3 : forall r, r ∈ runs3 -> distinct_keys r.
Proof.
  intros r Hr. unfold runs3 in Hr.
  repeat (apply elem_of_cons in Hr as [-> | Hr]);
    [.. | by apply elem_of_nil in Hr];
    unfold distinct_keys; cbn [summary List.map fst];
    (eapply bool_decide_unpack; vm_compute; exact I).
Defined.

Lemma first_scan_counts_and_collects_witness :
  scan_runs runs3 = (2, [VStr "H1"; VStr "H1"; VStr "H2"]).
Proof. exact (first_scan_counts_and_collects runs3 distinct_keys_runs3). Defined.

Lemma aggregation_without_votes_witness :
  fst (competition_data_from_runs melanoma occurrence_15_00 runs_without_votes init) =
    Return None /\
  last_competitions_announcements
    (snd (competition_data_from_runs melanoma occurrence_15_00 runs_without_votes init)) = ∅.
Proof.
  rewrite (aggregation_without_votes melanoma occurrence_15_00 runs_without_votes init).
  - split; reflexivity.
  - intros r Hr. unfold runs_without_votes in Hr.
    apply list_elem_of_singleton in Hr as ->. reflexivity.
Defined.

Lemma aggregation_outcome_witness :
  competition_data_from_runs melanoma occurrence_15_00
    ([vote_for_H1] ++ record_of_H1 :: [vote_for_H2]) init =
  (Return (Some (mk_announcement "melanoma-1" occurrence_15_00 500 2 "H1" f_0_87)),
   {| last_competitions_announcements := <["melanoma-1" := occurrence_15_00]> ∅;
      competition_configs := None; tick := 0; trace := [] |}).
Proof.
  apply (aggregation_outcome melanoma occurrence_15_00 [vote_for_H1] record_of_H1
           [vote_for_H2] (VStr "H1") 2 (VInt 500) (VFloat f_0_87) 500 "H1" f_0_87 init).
  - reflexivity.
  - unfold names_miner. cbn. left.
  - intros r' Hr'. apply list_elem_of_singleton in Hr' as ->.
    unfold names_miner. cbn. intros Hin. apply list_elem_of_singleton in Hin. discriminate.
  - unfold distinct_keys. cbn [summary List.map fst record_of_H1].
    eapply bool_decide_unpack. vm_compute. exact I.
  - cbn. right. left.
  - cbn. right. right. left.
  - reflexivity.
  - reflexivity.
  - reflexivity.
Defined.

Lemma missing_field_raises_after_ledger_write_witness :
  competition_data_from_runs melanoma occurrence_15_00 ([] ++ bare_record_of_A :: []) init =
  (Raise (UnboundLocalError "dataset_size"),
   {| last_competitions_announcements := <["melanoma-1" := occurrence_15_00]> ∅;
      competition_configs := None; tick := 0; trace := [] |}).
Proof.
  apply (missing_field_raises_after_ledger_write melanoma occurrence_15_00 []
           bare_record_of_A [] (VStr "A") 1 init).
  - reflexivity.
  - unfold names_miner. cbn. left.
  - intros r' Hr'. by apply elem_of_nil in Hr'.
  - left. reflexivity.
Defined.

(** X9 where the ledger is written: in the scenario the entry, absent
    before, holds the occurrence afterwards, so the theorem gives the votes,
    the selected winner and its record. *)
Lemma ledger_written_only_with_winner_witness :
  last_competitions_announcements
    (snd (get_competition_data (world ["general"] runs3) melanoma init)) !! "melanoma-1" =
    Some occurrence_15_00 /\
  exists occ thr runs w n winner,
    latest_executed_competition (clock (world ["general"] runs3) (tick init))
      (evaluation_times melanoma) = Return occ /\
    minus_15_minutes (clock (world ["general"] runs3) (S (tick init))) = Return thr /\
    last_competitions_announcements init !! competition_id melanoma ≠ Some occ /\
    wandb_runs (world ["general"] runs3) (S (S (tick init)))
      ("safe-scan-ai/" +:+ competition_id melanoma) (mk_filters occ thr)
      = Return (Some runs) /\
    w ∈ votes_of runs /\
    most_common_1 (Counter (snd (scan_runs runs))) = [(w, n)] /\
    find_winner_run runs w = Bound (Some winner) /\
    last_competitions_announcements
      (snd (get_competition_data (world ["general"] runs3) melanoma init)) =
    <[competition_id melanoma := occ]> (last_competitions_announcements init).
Proof.
  split; [reflexivity |].
  assert (get_competition_data (world ["general"] runs3) melanoma init =
          (fst (get_competition_data (world ["general"] runs3) melanoma init),
           snd (get_competition_data (world ["general"] runs3) melanoma init)))
    as Hrun by reflexivity.
  destruct (ledger_written_only_with_winner (world ["general"] runs3) melanoma init _ _ Hrun)
    as [Hsame | Hwritten]; [| exact Hwritten].
  apply (f_equal (fun ledger => ledger !! "melanoma-1")) in Hsame.
  vm_compute in Hsame. discriminate Hsame.
Defined.

Lemma get_competition_configs_all_or_nothing_witness :
  get_competition_configs (JArray [JObject melanoma_dict]) init = (Return [melanoma], init) /\
  get_competition_configs
    (JArray [JObject melanoma_dict; JObject no_schedule_dict; JNull]) init =
    (Raise (ValidationError "evaluation_times"),
     {| last_competitions_announcements := ∅; competition_configs := None; tick := 0;
        trace := [LogException "Error for competition"
                    (ValidationError "evaluation_times")] |}) /\
  get_competition_configs
    (JArray [JObject melanoma_dict; JString "lung-1"; JObject melanoma_dict]) init =
    (Raise (AttributeError "get"), init).
Proof.
  destruct (get_competition_configs_all_or_nothing [JObject melanoma_dict] [melanoma] init
              eq_refl) as (Hall & Hdict & Hother).
  split_and!.
  - exact Hall.
  - exact (Hdict no_schedule_dict (ValidationError "evaluation_times") [JNull] eq_refl).
  - exact (Hother (JString "lung-1") [JObject melanoma_dict] eq_refl).
Defined.

Lemma send_message_outcome_witness :
  trace (snd (send_message_to_channel (world ["discord-bot-test"] runs3)
                "discord-bot-test" "hello" init)) =
  [ChannelSend 42 "discord-bot-test" "hello"].
Proof.
  destruct (send_message_outcome (world ["discord-bot-test"] runs3)
              "discord-bot-test" "hello" init
              (fst (send_message_to_channel (world ["discord-bot-test"] runs3)
                      "discord-bot-test" "hello" init))
              (snd (send_message_to_channel (world ["discord-bot-test"] runs3)
                      "discord-bot-test" "hello" init))
              eq_refl) as (_ & _ & Hsent & _).
  destruct (Hsent eq_refl) as [Htrace _]. exact Htrace.
Defined.

Lemma unparseable_slot_stops_announcement_witness :
  announce_competition_results (world ["discord-bot-test"] runs3) broken init =
  (Raise (ValueError "time data does not match format '%H:%M'"),
   {| last_competitions_announcements := ∅; competition_configs := None;
      tick := 1; trace := [] |}).
Proof.
  apply (unparseable_slot_stops_announcement (world ["discord-bot-test"] runs3) broken init);
    [reflexivity |].
  exists "25:00". split; [left |]. split; reflexivity.
Defined.

Lemma refresh_keeps_registry_well_formed_witness :
  competition_configs (snd (update_config (world ["discord-bot-test"] runs3) init)) =
    Some [melanoma] /\
  Forall well_formed [melanoma].
Proof.
  split; [reflexivity |].
  apply (refresh_keeps_registry_well_formed (world ["discord-bot-test"] runs3) init).
  - intros cs Hcs. discriminate Hcs.
  - reflexivity.
Defined.

(** The entry of the scenario is accepted and its undeclared key ignored. *)
Example melanoma_dict_accepted :
  new_CompetitionConfig melanoma_dict = Return melanoma.
Proof. reflexivity. Qed.

End MoreRuns.
